(** * Cope Telegram bot: formatter, message composer and update sequencer

    A shallow embedding of [telegram-bot/bot.py] and the properties its
    specification states about it.

    Conventions of the embedding:
    - a Python [str] is a list of Unicode code points ([str]), so that [len],
      slicing and padding count characters the way Python does; literals are
      written as Rocq strings in UTF-8 and decoded by [u];
    - a JSON number is the binary64 value Python's [float] holds
      ([spec_float], the bit-level specification of the Standard Library);
      an integer literal is taken at the binary64 value it denotes ([of_Z]),
      which for magnitudes up to 2^53 is exact, and the operations of the
      formatter (truth test, comparison with an int, true division by a
      constant, fixed-point formatting) give on such an int what they give on
      that float;
    - a Python [dict] with string keys is an association list ([dict]);
    - code that can raise returns a [result]. *)

From Stdlib Require Import String Ascii ZArith NArith List Bool Lia.
From Stdlib Require Import SpecFloat.
From Stdlib Require Import Sorted.
Import ListNotations.

Local Open Scope Z_scope.

(* ------------------------------------------------------------------ *)
(** * Python strings *)

Module PyStr.

Definition char := N.
Definition str := list char.

(** ** Literals: UTF-8 decoding of a Rocq string *)

Record utf8_state := { u_out : list char; u_acc : N; u_need : nat }.

Definition utf8_step (st : utf8_state) (b : N) : utf8_state :=
  match u_need st with
  | O =>
      if (b <? 128)%N then {| u_out := b :: u_out st; u_acc := 0; u_need := 0 |}
      else if (b <? 224)%N then {| u_out := u_out st; u_acc := N.land b 31; u_need := 1 |}
      else if (b <? 240)%N then {| u_out := u_out st; u_acc := N.land b 15; u_need := 2 |}
      else {| u_out := u_out st; u_acc := N.land b 7; u_need := 3 |}
  | S k =>
      let acc := (u_acc st * 64 + N.land b 63)%N in
      match k with
      | O => {| u_out := acc :: u_out st; u_acc := 0; u_need := 0 |}
      | S _ => {| u_out := u_out st; u_acc := acc; u_need := k |}
      end
  end.

Definition u (s : string) : str :=
  rev (u_out (fold_left utf8_step
                (List.map N_of_ascii (list_ascii_of_string s))
                {| u_out := []; u_acc := 0; u_need := 0 |})).

(** ** The string operations the bot uses *)

Definition len (s : str) : Z := Z.of_nat (length s).

(** [s[:n]] for a non-negative [n]. *)
Definition slice_to (n : nat) (s : str) : str := firstn n s.

Fixpoint repeat_str (s : str) (n : nat) : str :=
  match n with
  | O => []
  | S k => s ++ repeat_str s k
  end.

(** [s * n]: empty when [n] is not positive. *)
Definition mul_str (s : str) (n : Z) : str := repeat_str s (Z.to_nat n).

(** [format(s, "<w")]: pad with spaces on the right up to width [w]. *)
Definition ljust (w : nat) (s : str) : str :=
  s ++ repeat 32%N (w - length s).

Fixpoint join (sep : str) (l : list str) : str :=
  match l with
  | [] => []
  | [x] => x
  | x :: rest => x ++ sep ++ join sep rest
  end.

(** Characters for which [str.isspace] holds. *)
Definition is_space (c : char) : bool :=
  ((9 <=? c) && (c <=? 13) || (28 <=? c) && (c <=? 32)
   || (c =? 133) || (c =? 160) || (c =? 5760)
   || (8192 <=? c) && (c <=? 8202)
   || (c =? 8232) || (c =? 8233) || (c =? 8239) || (c =? 8287)
   || (c =? 12288))%N.

(** [s.split()]: the maximal runs of non-space characters, in order. *)
Fixpoint split_from (cur : str) (s : str) : list str :=
  match s with
  | [] => match cur with [] => [] | _ => [rev cur] end
  | c :: rest =>
      if is_space c
      then match cur with
           | [] => split_from [] rest
           | _ => rev cur :: split_from [] rest
           end
      else split_from (c :: cur) rest
  end.

Definition split (s : str) : list str := split_from [] s.

Fixpoint lstrip (s : str) : str :=
  match s with
  | c :: rest => if is_space c then lstrip rest else s
  | [] => []
  end.

Definition rstrip (s : str) : str := rev (lstrip (rev s)).

Definition strip (s : str) : str := rstrip (lstrip s).

Definition eqb (a b : str) : bool :=
  if list_eq_dec N.eq_dec a b then true else false.

Fixpoint starts_with (p s : str) : bool :=
  match p, s with
  | [], _ => true
  | _ :: _, [] => false
  | a :: p', b :: s' => (a =? b)%N && starts_with p' s'
  end.

(** [needle in hay] *)
Fixpoint contains (needle hay : str) : bool :=
  starts_with needle hay
  || match hay with
     | [] => false
     | _ :: rest => contains needle rest
     end.

(** Decimal digits of a natural number, as [str(n)] prints them; [fuel]
    bounds the number of digits. *)
Fixpoint digits_fuel (fuel : nat) (n : N) : str :=
  match fuel with
  | O => []
  | S f =>
      if (n <? 10)%N then [(48 + n)%N]
      else digits_fuel f (n / 10)%N ++ [(48 + n mod 10)%N]
  end.

Definition decimal (n : N) : str :=
  digits_fuel (S (N.to_nat (N.log2 n))) n.

(** [str(z)] for a Python int. *)
Definition str_of_Z (z : Z) : str :=
  match z with
  | Zneg p => 45%N :: decimal (Npos p)
  | _ => decimal (Z.to_N z)
  end.

Definition is_digit (c : char) : bool := ((48 <=? c) && (c <=? 57))%N.

(** The number a string of decimal digits denotes. *)
Definition digits_value (s : str) : Z :=
  fold_left (fun acc c => acc * 10 + (Z.of_N c - 48)) s 0.

End PyStr.

Import PyStr.


(* ------------------------------------------------------------------ *)
(** * Exceptions and results *)

Inductive exn :=
  | ZeroDivisionError
  | OverflowError
  | ValueError
  | TelegramError (msg : str)
  | RequestsTimeout
  | RequestException (msg : str)
  | OtherException (msg : str).

Inductive result (A : Type) :=
  | Ok (a : A)
  | Raise (e : exn).
Arguments Ok {A} a.
Arguments Raise {A} e.

Definition bind {A B} (r : result A) (k : A -> result B) : result B :=
  match r with
  | Ok a => k a
  | Raise e => Raise e
  end.

Notation "x <- r ;; k" := (bind r (fun x => k))
  (at level 61, r at next level, right associativity).

(* ------------------------------------------------------------------ *)
(** * Python numbers: binary64 *)

Module PyFloat.

Definition prec := 53.
Definition emax := 1024.

Definition float := spec_float.

(** [float(z)] for an int within range. *)
Definition of_Z (z : Z) : float := binary_normalize prec emax z 0 false.

Definition fdiv (x y : float) : float := SFdiv prec emax x y.
Definition fmul (x y : float) : float := SFmul prec emax x y.

Definition is_finite (x : float) : bool :=
  match x with
  | S754_zero _ | S754_finite _ _ _ => true
  | _ => false
  end.

(** [bool(x)]: every float but the two zeros is true, NaN included. *)
Definition truthy (x : float) : bool :=
  match x with
  | S754_zero _ => false
  | _ => true
  end.

(** Python compares a float with an int exactly.  [cmp_Z x n] is the
    comparison of the value of [x] with [n]; [None] for NaN. *)
Definition signed (s : bool) (m : positive) : Z := if s then Zneg m else Zpos m.

Definition cmp_Z (x : float) (n : Z) : option comparison :=
  match x with
  | S754_nan => None
  | S754_infinity s => Some (if s then Lt else Gt)
  | S754_zero _ => Some (0 ?= n)
  | S754_finite s m e =>
      Some (if 0 <=? e then signed s m * 2 ^ e ?= n
            else signed s m ?= n * 2 ^ (- e))
  end.

Definition eq_Z (x : float) (n : Z) : bool :=
  match cmp_Z x n with Some Eq => true | _ => false end.

Definition ge_Z (x : float) (n : Z) : bool :=
  match cmp_Z x n with Some (Gt | Eq) => true | _ => false end.

Definition lt_Z (x : float) (n : Z) : bool :=
  match cmp_Z x n with Some Lt => true | _ => false end.


(** [x / n] with a non-zero int literal [n]: the int is converted, then
    IEEE division. *)
Definition div_int (x : float) (n : Z) : float := fdiv x (of_Z n).

(** [a / b] on two ints: the correctly rounded quotient. *)
Definition Z2SF (z : Z) : float :=
  match z with
  | Z0 => S754_zero false
  | Zpos p => S754_finite false p 0
  | Zneg p => S754_finite true p 0
  end.

Definition int_truediv (a b : Z) : result float :=
  if b =? 0 then Raise ZeroDivisionError
  else match SFdiv prec emax (Z2SF a) (Z2SF b) with
       | S754_infinity _ => Raise OverflowError
       | q => Ok q
       end.

(** [x * n] with an int factor. *)
Definition mul_int (x : float) (n : Z) : float := fmul x (of_Z n).

(** [int(x)]: truncation towards zero. *)
Definition to_int (x : float) : result Z :=
  match x with
  | S754_nan => Raise ValueError
  | S754_infinity _ => Raise OverflowError
  | S754_zero _ => Ok 0
  | S754_finite s m e =>
      let a := if 0 <=? e then Zpos m * 2 ^ e else Zpos m / 2 ^ (- e) in
      Ok (if s then - a else a)
  end.

(** ** Fixed-point formatting, [format(x, ".df")] *)

(** The integer nearest to [num/den], ties to the even one. *)
Definition round_half_even (num den : Z) : Z :=
  let q := num / den in
  match 2 * (num mod den) ?= den with
  | Lt => q
  | Gt => q + 1
  | Eq => if Z.even q then q else q + 1
  end.

(** [m * 2^e * 10^d] rounded to an integer. *)
Definition scaled (d : nat) (m : positive) (e : Z) : Z :=
  if 0 <=? e then Zpos m * 2 ^ e * 10 ^ Z.of_nat d
  else round_half_even (Zpos m * 10 ^ Z.of_nat d) (2 ^ (- e)).

(** The last [d] decimal digits of [k], zero padded. *)
Fixpoint frac_digits (d : nat) (k : Z) : str :=
  match d with
  | O => []
  | S d' => frac_digits d' (k / 10) ++ [Z.to_N (48 + k mod 10)]
  end.

(** [n] hundredths (for [d = 2]) printed as [I.FF]. *)
Definition fixed_digits (d : nat) (n : Z) : str :=
  decimal (Z.to_N (n / 10 ^ Z.of_nat d))
  ++ match d with
     | O => []
     | _ => 46%N :: frac_digits d (n mod 10 ^ Z.of_nat d)
     end.

Definition sign_str (s : bool) : str := if s then [45%N] else [].

Definition format_fixed (d : nat) (x : float) : str :=
  match x with
  | S754_nan => u "nan"
  | S754_infinity s => sign_str s ++ u "inf"
  | S754_zero s => sign_str s ++ fixed_digits d 0
  | S754_finite s m e => sign_str s ++ fixed_digits d (scaled d m e)
  end.

End PyFloat.

Import PyFloat.


(* ------------------------------------------------------------------ *)
(** * Data model *)

(** A Python dict with string keys. *)
Definition dict (V : Type) := list (str * V).

Fixpoint dict_get {V} (d : dict V) (k : str) : option V :=
  match d with
  | [] => None
  | (k', v) :: rest => if eqb k' k then Some v else dict_get rest k
  end.

(** [d.get(k, default)] *)
Definition get_or {V} (d : dict V) (k : str) (default : V) : V :=
  match dict_get d k with
  | Some v => v
  | None => default
  end.

(** [bool(d)] *)
Definition nonempty {A} (l : list A) : bool :=
  match l with [] => false | _ => true end.

(** An entry of [ANALYSIS_STEPS]. *)
Record step_def := { key : str; label : str; icon : str }.

(** A StepResult: the object under a step key, with the string fields
    [value], [status] and [reason], each of which may be missing. *)
Definition step_result := dict str.

(** One scenario of the predictions block.  [None] is a missing field. *)
Record scenario := {
  sc_mcap : option float;
  sc_multiplier : option str;
  sc_probability : option float;
  sc_timeframe : option str
}.

Definition no_scenario : scenario :=
  {| sc_mcap := None; sc_multiplier := None;
     sc_probability := None; sc_timeframe := None |}.

(** The [analysis] object of the API response.  [a_steps] holds the
    StepResults by step key; a field that is [None] is missing (or null);
    [a_other] lists the further keys of the object, which the bot never
    reads. *)
Record analysis := {
  a_steps : dict step_result;
  a_marketCapPredictions : option (dict scenario);
  a_overallProbability : option float;
  a_riskLevel : option str;
  a_recommendation : option str;
  a_other : list str
}.

(** [bool(analysis)]: the object has at least one key. *)
Definition analysis_truthy (a : analysis) : bool :=
  nonempty (a_steps a)
  || match a_marketCapPredictions a with Some _ => true | None => false end
  || match a_overallProbability a with Some _ => true | None => false end
  || match a_riskLevel a with Some _ => true | None => false end
  || match a_recommendation a with Some _ => true | None => false end
  || nonempty (a_other a).

(** [analysis.get(step_key)] followed by the truth test of the result:
    [Some d] when the key is there and its object is not empty. *)
Definition step_data_of (a : analysis) (k : str) : option step_result :=
  match dict_get (a_steps a) k with
  | Some d => if nonempty d then Some d else None
  | None => None
  end.

(** [analysis.get('marketCapPredictions')] followed by its truth test. *)
Definition predictions_of (a : analysis) : option (dict scenario) :=
  match a_marketCapPredictions a with
  | Some p => if nonempty p then Some p else None
  | None => None
  end.

Definition nl : str := [10%N].

(* ------------------------------------------------------------------ *)
(** * Configuration *)

Definition STEP_DELAY : Z := 3.
Definition PREDICTION_DELAY : Z := 2.

Definition ANALYSIS_STEPS : list step_def :=
  [ {| key := u "bundles"; label := u "Bundle Detection"; icon := u "🎯" |};
    {| key := u "devHistory"; label := u "Developer History"; icon := u "👤" |};
    {| key := u "topHolders"; label := u "Top Holders Analysis"; icon := u "👥" |};
    {| key := u "chart"; label := u "Chart Pattern Analysis"; icon := u "📈" |};
    {| key := u "freshWallets"; label := u "Fresh Wallet Activity"; icon := u "✨" |};
    {| key := u "devSold"; label := u "Developer Activity"; icon := u "⚡" |};
    {| key := u "lore"; label := u "Lore & Narrative"; icon := u "📖" |};
    {| key := u "socials"; label := u "Social Media Presence"; icon := u "🌐" |} ].

(* ------------------------------------------------------------------ *)
(** * Formatting functions *)

(** [format_market_cap(value)]; [None] is Python's [None]. *)
Definition format_market_cap (value : option float) : str :=
  match value with
  | None => u "$0"
  | Some v =>
      if negb (truthy v) || eq_Z v 0 then u "$0"
      else if ge_Z v 1000000 then
        u "$" ++ format_fixed 2 (div_int v 1000000) ++ u "M"
      else if ge_Z v 1000 then
        u "$" ++ format_fixed 1 (div_int v 1000) ++ u "K"
      else u "$" ++ format_fixed 0 v
  end.

(** [s[:n] if len(s) > n else s] *)
Definition clip (n : nat) (s : str) : str :=
  if Z.of_nat n <? len s then slice_to n s else s.

(** [s[:n] + "..." if len(s) > limit else s] *)
Definition truncate (limit n : nat) (s : str) : str :=
  if Z.of_nat limit <? len s then slice_to n s ++ u "..." else s.

Definition box_top : str := u "┌─────────────────────────────┐".
Definition box_mid : str := u "├─────────────────────────────┤".
Definition box_bot : str := u "└─────────────────────────────┘".

Definition format_token_overview
    (metadata : dict str) (metrics : dict (option float)) : str :=
  let name := get_or metadata (u "name") (u "Unknown") in
  let symbol := get_or metadata (u "symbol") (u "N/A") in
  let zero := Some (S754_zero false) in
  let market_cap := format_market_cap (get_or metrics (u "marketCap") zero) in
  let volume := format_market_cap (get_or metrics (u "volume24h") zero) in
  let liquidity := format_market_cap (get_or metrics (u "liquidityUSD") zero) in
  let name := clip 25 name in
  let symbol := clip 23 symbol in
  u "📊 Token Overview" ++ nl
  ++ box_top ++ nl
  ++ u "│ Name: " ++ ljust 25 name ++ u " │" ++ nl
  ++ u "│ Symbol: " ++ ljust 23 symbol ++ u " │" ++ nl
  ++ u "│ Market Cap: " ++ ljust 18 market_cap ++ u " │" ++ nl
  ++ u "│ Volume 24h: " ++ ljust 19 volume ++ u " │" ++ nl
  ++ u "│ Liquidity: " ++ ljust 20 liquidity ++ u " │" ++ nl
  ++ box_bot.

(** ** One analysis step *)

Definition status_emoji_of (status : str) : str :=
  get_or [ (u "safe", u "✅"); (u "warning", u "⚠️"); (u "danger", u "❌");
           (u "info", u "ℹ️"); (u "neutral", u "ℹ️") ]
         status (u "ℹ️").

(** The state of the wrapping loop: the text built so far and the line
    being filled. *)
Record wrap_state := { wrapped_reason : str; current_line : str }.

Definition wrap_step (st : wrap_state) (word : str) : wrap_state :=
  if len (current_line st ++ word) <=? 27
  then {| wrapped_reason := wrapped_reason st;
          current_line := current_line st ++ word ++ u " " |}
  else {| wrapped_reason :=
            if nonempty (current_line st)
            then wrapped_reason st ++ strip (current_line st) ++ nl ++ u "   "
            else wrapped_reason st;
          current_line := word ++ u " " |}.

Definition wrap_finish (st : wrap_state) : str :=
  if nonempty (current_line st)
  then wrapped_reason st ++ strip (current_line st)
  else wrapped_reason st.

Definition wrap_words (words : list str) : str :=
  wrap_finish (fold_left wrap_step words
                 {| wrapped_reason := []; current_line := [] |}).

(** The reason as it is before wrapping. *)
Definition truncate_reason (reason : str) : str := truncate 70 67 reason.

Definition wrap_reason (reason : str) : str :=
  wrap_words (split (truncate_reason reason)).

Section Catalog.

(** The step catalog, [ANALYSIS_STEPS] in the bot. *)
Variable catalog : list step_def.

(** [next((s for s in ANALYSIS_STEPS if s['key'] == step_key), None)] *)
Definition find_step (step_key : str) : option step_def :=
  find (fun s => eqb (key s) step_key) catalog.

Definition format_analysis_step
    (step_key : str) (step_data : step_result) (step_index total_steps : nat)
    : str :=
  match find_step step_key with
  | None => []
  | Some step_info =>
      let value := get_or step_data (u "value") (u "N/A") in
      let status := get_or step_data (u "status") (u "info") in
      let reason := get_or step_data (u "reason") [] in
      let status_emoji := status_emoji_of status in
      nl ++ icon step_info ++ u " " ++ label step_info ++ nl
      ++ u "   " ++ status_emoji ++ u " " ++ value ++ nl
      ++ u "   " ++ wrap_reason reason
  end.

End Catalog.

Section Rendering.

(** [str(x)] for a JSON number, as an f-string field without a format
    specification prints it. *)
Variable num_str : float -> str.

Definition percent_field (p : option float) : str :=
  match p with
  | Some x => num_str x
  | None => u "0"
  end.

Definition scenario_rows (title : str) (sc : scenario) : str :=
  title ++ nl
  ++ u "│    Target: " ++ ljust 18 (format_market_cap (sc_mcap sc)) ++ u " │" ++ nl
  ++ u "│    Multiplier: "
     ++ ljust 15 (match sc_multiplier sc with Some s => s | None => u "N/A" end)
     ++ u " │" ++ nl
  ++ u "│    Probability: " ++ percent_field (sc_probability sc)
     ++ u "%            │" ++ nl
  ++ u "│    Timeframe: "
     ++ ljust 16 (match sc_timeframe sc with Some s => s | None => u "N/A" end)
     ++ u " │" ++ nl.

(** [format_predictions(predictions, current_mcap)]; the second argument
    is not used by the function. *)
Definition format_predictions (predictions : dict scenario) : str :=
  if negb (nonempty predictions) then []
  else
    let conservative := get_or predictions (u "conservative") no_scenario in
    let moderate := get_or predictions (u "moderate") no_scenario in
    let aggressive := get_or predictions (u "aggressive") no_scenario in
    nl ++ u "📈 Market Cap Predictions" ++ nl
    ++ box_top ++ nl
    ++ scenario_rows (u "│ 🟢 Conservative             │") conservative
    ++ box_mid ++ nl
    ++ scenario_rows (u "│ 🟡 Moderate                 │") moderate
    ++ box_mid ++ nl
    ++ scenario_rows (u "│ 🔴 Aggressive               │") aggressive
    ++ box_bot.

(** ** The verdict *)

Definition risk_emoji_of (risk_level : str) : str :=
  get_or [ (u "Low", u "🟢"); (u "Medium", u "🟡"); (u "High", u "🔴") ]
         risk_level (u "🟡").

(** The recommendation as the panel shows it, before padding. *)
Definition truncate_recommendation (recommendation : str) : str :=
  truncate 150 147 recommendation.

Definition format_verdict (a : analysis) : str :=
  let probability := percent_field (a_overallProbability a) in
  let risk_level :=
    match a_riskLevel a with Some s => s | None => u "Medium" end in
  let recommendation :=
    match a_recommendation a with Some s => s | None => [] end in
  let risk_emoji := risk_emoji_of risk_level in
  let recommendation := truncate_recommendation recommendation in
  nl ++ u "🎯 Overall Verdict" ++ nl
  ++ box_top ++ nl
  ++ u "│ Win Probability: " ++ probability ++ u "%        │" ++ nl
  ++ u "│ Risk Level: " ++ risk_emoji ++ u " " ++ ljust 18 risk_level ++ u " │" ++ nl
  ++ box_mid ++ nl
  ++ u "│ " ++ ljust 27 recommendation ++ u " │" ++ nl
  ++ box_bot.

(** ** The progress bar *)

(** The two numbers the bar is drawn from: [(percentage, filled)]. *)
Definition progress_numbers (current total : Z) : result (Z * Z) :=
  q <- int_truediv current total ;;
  percentage <- to_int (mul_int q 100) ;;
  q' <- int_truediv current total ;;
  filled <- to_int (mul_int q' 20) ;;
  Ok (percentage, filled).

Definition progress_bar_cells (filled : Z) : str :=
  mul_str (u "█") filled ++ mul_str (u "░") (20 - filled).

Definition format_progress_bar (current total : Z) : result str :=
  pf <- progress_numbers current total ;;
  let '(percentage, filled) := pf in
  let bar := progress_bar_cells filled in
  Ok (u "[" ++ bar ++ u "] " ++ str_of_Z percentage ++ u "%").

(** ** The message composer *)

(** What a line of the message is; the composer itself only handles the
    text, the kind is kept beside it to state which panels a message
    holds. *)
Inductive block :=
  | BTitle
  | BAddress
  | BBlank
  | BOverview
  | BResultsTitle
  | BStep (i : nat)
  | BProgressLine
  | BProgressBar
  | BPredictions
  | BVerdict.

Definition line := (block * str)%type.

Variable catalog : list step_def.

(** The body of the loop over [enumerate(ANALYSIS_STEPS)]: [steps] is what
    is left of the catalog, [i] the index of its head. *)
Fixpoint steps_loop (a : analysis) (current_step total_steps : nat)
    (steps : list step_def) (i : nat) (steps_completed : list line)
    : list line :=
  match steps with
  | [] => steps_completed
  | step_info :: rest =>
      let step_key := key step_info in
      let steps_completed :=
        match step_data_of a step_key with
        | Some step_data =>
            if (i <? current_step)%nat
            then steps_completed
                 ++ [(BStep i, format_analysis_step catalog step_key step_data
                                 i total_steps)]
            else steps_completed
        | None => steps_completed
        end in
      steps_loop a current_step total_steps rest (S i) steps_completed
  end.

Definition compose_lines
    (token_address : str) (metadata : dict str) (metrics : dict (option float))
    (a : analysis) (current_step total_steps : nat) (show_complete : bool)
    : result (list line) :=
  let display_address :=
    if 20 <? len token_address then slice_to 20 token_address ++ u "..."
    else token_address in
  let lines :=
    [ (BTitle, u "🔍 Analyzing Token");
      (BAddress, u "`" ++ display_address ++ u "`");
      (BBlank, []);
      (BOverview, format_token_overview metadata metrics) ] in
  if analysis_truthy a then
    let steps_completed :=
      steps_loop a current_step total_steps catalog 0 [] in
    let lines :=
      if nonempty steps_completed
      then lines ++ [(BResultsTitle, nl ++ u "📋 Analysis Results:")]
                 ++ steps_completed
      else lines in
    lines <-
      (if (current_step <? total_steps)%nat && negb show_complete
       then
         bar <- format_progress_bar (Z.of_nat current_step)
                                    (Z.of_nat total_steps) ;;
         Ok (lines
             ++ [(BProgressLine,
                  nl ++ u "⏳ Analyzing... ("
                  ++ str_of_Z (Z.of_nat current_step) ++ u "/"
                  ++ str_of_Z (Z.of_nat total_steps) ++ u ")")]
             ++ [(BProgressBar, bar)])
       else Ok lines) ;;
    let lines :=
      if (total_steps <=? current_step)%nat || show_complete
      then match predictions_of a with
           | Some predictions =>
               lines ++ [(BPredictions, format_predictions predictions)]
           | None => lines
           end
      else lines in
    let lines :=
      if show_complete
      then match a_overallProbability a with
           | Some _ => lines ++ [(BVerdict, format_verdict a)]
           | None => lines
           end
      else lines in
    Ok lines
  else Ok lines.

Definition format_analysis_message
    (token_address : str) (metadata : dict str) (metrics : dict (option float))
    (a : analysis) (current_step total_steps : nat) (show_complete : bool)
    : result str :=
  lines <- compose_lines token_address metadata metrics a
             current_step total_steps show_complete ;;
  Ok (join nl (List.map snd lines)).

End Rendering.

(* ------------------------------------------------------------------ *)
(** * The bot: validation and the update sequencer *)

(** ** The outside world

    The handler talks to the chat transport and to the analysis API.  Its
    runs are described by the events it causes, in order; what the outside
    answers is given by an environment. *)

(** Which message an edit carries.  [KProgress i c] is the message composed
    at reveal index [i] with [show_complete = c]. *)
Inductive edit_kind :=
  | KProgress (current_step : nat) (show_complete : bool)
  | KAnalysisFailed
  | KTimeout
  | KNetworkError
  | KUnexpected.

Inductive reply_kind := KInvalidAddress | KInitial.

Inductive event :=
  | EvReply (k : reply_kind) (text : str)
  | EvPost (token_address : str)
  | EvSleep (seconds : Z)
  | EvEdit (k : edit_kind) (text : str).

(** The answer of [requests.post]. *)
Inductive api_outcome :=
  | PostRaises (e : exn)
  | PostNotOk (message : option str)
  | PostOk (metadata : dict str) (metrics : dict (option float)) (a : analysis).

(** [edit_text n text] is what the [n]-th call of [edit_text] of the run
    (counted from 0) does when given [text]: [None] when it succeeds. *)
Record env := {
  post : str -> api_outcome;
  reply_text : reply_kind -> str -> option exn;
  edit_text : nat -> str -> option exn
}.

Record world := { trace : list event; edits : nat }.

Definition prog (A : Type) := world -> result A * world.

Definition ret {A} (a : A) : prog A := fun w => (Ok a, w).
Definition raise {A} (e : exn) : prog A := fun w => (Raise e, w).

Definition pbind {A B} (c : prog A) (k : A -> prog B) : prog B :=
  fun w =>
    match c w with
    | (Ok a, w') => k a w'
    | (Raise e, w') => (Raise e, w')
    end.

(** [try: c except ...: h e] *)
Definition try_catch {A} (c : prog A) (h : exn -> prog A) : prog A :=
  fun w =>
    match c w with
    | (Ok a, w') => (Ok a, w')
    | (Raise e, w') => h e w'
    end.

Definition lift {A} (r : result A) : prog A := fun w => (r, w).

Definition emit (ev : event) : prog unit :=
  fun w => (Ok tt, {| trace := trace w ++ [ev]; edits := edits w |}).

Notation "x <~ c ;; k" := (pbind c (fun x => k))
  (at level 61, c at next level, right associativity).
Notation "c ;;; k" := (pbind c (fun _ => k))
  (at level 61, right associativity).

Section Bot.

Variable num_str : float -> str.

(** [str(e)] of an exception and [str.lower]. *)
Variable exn_str : exn -> str.
Variable lower : str -> str.

Variable catalog : list step_def.
Variable E : env.

Definition sleep (seconds : Z) : prog unit := emit (EvSleep seconds).

Definition do_reply (k : reply_kind) (text : str) : prog unit :=
  emit (EvReply k text) ;;;
  match reply_text E k text with
  | Some e => raise e
  | None => ret tt
  end.

Definition do_edit (k : edit_kind) (text : str) : prog unit :=
  fun w =>
    let w' := {| trace := trace w ++ [EvEdit k text]; edits := S (edits w) |} in
    match edit_text E (edits w) text with
    | Some e => (Raise e, w')
    | None => (Ok tt, w')
    end.

(** ** Address validation *)

Definition is_base58 (c : char) : bool :=
  ((49 <=? c) && (c <=? 57)          (* 1-9 *)
   || (65 <=? c) && (c <=? 72)       (* A-H *)
   || (74 <=? c) && (c <=? 78)       (* J-N *)
   || (80 <=? c) && (c <=? 90)       (* P-Z *)
   || (97 <=? c) && (c <=? 107)      (* a-k *)
   || (109 <=? c) && (c <=? 122))%N. (* m-z *)

Definition is_valid_solana_address (address : str) : bool :=
  if negb (nonempty address) || (len address <? 32) || (44 <? len address)
  then false
  else forallb is_base58 address.

(** ** The sequencer *)

(** The test of the inner [except TelegramError] clauses. *)
Definition not_modified (e : exn) : bool :=
  contains (u "message is not modified") (lower (exn_str e)).

(** [try: await initial_message.edit_text(<message>, ...)]
    [except TelegramError as e:]
    [    if "message is not modified" not in str(e).lower(): raise] *)
Definition guarded_edit (k : edit_kind) (message : result str) : prog unit :=
  try_catch
    (text <~ lift message ;; do_edit k text)
    (fun e =>
       match e with
       | TelegramError _ => if not_modified e then ret tt else raise e
       | _ => raise e
       end).

Definition progress_edit
    (token_address : str) (metadata : dict str) (metrics : dict (option float))
    (a : analysis) (current_step : nat) (show_complete : bool) : prog unit :=
  guarded_edit (KProgress current_step show_complete)
    (format_analysis_message num_str catalog token_address metadata metrics a
       current_step (length catalog) show_complete).

(** [for i, step_info in enumerate(ANALYSIS_STEPS, 1)]: [steps] is what is
    left of the catalog and [i] the number of its head. *)
Fixpoint step_updates
    (token_address : str) (metadata : dict str) (metrics : dict (option float))
    (a : analysis) (steps : list step_def) (i : nat) : prog unit :=
  match steps with
  | [] => ret tt
  | step_info :: rest =>
      sleep STEP_DELAY ;;;
      (match step_data_of a (key step_info) with
       | Some _ => progress_edit token_address metadata metrics a i false
       | None => ret tt
       end) ;;;
      step_updates token_address metadata metrics a rest (S i)
  end.

(** The body of the [try] once the response has arrived with success. *)
Definition reveal
    (token_address : str) (metadata : dict str) (metrics : dict (option float))
    (a : analysis) : prog unit :=
  progress_edit token_address metadata metrics a 0 false ;;;
  step_updates token_address metadata metrics a catalog 1 ;;;
  (match predictions_of a with
   | Some _ =>
       sleep STEP_DELAY ;;;
       progress_edit token_address metadata metrics a (length catalog) false
   | None => ret tt
   end) ;;;
  (match a_overallProbability a with
   | Some _ =>
       sleep PREDICTION_DELAY ;;;
       progress_edit token_address metadata metrics a (length catalog) true
   | None => ret tt
   end).

Definition analysis_failed_text (error_msg : str) : str :=
  u "❌ Analysis Failed" ++ nl ++ nl
  ++ u "Error: " ++ error_msg ++ nl ++ nl
  ++ u "Please try again later.".

Definition timeout_text : str :=
  u "⏱️ Request Timeout" ++ nl ++ nl
  ++ u "The analysis is taking longer than expected. Please try again.".

Definition network_error_text (e : exn) : str :=
  u "❌ Network Error" ++ nl ++ nl
  ++ u "Failed to connect to analysis service." ++ nl
  ++ u "Error: " ++ exn_str e ++ nl ++ nl
  ++ u "Please try again later.".

Definition unexpected_error_text (e : exn) : str :=
  u "❌ Unexpected Error" ++ nl ++ nl
  ++ u "Error: " ++ exn_str e ++ nl ++ nl
  ++ u "Please try again later.".

Definition invalid_address_text : str :=
  u "❌ Invalid Solana address format!" ++ nl ++ nl
  ++ u "Please send a valid Solana token address (32-44 characters, base58)."
  ++ nl ++ nl
  ++ u "Example: <code>6V8q5kQkzokNwSxJv8W81zcKRUWsUW4c5Bf8suqipump</code>".

Definition initial_text (token_address : str) : str :=
  u "🔍 Analyzing Token..." ++ nl
  ++ u "`" ++ token_address ++ u "`" ++ nl ++ nl
  ++ u "⏳ Connecting to Solana...".

(** The body of the outer [try]. *)
Definition request_and_reveal (token_address : str) : prog unit :=
  emit (EvPost token_address) ;;;
  match post E token_address with
  | PostRaises e => raise e
  | PostNotOk message =>
      let error_msg :=
        match message with Some m => m | None => u "Analysis failed" end in
      do_edit KAnalysisFailed (analysis_failed_text error_msg)
  | PostOk metadata metrics a => reveal token_address metadata metrics a
  end.

(** The [except] clauses of the outer [try], in their order. *)
Definition report (e : exn) : prog unit :=
  match e with
  | RequestsTimeout => do_edit KTimeout timeout_text
  | RequestException _ => do_edit KNetworkError (network_error_text e)
  | _ => do_edit KUnexpected (unexpected_error_text e)
  end.

Definition handle_token_address (text : str) : prog unit :=
  let token_address := strip text in
  if negb (is_valid_solana_address token_address)
  then do_reply KInvalidAddress invalid_address_text
  else
    do_reply KInitial (initial_text token_address) ;;;
    try_catch (request_and_reveal token_address) report.

Definition start : world := {| trace := []; edits := 0 |}.

(** The run of the handler on one inbound message. *)
Definition run (text : str) : result unit * list event :=
  let '(r, w) := handle_token_address text start in (r, trace w).

End Bot.

(* ================================================================== *)
(** * Vocabulary of the properties *)

(** ** Numbers and their rendering *)

(** A float that is zero or finite, of exponent at most [emax - prec] and
    magnitude below [2^K]. *)
Definition mag_le (K : Z) (x : float) : Prop :=
  match x with
  | S754_zero _ => True
  | S754_finite _ m e => e <= 971 /\ Zdigits2 (Z.pos m) + e <= K
  | _ => False
  end.

Definition all_digits (s : str) : Prop := forallb is_digit s = true.

Definition nearest (num den n : Z) : Prop := 2 * Z.abs (n * den - num) <= den.

Definition rounds_to (d : nat) (x : float) (n : Z) : Prop :=
  match x with
  | S754_zero _ => n = 0
  | S754_finite _ m e =>
      if 0 <=? e then n = Z.pos m * 2 ^ e * 10 ^ Z.of_nat d
      else nearest (Z.pos m * 10 ^ Z.of_nat d) (2 ^ (- e)) n
  | _ => False
  end.

Definition sign_of (x : float) : option bool :=
  match x with
  | S754_zero s | S754_infinity s | S754_finite s _ _ => Some s
  | S754_nan => None
  end.


(** ** Word wrapping *)

Definition no_space (s : str) : bool := forallb (fun c => negb (is_space c)) s.

(** A word as [split] returns it. *)
Definition word_ok (w : str) : Prop := w <> [] /\ no_space w = true.

(** The line being filled as the loop holds it, and as it is written. *)
Definition open_line (ws : list str) : str :=
  concat (List.map (fun w => w ++ u " ") ws).
Definition closed_line (ws : list str) : str := join (u " ") ws.

Definition line_sep : str := nl ++ u "   ".

(** The wrapping loop on lists of words: the lines already closed and the
    words of the line being filled. *)
Definition lines_step (st : list (list str) * list str) (word : str)
    : list (list str) * list str :=
  let '(closed, cur) := st in
  if len (open_line cur ++ word) <=? 27 then (closed, cur ++ [word])
  else (if nonempty cur then closed ++ [cur] else closed, [word]).

Definition all_lines (st : list (list str) * list str) : list (list str) :=
  let '(closed, cur) := st in
  if nonempty cur then closed ++ [cur] else closed.

Definition wrap_lines (words : list str) : list (list str) :=
  all_lines (fold_left lines_step words ([], [])).

(** A string that neither starts nor ends with a space. *)
Definition tight (s : str) : Prop :=
  (exists c r, s = c :: r /\ is_space c = false)
  /\ (exists c r, rev s = c :: r /\ is_space c = false).

Definition wrap_abs (st : list (list str) * list str) : wrap_state :=
  let '(closed, cur) := st in
  {| wrapped_reason :=
       concat (List.map (fun l => closed_line l ++ line_sep) closed);
     current_line := open_line cur |}.

(** A line fits the width, or it is one word that is wider. *)
Definition line_fits (l : list str) : Prop :=
  len (closed_line l) <= 27 \/ exists w, l = [w] /\ 27 < len w.

Definition lines_inv (st : list (list str) * list str) : Prop :=
  let '(closed, cur) := st in
  Forall (fun l => l <> [] /\ Forall word_ok l) closed
  /\ Forall word_ok cur
  /\ (cur = [] -> closed = [])
  /\ Forall line_fits closed
  /\ (cur <> [] -> line_fits cur).

(** ** The progress bar *)

(** What the progress bar is said to show: [floor(20 c / t)] cells filled
    out of 20, and [floor(100 c / t)] per cent. *)
Definition bar_expected (current total : Z) : str :=
  u "[" ++ mul_str (u "█") (20 * current / total)
  ++ mul_str (u "░") (20 - 20 * current / total)
  ++ u "] " ++ str_of_Z (100 * current / total) ++ u "%".

Definition bar_as_specified (current total : Z) : Prop :=
  progress_numbers current total
  = Ok (100 * current / total, 20 * current / total)
  /\ format_progress_bar current total = Ok (bar_expected current total)
  /\ len (progress_bar_cells (20 * current / total)) = 20.

Definition bar_check (current total : Z) : bool :=
  match progress_numbers current total, format_progress_bar current total with
  | Ok (p, f), Ok s =>
      (p =? 100 * current / total) && (f =? 20 * current / total)
      && eqb s (bar_expected current total)
      && (len (progress_bar_cells (20 * current / total)) =? 20)
  | _, _ => false
  end.

(** ** The composed message *)

Definition is_step_line (l : line) : bool :=
  match fst l with BStep _ => true | _ => false end.

(** The step panels of a message, in the order they appear. *)
Definition step_panels (lines : list line) : list line :=
  filter is_step_line lines.

Definition kinds (lines : list line) : list block := List.map fst lines.

Definition header_lines
    (token_address : str) (metadata : dict str) (metrics : dict (option float))
    : list line :=
  [ (BTitle, u "🔍 Analyzing Token");
    (BAddress,
     u "`" ++ (if 20 <? len token_address
               then slice_to 20 token_address ++ u "..."
               else token_address) ++ u "`");
    (BBlank, []);
    (BOverview, format_token_overview metadata metrics) ].

(** The panel of catalog entry [i], when it is shown at reveal index
    [current_step]: the entry has a StepResult in the payload, that
    object is not empty, and [i < current_step]. *)
Definition shown_panel (catalog : list step_def) (a : analysis)
    (current_step total_steps : nat) (entry : nat * step_def) : list line :=
  let '(i, s) := entry in
  match dict_get (a_steps a) (key s) with
  | Some d =>
      if nonempty d && (i <? current_step)%nat
      then [(BStep i, format_analysis_step catalog (key s) d i total_steps)]
      else []
  | None => []
  end.

Definition indexed {A} (start : nat) (l : list A) : list (nat * A) :=
  combine (seq start (length l)) l.

Definition shown_panels (catalog : list step_def) (a : analysis)
    (current_step total_steps : nat) : list line :=
  flat_map (shown_panel catalog a current_step total_steps) (indexed 0 catalog).

(** The same without the test for an empty object: the panels of the
    entries that have a StepResult in the payload and [i < current_step]. *)
Definition present_panel (catalog : list step_def) (a : analysis)
    (current_step total_steps : nat) (entry : nat * step_def) : list line :=
  let '(i, s) := entry in
  match dict_get (a_steps a) (key s) with
  | Some d =>
      if (i <? current_step)%nat
      then [(BStep i, format_analysis_step catalog (key s) d i total_steps)]
      else []
  | None => []
  end.

Definition present_panels (catalog : list step_def) (a : analysis)
    (current_step total_steps : nat) : list line :=
  flat_map (present_panel catalog a current_step total_steps) (indexed 0 catalog).

Definition results_lines (panels : list line) : list line :=
  if nonempty panels
  then (BResultsTitle, nl ++ u "📋 Analysis Results:") :: panels
  else [].

Definition progress_line_text (current_step total_steps : nat) : str :=
  nl ++ u "⏳ Analyzing... (" ++ str_of_Z (Z.of_nat current_step) ++ u "/"
  ++ str_of_Z (Z.of_nat total_steps) ++ u ")".

Definition progress_lines (current_step total_steps : nat) (bar : str)
    : list line :=
  [ (BProgressLine, progress_line_text current_step total_steps);
    (BProgressBar, bar) ].

Definition predictions_lines (num_str : float -> str) (a : analysis)
    (current_step total_steps : nat) (show_complete : bool) : list line :=
  if (total_steps <=? current_step)%nat || show_complete
  then match predictions_of a with
       | Some p => [(BPredictions, format_predictions num_str p)]
       | None => []
       end
  else [].

Definition verdict_lines (num_str : float -> str) (a : analysis)
    (show_complete : bool) : list line :=
  if show_complete
  then match a_overallProbability a with
       | Some _ => [(BVerdict, format_verdict num_str a)]
       | None => []
       end
  else [].

(** An analysis object without any key. *)
Definition empty_analysis : analysis :=
  {| a_steps := []; a_marketCapPredictions := None;
     a_overallProbability := None; a_riskLevel := None;
     a_recommendation := None; a_other := [] |}.

(** An analysis object whose only StepResult is an empty object. *)
Definition empty_bundles : analysis :=
  {| a_steps := [(u "bundles", [])]; a_marketCapPredictions := None;
     a_overallProbability := None; a_riskLevel := None;
     a_recommendation := None; a_other := [] |}.


(** A reason made of one word of 30 characters. *)
Definition long_word : str := repeat 97%N 30.

(** ** The update sequencer *)

Definition is_edit (ev : event) : bool :=
  match ev with EvEdit _ _ => true | _ => false end.

(** The number of [edit_text] calls among some events. *)
Definition count_edits (evs : list event) : nat :=
  length (filter is_edit evs).

(** The counter of the world agrees with its trace. *)
Definition in_sync (w : world) : Prop := edits w = count_edits (trace w).

Section SequencerVocabulary.

Variable exn_str : exn -> str.
Variable lower : str -> str.

(** The failures the sequencer lets pass: a [TelegramError] whose text
    says that the message is not modified. *)
Definition benign (e : exn) : bool :=
  match e with
  | TelegramError _ => not_modified exn_str lower e
  | _ => false
  end.

(** The transport of [E] with every benign rejection turned into a
    success. *)
Definition forgive (E : env) : env :=
  {| post := post E;
     reply_text := reply_text E;
     edit_text := fun n text =>
       match edit_text E n text with
       | Some e => if benign e then None else Some e
       | None => None
       end |}.

(** Whether the answer [o] to an edit of kind [k] makes the handler leave
    its sequence: the progress edits are guarded, the others are not. *)
Definition escalates (k : edit_kind) (o : option exn) : bool :=
  match o with
  | None => false
  | Some e =>
      match k with
      | KProgress _ _ => negb (benign e)
      | _ => true
      end
  end.

(** No edit among [evs] escalates, the first of them being call [n]. *)
Fixpoint fatal_free (E : env) (n : nat) (evs : list event) : Prop :=
  match evs with
  | [] => True
  | EvEdit k t :: rest =>
      escalates k (edit_text E n t) = false /\ fatal_free E (S n) rest
  | _ :: rest => fatal_free E n rest
  end.

(** How a part of the handler can raise [e] after the events [new]:
    without an escalating edit, or by the last event, an edit that
    escalates with [e]. *)
Definition raised_by (E : env) (n : nat) (new : list event) (e : exn) : Prop :=
  fatal_free E n new
  \/ exists new' k t,
       new = new' ++ [EvEdit k t]
       /\ fatal_free E n new'
       /\ edit_text E (n + count_edits new') t = Some e
       /\ escalates k (Some e) = true.

Definition outcome {A} (E : env) (n : nat) (new : list event) (r : result A)
    : Prop :=
  match r with
  | Ok _ => fatal_free E n new
  | Raise e => raised_by E n new e
  end.

(** What a part [c] of the handler does to the trace. *)
Definition trace_spec {A} (E : env) (c : prog A) : Prop :=
  forall w r w',
    c w = (r, w') -> in_sync w ->
    exists new,
      trace w' = trace w ++ new /\ in_sync w' /\ outcome E (edits w) new r.

End SequencerVocabulary.

(** Every run of [c] keeps [P] true of all events of the trace. *)
Definition preserves {A} (P : event -> Prop) (c : prog A) : Prop :=
  forall w r w', c w = (r, w') -> Forall P (trace w) -> Forall P (trace w').

(** What a progress edit of the run on [token] carries: the message
    composed from the response at the reveal index of the edit, an index
    within the catalog, completion being forced only at its end. *)
Definition progress_edit_ok (num_str : float -> str) (catalog : list step_def)
    (E : env) (token : str) (ev : event) : Prop :=
  match ev with
  | EvEdit (KProgress cs sc) text =>
      match post E token with
      | PostOk metadata metrics a =>
          format_analysis_message num_str catalog token metadata metrics a
            cs (length catalog) sc = Ok text
          /\ (cs <= length catalog)%nat
          /\ (sc = true -> cs = length catalog)
      | _ => False
      end
  | _ => True
  end.

(** ** Inputs of the examples *)

(** Instances of the three functions the model leaves open, for the
    examples: the digits of the nearest integer, the message an exception
    carries, and lower case on the ASCII letters. *)
Definition example_num_str : float -> str := format_fixed 0.

Definition example_exn_str (e : exn) : str :=
  match e with
  | TelegramError m | RequestException m | OtherException m => m
  | _ => []
  end.

Definition ascii_lower (s : str) : str :=
  List.map (fun c => if ((65 <=? c) && (c <=? 90))%N then (c + 32)%N else c) s.

Definition example_address : str :=
  u "6V8q5kQkzokNwSxJv8W81zcKRUWsUW4c5Bf8suqipump".

Definition example_step (value status reason : string) : step_result :=
  [ (u "value", u value); (u "status", u status); (u "reason", u reason) ].

Definition example_analysis : analysis :=
  {| a_steps :=
       [ (u "bundles", example_step "None found" "safe" "No bundled buys seen");
         (u "devHistory", example_step "2 rugs" "danger" "Two earlier tokens of this wallet were abandoned");
         (u "topHolders", example_step "41%" "warning" "Top ten wallets hold 41%") ];
     a_marketCapPredictions :=
       Some [ (u "conservative",
               {| sc_mcap := Some (of_Z 3000000); sc_multiplier := Some (u "1.2x");
                  sc_probability := Some (of_Z 60); sc_timeframe := Some (u "1 week") |}) ];
     a_overallProbability := Some (of_Z 72);
     a_riskLevel := Some (u "High");
     a_recommendation := Some (u "Avoid");
     a_other := [] |}.

Definition example_metadata : dict str :=
  [ (u "name", u "Cope"); (u "symbol", u "COPE") ].

Definition example_metrics : dict (option float) :=
  [ (u "marketCap", Some (of_Z 2500000)); (u "volume24h", Some (of_Z 500)) ].

(** A transport and API for the examples: the API answers with the example
    payload, the replies succeed, and [failures] tells which calls of
    [edit_text] are rejected. *)
Definition example_env (failures : nat -> option exn) : env :=
  {| post := fun _ => PostOk example_metadata example_metrics example_analysis;
     reply_text := fun _ _ => None;
     edit_text := fun n _ => failures n |}.

Definition no_failure : nat -> option exn := fun _ => None.

(** The second edit is rejected as unchanged, the third for flooding. *)
Definition two_failures (n : nat) : option exn :=
  match n with
  | 1%nat => Some (TelegramError (u "Bad Request: Message is not modified"))
  | 2%nat => Some (TelegramError (u "Flood control exceeded"))
  | _ => None
  end.

Definition edit_text_of (ev : option event) : str :=
  match ev with Some (EvEdit _ t) => t | _ => [] end.

(** The text of the fifth event of the run without failures, its second
    edit; and the text of the seventh event of the run with the two
    failures, its third edit. *)
Definition second_message : str :=
  edit_text_of
    (nth_error (snd (run example_num_str example_exn_str ascii_lower
                       ANALYSIS_STEPS (example_env no_failure)
                       example_address)) 4).

Definition third_message : str :=
  edit_text_of
    (nth_error (snd (run example_num_str example_exn_str ascii_lower
                       ANALYSIS_STEPS (example_env two_failures)
                       example_address)) 6).

(** ** The plan of a run *)

(** The text of the message composed at a reveal index: the composer
    returns for every input (lemma [format_message_at]), the second branch
    is never taken. *)
Definition message_at (num_str : float -> str) (catalog : list step_def)
    (token : str) (metadata : dict str) (metrics : dict (option float))
    (a : analysis) (current_step : nat) (show_complete : bool) : str :=
  match format_analysis_message num_str catalog token metadata metrics a
          current_step (length catalog) show_complete with
  | Ok text => text
  | Raise _ => []
  end.

Section Plan.

Variable num_str : float -> str.
Variable catalog : list step_def.
Variable token : str.
Variable metadata : dict str.
Variable metrics : dict (option float).
Variable a : analysis.

Definition progress_event (current_step : nat) (show_complete : bool) : event :=
  EvEdit (KProgress current_step show_complete)
    (message_at num_str catalog token metadata metrics a
       current_step show_complete).

(** The events of the loop over the steps: a delay for every step, an edit
    for the steps that have a StepResult. *)
Fixpoint step_plan (steps : list step_def) (i : nat) : list event :=
  match steps with
  | [] => []
  | s :: rest =>
      EvSleep STEP_DELAY
      :: match step_data_of a (key s) with
         | Some _ => [progress_event i false]
         | None => []
         end
      ++ step_plan rest (S i)
  end.

Definition predictions_plan : list event :=
  match predictions_of a with
  | Some _ => [EvSleep STEP_DELAY; progress_event (length catalog) false]
  | None => []
  end.

Definition verdict_plan : list event :=
  match a_overallProbability a with
  | Some _ => [EvSleep PREDICTION_DELAY; progress_event (length catalog) true]
  | None => []
  end.

(** The events of a sequence that no failure interrupts. *)
Definition reveal_plan : list event :=
  progress_event 0 false :: step_plan catalog 1
  ++ predictions_plan ++ verdict_plan.

End Plan.

(** The state of the run after [new] more events. *)
Definition world_after (w : world) (new : list event) : world :=
  {| trace := trace w ++ new; edits := (edits w + count_edits new)%nat |}.

Section PlanVocabulary.

Variable num_str : float -> str.
Variable exn_str : exn -> str.
Variable lower : str -> str.
Variable catalog : list step_def.
Variable E : env.

(** Every rejection of an edit by the transport is a benign one. *)
Definition passing : Prop :=
  forall n text,
    match edit_text E n text with
    | Some e => benign exn_str lower e = true
    | None => True
    end.

(** What the transport lets through of a plan of guarded edits, its first
    edit being call [n]: the plan is cut after the first edit that is
    rejected for another reason than an unchanged message. *)
Fixpoint follow (n : nat) (plan : list event) : result unit * list event :=
  match plan with
  | [] => (Ok tt, [])
  | EvEdit k t :: rest =>
      match edit_text E n t with
      | Some e =>
          if benign exn_str lower e
          then let '(r, evs) := follow (S n) rest in (r, EvEdit k t :: evs)
          else (Raise e, [EvEdit k t])
      | None => let '(r, evs) := follow (S n) rest in (r, EvEdit k t :: evs)
      end
  | ev :: rest => let '(r, evs) := follow n rest in (r, ev :: evs)
  end.

(** A part of the handler that plays a plan. *)
Definition follows (c : prog unit) (plan : list event) : Prop :=
  forall w,
    c w = (fst (follow (edits w) plan),
           world_after w (snd (follow (edits w) plan))).

(** The edit by which the handler reports the exception [e]. *)
Definition report_edit (e : exn) : event :=
  match e with
  | RequestsTimeout => EvEdit KTimeout timeout_text
  | RequestException _ => EvEdit KNetworkError (network_error_text exn_str e)
  | _ => EvEdit KUnexpected (unexpected_error_text exn_str e)
  end.

(** The answer of the transport to an unguarded edit, call [n]. *)
Definition edit_answer (n : nat) (ev : event) : result unit :=
  match ev with
  | EvEdit _ t =>
      match edit_text E n t with Some e => Raise e | None => Ok tt end
  | _ => Ok tt
  end.

(** The edit after an error status of the API. *)
Definition failed_edit (message : option str) : event :=
  EvEdit KAnalysisFailed
    (analysis_failed_text
       (match message with Some m => m | None => u "Analysis failed" end)).

(** The events between the request and the report of a failure, with the
    exception that ends them if there is one. *)
Definition attempt (token : str) : result unit * list event :=
  match post E token with
  | PostRaises e => (Raise e, [])
  | PostNotOk message =>
      (edit_answer 0 (failed_edit message), [failed_edit message])
  | PostOk metadata metrics a =>
      follow 0 (reveal_plan num_str catalog token metadata metrics a)
  end.

(** The answer of the transport to a reply. *)
Definition reply_answer (k : reply_kind) (text : str) : result unit :=
  match reply_text E k text with Some e => Raise e | None => Ok tt end.

(** The run of the handler described by its plan. *)
Definition planned_run (text : str) : result unit * list event :=
  let token := strip text in
  if is_valid_solana_address token then
    let first := EvReply KInitial (initial_text token) in
    match reply_text E KInitial (initial_text token) with
    | Some e => (Raise e, [first])
    | None =>
        match attempt token with
        | (Ok _, evs) => (Ok tt, first :: EvPost token :: evs)
        | (Raise e, evs) =>
            (edit_answer (count_edits evs) (report_edit e),
             first :: EvPost token :: evs ++ [report_edit e])
        end
    end
  else (reply_answer KInvalidAddress invalid_address_text,
        [EvReply KInvalidAddress invalid_address_text]).

End PlanVocabulary.

(** ** What a run costs

    The seconds a run waits, the reveal indices of its progress edits, and
    its requests. *)
Definition seconds_of (ev : event) : Z :=
  match ev with EvSleep s => s | _ => 0 end.

Definition total_delay (evs : list event) : Z :=
  fold_right (fun ev acc => seconds_of ev + acc) 0 evs.

Definition reveal_index_of (ev : event) : list nat :=
  match ev with EvEdit (KProgress i _) _ => [i] | _ => [] end.

Definition reveal_indices (evs : list event) : list nat :=
  flat_map reveal_index_of evs.

Definition is_post (ev : event) : bool :=
  match ev with EvPost _ => true | _ => false end.

Definition is_reply (ev : event) : bool :=
  match ev with EvReply _ _ => true | _ => false end.

Definition has_result (a : analysis) (s : step_def) : bool :=
  match step_data_of a (key s) with Some _ => true | None => false end.

(** The number of steps of [steps] that have a StepResult. *)
Definition steps_with_result (a : analysis) (steps : list step_def) : nat :=
  length (filter (has_result a) steps).

Definition has_predictions (a : analysis) : bool :=
  match predictions_of a with Some _ => true | None => false end.

Definition has_verdict (a : analysis) : bool :=
  match a_overallProbability a with Some _ => true | None => false end.

(** The delays of some events are not negative. *)
Definition waits (evs : list event) : Prop :=
  Forall (fun ev => 0 <= seconds_of ev) evs.

(** An event that is neither a request nor a reply. *)
Definition silent (ev : event) : Prop :=
  is_post ev = false /\ is_reply ev = false.

(** ** Addresses *)

(** ASCII letters and digits. *)
Definition is_ascii_alnum (c : char) : bool :=
  ((48 <=? c) && (c <=? 57) || (65 <=? c) && (c <=? 90)
   || (97 <=? c) && (c <=? 122))%N.

(** The four characters the address alphabet leaves out. *)
Definition ambiguous : str := u "0OIl".

(** The initial reply to [token] is delivered. *)
Definition reply_passes (E : env) (token : str) : bool :=
  match reply_text E KInitial (initial_text token) with
  | Some _ => false
  | None => true
  end.

(** A transport that accepts everything, in front of an API that always
    gives the answer [o]. *)
Definition api_env (o : api_outcome) : env :=
  {| post := fun _ => o;
     reply_text := fun _ _ => None;
     edit_text := fun _ _ => None |}.

(** An analysis object with a StepResult for the last step of the
    catalog, and predictions. *)
Definition late_analysis : analysis :=
  {| a_steps :=
       [ (u "socials", example_step "Active" "safe" "Accounts post daily") ];
     a_marketCapPredictions :=
       Some [ (u "moderate",
               {| sc_mcap := Some (of_Z 40000); sc_multiplier := Some (u "2x");
                  sc_probability := Some (of_Z 30);
                  sc_timeframe := Some (u "1 month") |}) ];
     a_overallProbability := None;
     a_riskLevel := None;
     a_recommendation := None;
     a_other := [] |}.

(** ** The layout of a message *)

(** The catalog indices of the panels shown at a reveal index. *)
Definition shown_entry (a : analysis) (current_step : nat)
    (entry : nat * step_def) : bool :=
  has_result a (snd entry) && (fst entry <? current_step)%nat.

Definition shown_indices (catalog : list step_def) (a : analysis)
    (current_step : nat) : list nat :=
  List.map fst (filter (shown_entry a current_step) (indexed 0 catalog)).

Definition shows_progress (a : analysis) (current_step total_steps : nat)
    (show_complete : bool) : bool :=
  analysis_truthy a && (current_step <? total_steps)%nat && negb show_complete.

Definition shows_predictions (a : analysis) (current_step total_steps : nat)
    (show_complete : bool) : bool :=
  analysis_truthy a && ((total_steps <=? current_step)%nat || show_complete)
  && has_predictions a.

Definition shows_verdict (a : analysis) (show_complete : bool) : bool :=
  analysis_truthy a && show_complete && has_verdict a.

(** The kinds of the lines of a message, in their order. *)
Definition layout (catalog : list step_def) (a : analysis)
    (current_step total_steps : nat) (show_complete : bool) : list block :=
  [BTitle; BAddress; BBlank; BOverview]
  ++ (if analysis_truthy a
      then match shown_indices catalog a current_step with
           | [] => []
           | shown => BResultsTitle :: List.map BStep shown
           end
      else [])
  ++ (if shows_progress a current_step total_steps show_complete
      then [BProgressLine; BProgressBar] else [])
  ++ (if shows_predictions a current_step total_steps show_complete
      then [BPredictions] else [])
  ++ (if shows_verdict a show_complete then [BVerdict] else []).

(** ** Wrapping, continued *)

Definition visible (s : str) : str := filter (fun c => negb (is_space c)) s.

(** Every break of the lines [ls] was forced: the first word of a line did
    not fit at the end of the line before it. *)
Fixpoint forced (ls : list (list str)) : Prop :=
  match ls with
  | l1 :: (l2 :: _) as rest =>
      match l2 with
      | w :: _ => 27 < len (closed_line l1) + 1 + len w
      | [] => False
      end
      /\ forced rest
  | _ => True
  end.

(** ** Further inputs of the examples *)

(** A transport whose replies are all rejected. *)
Definition blocked_env : env :=
  {| post := fun _ => PostOk example_metadata example_metrics example_analysis;
     reply_text := fun _ _ =>
       Some (TelegramError (u "Forbidden: bot was blocked by the user"));
     edit_text := fun _ _ => None |}.

(** ** Numbers, continued *)

(** A float between 0 and 1, or a zero. *)
Definition le_one (x : float) : Prop :=
  match x with
  | S754_zero _ => True
  | S754_finite s m e => s = false /\ e <= 0 /\ Z.pos m <= 2 ^ (- e)
  | _ => False
  end.

(** A shift record without round or sticky bit. *)
Definition clean (k : Z) : shr_record :=
  {| shr_m := k; shr_r := false; shr_s := false |}.

(* ================================================================== *)
(** * Properties *)

(* ------------------------------------------------------------------ *)
(** ** Binary64 arithmetic: results stay finite

    [Zdigits2 m + e] is the binary magnitude of [m * 2^e].  The lemmas of
    this section bound the magnitude of what rounding, division and
    multiplication return, which is what shows that a quotient or product
    is a finite float and not an infinity or a NaN. *)

Section FloatFacts.

Lemma digits2_pos_size p : digits2_pos p = Pos.size p.
Proof. induction p; simpl; congruence. Qed.

Lemma Zdigits2_nonneg m : 0 <= Zdigits2 m.
Proof. destruct m; simpl; lia. Qed.

Lemma Zdigits2_upper m : 0 <= m -> m < 2 ^ Zdigits2 m.
Proof.
  destruct m as [|p|p]; simpl; intros H; try lia.
  rewrite digits2_pos_size.
  pose proof (Pos.size_gt p) as G.
  apply Pos2Z.pos_lt_pos in G. rewrite Pos2Z.inj_pow in G. exact G.
Qed.

Lemma Zdigits2_lower m : 0 < m -> 2 ^ (Zdigits2 m - 1) <= m.
Proof.
  destruct m as [|p|p]; intros H; try lia.
  unfold Zdigits2. rewrite digits2_pos_size.
  pose proof (Pos.size_le p) as G.
  apply Pos2Z.pos_le_pos in G. rewrite Pos2Z.inj_pow in G.
  remember (Z.pos (Pos.size p) - 1) as k eqn:Ek.
  replace (Z.pos (Pos.size p)) with (Z.succ k) in G by lia.
  rewrite Z.pow_succ_r in G by lia.
  change (Z.pos p~0) with (2 * Z.pos p) in G. lia.
Qed.

Lemma Zdigits2_le m k : 0 <= m -> 0 <= k -> m < 2 ^ k -> Zdigits2 m <= k.
Proof.
  intros Hm Hk Hlt.
  destruct (Z.eq_dec m 0) as [->|Hne]; [simpl; lia|].
  destruct (Z_le_gt_dec (Zdigits2 m) k) as [|Hgt]; [assumption|exfalso].
  pose proof (Zdigits2_lower m ltac:(lia)) as L.
  assert (2 ^ k <= 2 ^ (Zdigits2 m - 1)) by (apply Z.pow_le_mono_r; lia).
  lia.
Qed.

Lemma Zdigits2_mono a b : 0 <= a <= b -> Zdigits2 a <= Zdigits2 b.
Proof.
  intros H. apply Zdigits2_le; try lia. apply Zdigits2_nonneg.
  pose proof (Zdigits2_upper b ltac:(lia)). lia.
Qed.

Lemma Zdigits2_succ m : 0 <= m -> Zdigits2 (m + 1) <= Zdigits2 m + 1.
Proof.
  intros H. apply Zdigits2_le; try lia.
  pose proof (Zdigits2_nonneg m); lia.
  pose proof (Zdigits2_upper m H).
  rewrite Z.pow_add_r by (pose proof (Zdigits2_nonneg m); lia).
  pose proof (Zdigits2_nonneg m).
  assert (0 < 2 ^ Zdigits2 m) by (apply Z.pow_pos_nonneg; lia).
  lia.
Qed.

Lemma Zdigits2_div_pow2 m n :
  0 <= m -> 0 <= n -> Zdigits2 (m / 2 ^ n) <= Z.max 0 (Zdigits2 m - n).
Proof.
  intros Hm Hn.
  pose proof (Zdigits2_upper m Hm) as U.
  pose proof (Zdigits2_nonneg m) as N.
  assert (P : 0 < 2 ^ n) by (apply Z.pow_pos_nonneg; lia).
  apply Zdigits2_le; try lia.
  - apply Z.div_pos; lia.
  - apply Z.div_lt_upper_bound; try lia.
    destruct (Z_le_gt_dec n (Zdigits2 m)).
    + rewrite Z.max_r by lia. rewrite <- Z.pow_add_r by lia.
      replace (n + (Zdigits2 m - n)) with (Zdigits2 m) by lia. exact U.
    + rewrite Z.max_l by lia. rewrite Z.pow_0_r.
      assert (2 ^ Zdigits2 m <= 2 ^ n) by (apply Z.pow_le_mono_r; lia). lia.
Qed.

Lemma Zdigits2_mul a b :
  0 <= a -> 0 <= b -> Zdigits2 (a * b) <= Zdigits2 a + Zdigits2 b.
Proof.
  intros Ha Hb.
  pose proof (Zdigits2_upper a Ha). pose proof (Zdigits2_upper b Hb).
  pose proof (Zdigits2_nonneg a). pose proof (Zdigits2_nonneg b).
  apply Zdigits2_le; try nia.
  rewrite Z.pow_add_r by lia. nia.
Qed.

(** [iter_pos shr_1 p] drops the [p] low bits of the mantissa. *)
Lemma shr_1_m r : 0 <= shr_m r -> shr_m (shr_1 r) = shr_m r / 2.
Proof.
  destruct r as [m rr s]; simpl. intros H.
  destruct m as [|[p|p|]|p]; simpl; try lia; try reflexivity.
  - change (Z.pos p~1) with (2 * Z.pos p + 1).
    apply Z.div_unique with (r := 1); lia.
  - change (Z.pos p~0) with (2 * Z.pos p).
    apply Z.div_unique with (r := 0); lia.
Qed.

Lemma iter_shr_1_m p : forall r,
  0 <= shr_m r -> shr_m (iter_pos shr_1 p r) = shr_m r / 2 ^ Z.pos p.
Proof.
  induction p as [p IH|p IH|]; intros r H; simpl iter_pos.
  - assert (H1 : 0 <= shr_m (shr_1 r)).
    { rewrite shr_1_m by assumption. apply Z.div_pos; lia. }
    assert (H2 : 0 <= shr_m (iter_pos shr_1 p (shr_1 r))).
    { rewrite IH by assumption. apply Z.div_pos; [assumption|]. apply Z.pow_pos_nonneg; lia. }
    rewrite IH by assumption. rewrite IH by assumption. rewrite shr_1_m by assumption.
    assert (P : 0 < 2 ^ Z.pos p) by (apply Z.pow_pos_nonneg; lia).
    rewrite !Z.div_div by lia.
    f_equal. change (Z.pos p~1) with (2 * Z.pos p + 1).
    rewrite Z.pow_add_r, Z.pow_mul_r by lia.
    change (2 ^ 2) with 4. change (2 ^ 1) with 2.
    replace (4 ^ Z.pos p) with (2 ^ Z.pos p * 2 ^ Z.pos p).
    lia. rewrite <- Z.pow_mul_l. reflexivity.
  - assert (H2 : 0 <= shr_m (iter_pos shr_1 p r)).
    { rewrite IH by assumption. apply Z.div_pos; [assumption|]. apply Z.pow_pos_nonneg; lia. }
    rewrite IH by assumption. rewrite IH by assumption.
    assert (P : 0 < 2 ^ Z.pos p) by (apply Z.pow_pos_nonneg; lia).
    rewrite !Z.div_div by lia.
    f_equal. change (Z.pos p~0) with (2 * Z.pos p).
    rewrite Z.pow_mul_r by lia. change (2 ^ 2) with 4.
    rewrite <- Z.pow_mul_l. reflexivity.
  - rewrite shr_1_m by assumption. reflexivity.
Qed.

Lemma fexp_eq e : fexp prec emax e = Z.max (e - 53) (-1074).
Proof. reflexivity. Qed.

Lemma shr_record_of_loc_m m l : shr_m (shr_record_of_loc m l) = m.
Proof. destruct l as [|[]]; reflexivity. Qed.

Lemma shr_fexp_bounds m e l :
  0 <= m ->
  forall r e', shr_fexp prec emax m e l = (r, e') ->
  0 <= shr_m r
  /\ e' = Z.max e (fexp prec emax (Zdigits2 m + e))
  /\ Zdigits2 (shr_m r) + e' <= Z.max (Zdigits2 m + e) e'.
Proof.
  intros Hm r e'. unfold shr_fexp, shr.
  set (f := fexp prec emax (Zdigits2 m + e)).
  destruct (f - e) as [|p|p] eqn:En; intros [= <- <-].
  - rewrite shr_record_of_loc_m. lia.
  - rewrite iter_shr_1_m by (rewrite shr_record_of_loc_m; assumption).
    rewrite shr_record_of_loc_m.
    pose proof (Zdigits2_div_pow2 m (Z.pos p) Hm ltac:(lia)).
    split; [apply Z.div_pos; [assumption | apply Z.pow_pos_nonneg; lia] | lia].
  - rewrite shr_record_of_loc_m. lia.
Qed.

Lemma round_nearest_even_bounds m l :
  m <= round_nearest_even m l <= m + 1.
Proof.
  destruct l as [|[]]; simpl; try lia. destruct (Z.even m); lia.
Qed.

Lemma binary_round_aux_mag sx mx ex lx :
  0 <= mx -> ex <= 971 -> Zdigits2 mx + ex <= 1023 ->
  mag_le (Z.max (Zdigits2 mx + ex) (-1074) + 1)
         (binary_round_aux prec emax sx mx ex lx).
Proof.
  intros Hm He HD. unfold binary_round_aux.
  destruct (shr_fexp prec emax mx ex lx) as [r1 e1] eqn:E1.
  destruct (shr_fexp_bounds _ _ _ Hm _ _ E1) as (P1 & Q1 & R1).
  set (m1 := round_nearest_even (shr_m r1) (loc_of_shr_record r1)).
  pose proof (round_nearest_even_bounds (shr_m r1) (loc_of_shr_record r1)) as B1.
  fold m1 in B1.
  destruct (shr_fexp prec emax m1 e1 loc_Exact) as [r2 e2] eqn:E2.
  assert (Hm1 : 0 <= m1) by lia.
  destruct (shr_fexp_bounds _ _ _ Hm1 _ _ E2) as (P2 & Q2 & R2).
  assert (D1 : Zdigits2 m1 <= Zdigits2 (shr_m r1) + 1).
  { transitivity (Zdigits2 (shr_m r1 + 1)).
    - apply Zdigits2_mono; lia.
    - apply Zdigits2_succ; assumption. }
  rewrite fexp_eq in Q1, Q2.
  pose proof (Zdigits2_nonneg mx) as N0.
  destruct (shr_m r2) as [|p|p] eqn:Em; simpl; [exact I| |lia].
  clearbody m1.
  destruct (e2 <=? 971) eqn:Ele.
  - apply Z.leb_le in Ele. cbn [mag_le].
    change (Z.pos (digits2_pos p)) with (Zdigits2 (Z.pos p)). lia.
  - apply Z.leb_gt in Ele. exfalso. lia.
Qed.

Lemma mag_le_mono K K' x : K <= K' -> mag_le K x -> mag_le K' x.
Proof. destruct x; simpl; auto; lia. Qed.

Lemma mag_le_finite K x : mag_le K x -> is_finite x = true.
Proof. destruct x; simpl; intuition. Qed.

Lemma SFdiv_core_bounds p1 e1 p2 e2 q e' l :
  SFdiv_core_binary prec emax (Z.pos p1) e1 (Z.pos p2) e2 = (q, e', l) ->
  let D := Zdigits2 (Z.pos p1) + e1 - (Zdigits2 (Z.pos p2) + e2) in
  0 <= q /\ e' <= fexp prec emax D /\ Zdigits2 q + e' <= Z.max (D + 1) e'.
Proof.
  unfold SFdiv_core_binary.
  set (d1 := Zdigits2 (Z.pos p1)). set (d2 := Zdigits2 (Z.pos p2)).
  set (ez := Z.min (fexp prec emax (d1 + e1 - (d2 + e2))) (e1 - e2)).
  set (s := e1 - e2 - ez).
  assert (Hs : 0 <= s) by (unfold s, ez; lia).
  set (m' := match s with Z.pos _ => Z.shiftl (Z.pos p1) s | 0 => Z.pos p1 | Z.neg _ => 0 end).
  assert (Hm' : m' = Z.pos p1 * 2 ^ s).
  { unfold m'. destruct s as [|ps|ps] eqn:Es; try lia.
    rewrite Z.shiftl_mul_pow2 by lia. reflexivity. }
  clearbody m'.
  pose proof (Z_div_mod m' (Z.pos p2) ltac:(lia)) as DM.
  destruct (Z.div_eucl m' (Z.pos p2)) as [q0 r0].
  intros [= <- <- <-]. cbv zeta.
  destruct DM as [Eq Hr].
  pose proof (Zdigits2_upper (Z.pos p1) ltac:(lia)) as U1. fold d1 in U1.
  pose proof (Zdigits2_lower (Z.pos p2) ltac:(lia)) as L2. fold d2 in L2.
  assert (Hd1 : 0 < d1) by (unfold d1; simpl; lia).
  assert (Hd2 : 0 < d2) by (unfold d2; simpl; lia).
  assert (P2s : 0 < 2 ^ s) by (apply Z.pow_pos_nonneg; lia).
  assert (PA : 0 < 2 ^ (d2 - 1)) by (apply Z.pow_pos_nonneg; lia).
  assert (Hq : 0 <= q0) by nia.
  assert (HB : m' < 2 ^ (d1 + s)).
  { rewrite Z.pow_add_r by lia. nia. }
  assert (HqA : q0 * 2 ^ (d2 - 1) < 2 ^ (d1 + s)) by nia.
  split; [assumption|]. split; [unfold ez; lia|].
  assert (Hdig : Zdigits2 q0 <= Z.max 0 (d1 + s - d2 + 1)).
  { destruct (Z_le_gt_dec 0 (d1 + s - d2 + 1)).
    - rewrite Z.max_r by lia. apply Zdigits2_le; try lia.
      replace (d1 + s) with ((d1 + s - d2 + 1) + (d2 - 1)) in HqA by lia.
      rewrite Z.pow_add_r in HqA by lia.
      assert (0 < 2 ^ (d1 + s - d2 + 1)) by (apply Z.pow_pos_nonneg; lia).
      nia.
    - rewrite Z.max_l by lia.
      assert (2 ^ (d1 + s) <= 2 ^ (d2 - 1)) by (apply Z.pow_le_mono_r; lia).
      assert (q0 = 0) by nia. subst q0. simpl. lia. }
  unfold s in Hdig. lia.
Qed.

Lemma SFdiv_mag sx p1 e1 sy p2 e2 :
  let D := Zdigits2 (Z.pos p1) + e1 - (Zdigits2 (Z.pos p2) + e2) in
  D <= 1022 ->
  mag_le (Z.max (D + 1) (-1074) + 1)
         (SFdiv prec emax (S754_finite sx p1 e1) (S754_finite sy p2 e2)).
Proof.
  intros D HD. unfold SFdiv.
  destruct (SFdiv_core_binary prec emax (Z.pos p1) e1 (Z.pos p2) e2)
    as [[q ez] l] eqn:Ec.
  destruct (SFdiv_core_bounds _ _ _ _ _ _ _ Ec) as (Hq & He & Hd).
  fold D in He, Hd. rewrite fexp_eq in He.
  eapply mag_le_mono; [|apply binary_round_aux_mag]; lia.
Qed.

Lemma SFmul_mag sx mx ex sy my ey :
  ex + ey <= 971 ->
  Zdigits2 (Z.pos mx) + ex + (Zdigits2 (Z.pos my) + ey) <= 1023 ->
  mag_le (Z.max (Zdigits2 (Z.pos mx) + ex + (Zdigits2 (Z.pos my) + ey)) (-1074) + 1)
         (SFmul prec emax (S754_finite sx mx ex) (S754_finite sy my ey)).
Proof.
  intros He HD. unfold SFmul.
  pose proof (Zdigits2_mul (Z.pos mx) (Z.pos my) ltac:(lia) ltac:(lia)) as M.
  rewrite <- Pos2Z.inj_mul in M.
  eapply mag_le_mono; [|apply binary_round_aux_mag]; lia.
Qed.

Lemma to_int_finite x : is_finite x = true -> exists z, to_int x = Ok z.
Proof. destruct x; simpl; try discriminate; eauto. Qed.

Lemma int_truediv_le a b :
  0 <= a <= b -> 0 < b ->
  exists q, int_truediv a b = Ok q /\ mag_le 2 q.
Proof.
  intros Ha Hb. unfold int_truediv.
  destruct (Z.eqb_spec b 0) as [|_]; [lia|].
  destruct b as [|pb|pb]; try lia.
  destruct a as [|pa|pa]; try lia.
  - simpl. eexists; split; [reflexivity|exact I].
  - cbn [Z2SF].
    pose proof (SFdiv_mag false pa 0 false pb 0) as M. cbv zeta in M.
    pose proof (Zdigits2_mono (Z.pos pa) (Z.pos pb) ltac:(lia)) as Mo.
    assert (M' : mag_le 2 (SFdiv prec emax (S754_finite false pa 0) (S754_finite false pb 0))).
    { eapply mag_le_mono; [|apply M]; lia. }
    destruct (SFdiv prec emax (S754_finite false pa 0) (S754_finite false pb 0)) eqn:Eq;
      simpl in M'; try contradiction; eexists; split; try reflexivity; simpl; auto.
Qed.

Lemma mul_int_finite q n m e :
  of_Z n = S754_finite false m e ->
  e <= 0 -> Zdigits2 (Z.pos m) + e <= 64 ->
  mag_le 2 q -> is_finite (mul_int q n) = true.
Proof.
  intros En He Hd Hq. unfold mul_int, fmul. rewrite En.
  destruct q as [s| | |s mq eq]; cbn [mag_le] in Hq; try contradiction.
  - reflexivity.
  - destruct Hq as [Hq1 Hq2]. eapply mag_le_finite. apply SFmul_mag; lia.
Qed.

End FloatFacts.

(* ------------------------------------------------------------------ *)
(** ** Decimal digits and fixed-point rendering *)

Section FormatFacts.

Lemma digits_value_snoc s c :
  digits_value (s ++ [c]) = digits_value s * 10 + (Z.of_N c - 48).
Proof. unfold digits_value. rewrite fold_left_app. reflexivity. Qed.

Lemma digits_fuel_value f : forall n,
  (n < 2 ^ N.of_nat f)%N -> digits_value (digits_fuel f n) = Z.of_N n.
Proof.
  induction f as [|f IH]; intros n Hn.
  - change (N.of_nat 0) with 0%N in Hn. rewrite N.pow_0_r in Hn.
    assert (n = 0%N) by lia. subst. reflexivity.
  - cbn [digits_fuel]. destruct (N.ltb_spec n 10) as [Hlt|Hge].
    + unfold digits_value. cbn [fold_left]. lia.
    + rewrite digits_value_snoc, IH.
      * rewrite N2Z.inj_add, N2Z.inj_mod, N2Z.inj_div.
        change (Z.of_N 10) with 10. change (Z.of_N 48) with 48.
        pose proof (Z.div_mod (Z.of_N n) 10 ltac:(lia)). lia.
      * rewrite Nat2N.inj_succ, N.pow_succ_r' in Hn.
        apply N.Div0.div_lt_upper_bound; lia.
Qed.

Lemma is_digit_offset (k : N) : (k < 10)%N -> is_digit (48 + k)%N = true.
Proof.
  intros H. unfold is_digit. apply andb_true_intro.
  split; apply N.leb_le; lia.
Qed.

Lemma digits_fuel_all_digits f : forall n, all_digits (digits_fuel f n).
Proof.
  unfold all_digits.
  induction f as [|f IH]; intros n; [reflexivity|].
  cbn [digits_fuel]. destruct (N.ltb_spec n 10) as [Hlt|Hge].
  - cbn [forallb]. rewrite is_digit_offset by assumption. reflexivity.
  - rewrite forallb_app, IH. cbn [forallb].
    rewrite is_digit_offset by (apply N.mod_lt; lia). reflexivity.
Qed.

Lemma digits_fuel_nonempty f n : digits_fuel (S f) n <> [].
Proof.
  cbn [digits_fuel]. destruct (n <? 10)%N; [discriminate|].
  intros H. apply app_eq_nil in H. destruct H; discriminate.
Qed.

Lemma decimal_value n : digits_value (decimal n) = Z.of_N n.
Proof.
  unfold decimal. apply digits_fuel_value.
  rewrite Nat2N.inj_succ, N2Nat.id.
  destruct n as [|p]; [reflexivity|].
  apply N.log2_spec. lia.
Qed.

Lemma decimal_all_digits n : all_digits (decimal n).
Proof. apply digits_fuel_all_digits. Qed.

Lemma decimal_nonempty n : decimal n <> [].
Proof. apply digits_fuel_nonempty. Qed.

Lemma frac_digits_length d : forall k, length (frac_digits d k) = d.
Proof.
  induction d as [|d IH]; intros k; [reflexivity|].
  cbn [frac_digits]. rewrite length_app, IH. simpl. lia.
Qed.

Lemma frac_digits_all_digits d : forall k, all_digits (frac_digits d k).
Proof.
  unfold all_digits.
  induction d as [|d IH]; intros k; [reflexivity|].
  cbn [frac_digits]. rewrite forallb_app, IH. cbn [forallb].
  pose proof (Z.mod_pos_bound k 10 ltac:(lia)).
  replace (Z.to_N (48 + k mod 10)) with (48 + Z.to_N (k mod 10))%N by lia.
  rewrite is_digit_offset by lia. reflexivity.
Qed.

Lemma frac_digits_value d : forall k,
  digits_value (frac_digits d k) = k mod 10 ^ Z.of_nat d.
Proof.
  induction d as [|d IH]; intros k.
  - simpl. rewrite Z.mod_1_r. reflexivity.
  - cbn [frac_digits]. rewrite digits_value_snoc, IH.
    pose proof (Z.mod_pos_bound k 10 ltac:(lia)).
    rewrite Z2N.id by lia.
    rewrite Nat2Z.inj_succ, Z.pow_succ_r by lia.
    assert (0 < 10 ^ Z.of_nat d) by (apply Z.pow_pos_nonneg; lia).
    rewrite (Z.rem_mul_r k 10 (10 ^ Z.of_nat d)) by lia. lia.
Qed.

Lemma round_half_even_nearest num den :
  0 < den -> nearest num den (round_half_even num den).
Proof.
  intros Hd. unfold nearest, round_half_even.
  pose proof (Z.div_mod num den ltac:(lia)) as E.
  pose proof (Z.mod_pos_bound num den Hd) as B.
  destruct (Z.compare_spec (2 * (num mod den)) den) as [C|C|C].
  - destruct (Z.even (num / den)); nia.
  - nia.
  - nia.
Qed.

Lemma round_half_even_nonneg num den :
  0 <= num -> 0 < den -> 0 <= round_half_even num den.
Proof.
  intros Hn Hd. unfold round_half_even.
  pose proof (Z.div_pos num den Hn Hd).
  destruct (2 * (num mod den) ?= den); [destruct (Z.even _)| |]; lia.
Qed.

Lemma scaled_nonneg d m e : 0 <= scaled d m e.
Proof.
  unfold scaled.
  assert (0 < 10 ^ Z.of_nat d) by (apply Z.pow_pos_nonneg; lia).
  destruct (Z.leb_spec 0 e).
  - assert (0 < 2 ^ e) by (apply Z.pow_pos_nonneg; lia). nia.
  - apply round_half_even_nonneg; [nia | apply Z.pow_pos_nonneg; lia].
Qed.

Lemma scaled_rounds_to d s m e : rounds_to d (S754_finite s m e) (scaled d m e).
Proof.
  unfold rounds_to, scaled. destruct (0 <=? e) eqn:E; [reflexivity|].
  apply round_half_even_nearest. apply Z.pow_pos_nonneg; lia.
Qed.

(** The shape of a fixed-point rendering: an integer part, and for [d > 0]
    a point and [d] decimals, which together spell [n]. *)
Lemma fixed_digits_shape d n :
  0 <= n ->
  exists ip fp,
    fixed_digits d n
    = ip ++ match d with O => [] | _ => 46%N :: fp end
    /\ all_digits ip /\ ip <> [] /\ all_digits fp /\ length fp = d
    /\ digits_value ip * 10 ^ Z.of_nat d + digits_value fp = n.
Proof.
  intros Hn.
  assert (P : 0 < 10 ^ Z.of_nat d) by (apply Z.pow_pos_nonneg; lia).
  exists (decimal (Z.to_N (n / 10 ^ Z.of_nat d))),
         (frac_digits d (n mod 10 ^ Z.of_nat d)).
  split; [reflexivity|].
  split; [apply decimal_all_digits|].
  split; [apply decimal_nonempty|].
  split; [apply frac_digits_all_digits|].
  split; [apply frac_digits_length|].
  rewrite decimal_value, frac_digits_value, Z2N.id by (apply Z.div_pos; lia).
  rewrite Z.mod_mod by lia.
  pose proof (Z.div_mod n (10 ^ Z.of_nat d) ltac:(lia)). lia.
Qed.

End FormatFacts.

(* ------------------------------------------------------------------ *)
(** ** Comparison, sign and division of binary64 numbers *)

Section NumberFacts.

Lemma binary_round_aux_sign sx mx ex lx :
  match sign_of (binary_round_aux prec emax sx mx ex lx) with
  | Some s => s = sx
  | None => True
  end.
Proof.
  unfold binary_round_aux.
  destruct (shr_fexp prec emax mx ex lx) as [r1 e1].
  destruct (shr_fexp prec emax _ e1 loc_Exact) as [r2 e2].
  destruct (shr_m r2); simpl; auto.
  destruct (e2 <=? _); reflexivity.
Qed.



Lemma pow2_pos e : 0 < 2 ^ (- e) \/ e > 0.
Proof. destruct (Z_le_gt_dec e 0); [left; apply Z.pow_pos_nonneg; lia | right; lia]. Qed.

Lemma cmp_Z_finite s m e n :
  exists P, 0 < P /\
    cmp_Z (S754_finite s m e) n
    = Some (if 0 <=? e then signed s m * P ?= n else signed s m ?= n * P).
Proof.
  unfold cmp_Z. destruct (Z.leb_spec 0 e).
  - exists (2 ^ e). split; [apply Z.pow_pos_nonneg; lia | reflexivity].
  - exists (2 ^ (- e)). split; [apply Z.pow_pos_nonneg; lia | reflexivity].
Qed.

Lemma cmp_Z_finite_sign s m e n c :
  cmp_Z (S754_finite s m e) n = Some c ->
  (c = Lt -> n <= 0 -> s = true)
  /\ (c <> Lt -> 0 <= n -> s = false)
  /\ (s = true -> 0 <= n -> c = Lt)
  /\ (s = false -> n <= 0 -> c = Gt).
Proof.
  destruct (cmp_Z_finite s m e n) as (P & HP & ->). intros [= <-].
  destruct s; unfold signed;
    destruct (0 <=? e);
    match goal with |- context [?a ?= ?b] => destruct (Z.compare_spec a b) end;
    repeat split; intros; try reflexivity; try congruence; exfalso; nia.
Qed.



Lemma format_fixed_finite d x :
  is_finite x = true ->
  exists s ip fp,
    sign_of x = Some s
    /\ format_fixed d x
       = sign_str s ++ ip ++ match d with O => [] | _ => 46%N :: fp end
    /\ all_digits ip /\ ip <> [] /\ all_digits fp /\ length fp = d
    /\ rounds_to d x (digits_value ip * 10 ^ Z.of_nat d + digits_value fp).
Proof.
  destruct x as [s|s| |s m e]; try discriminate; intros _.
  - destruct (fixed_digits_shape d 0 ltac:(lia)) as (ip & fp & E & A & B & C & D & V).
    exists s, ip, fp. simpl. rewrite E. repeat split; auto.
  - destruct (fixed_digits_shape d (scaled d m e) (scaled_nonneg d m e))
      as (ip & fp & E & A & B & C & D & V).
    exists s, ip, fp. cbn [sign_of format_fixed]. rewrite E, V.
    repeat split; auto. apply scaled_rounds_to.
Qed.





Lemma lt_Z_negative x :
  is_finite x = true -> lt_Z x 0 = true -> exists m e, x = S754_finite true m e.
Proof.
  intros F. unfold lt_Z.
  destruct x as [s|s| |s m e]; try discriminate.
  destruct (cmp_Z (S754_finite s m e) 0) as [c|] eqn:E; [|discriminate].
  destruct (cmp_Z_finite_sign _ _ _ _ _ E) as (H & _).
  intros G. rewrite H; [eauto | destruct c; congruence | lia].
Qed.

Lemma eq_Z_finite_0 s m e : eq_Z (S754_finite s m e) 0 = false.
Proof.
  unfold eq_Z.
  destruct (cmp_Z (S754_finite s m e) 0) as [c|] eqn:E; [|reflexivity].
  destruct (cmp_Z_finite_sign _ _ _ _ _ E) as (_ & _ & A & B).
  destruct s; [rewrite A | rewrite B]; auto; lia.
Qed.

Lemma ge_Z_negative m e n : 0 <= n -> ge_Z (S754_finite true m e) n = false.
Proof.
  intros Hn. unfold ge_Z.
  destruct (cmp_Z (S754_finite true m e) n) as [c|] eqn:E; [|reflexivity].
  destruct (cmp_Z_finite_sign _ _ _ _ _ E) as (_ & _ & A & _).
  rewrite A; auto.
Qed.


End NumberFacts.

(* ------------------------------------------------------------------ *)
(** ** The currency formatter *)


(** C10.  For every finite strictly negative amount the output is the
    dollar sign, the minus sign and the digits of the magnitude rounded to
    an integer: no suffix whatever the magnitude, and not the zero
    literal. *)
Theorem format_market_cap_negative (v : float) :
  is_finite v = true ->
  lt_Z v 0 = true ->
  exists ip,
    format_market_cap (Some v) = u "$-" ++ ip
    /\ all_digits ip /\ ip <> []
    /\ rounds_to 0 v (digits_value ip).
Proof.
  intros F L.
  destruct (lt_Z_negative v F L) as (m & e & ->).
  unfold format_market_cap. cbn [truthy negb orb].
  rewrite eq_Z_finite_0, !ge_Z_negative by lia.
  destruct (format_fixed_finite 0 (S754_finite true m e) eq_refl)
    as (s & ip & fp & Hs & E & A & B & C & D & R).
  injection Hs as <-.
  exists ip. rewrite E. cbn [sign_str]. rewrite app_nil_r.
  destruct fp; [|discriminate].
  change (digits_value []) with 0 in R.
  change (10 ^ Z.of_nat 0) with 1 in R.
  replace (digits_value ip * 1 + 0) with (digits_value ip) in R by lia.
  repeat split; auto.
Qed.

(* ------------------------------------------------------------------ *)
(** ** Wrapping of the reason *)

Section WrapFacts.

Lemma forallb_rev {A} (f : A -> bool) l : forallb f (rev l) = forallb f l.
Proof.
  induction l as [|a l IH]; [reflexivity|].
  cbn [rev forallb]. rewrite forallb_app, IH. cbn [forallb].
  rewrite andb_true_r. apply andb_comm.
Qed.

Lemma rev_word_ok a cur : no_space (a :: cur) = true -> word_ok (rev (a :: cur)).
Proof.
  intros Hc. split.
  - intros H. apply (f_equal (@length _)) in H. rewrite length_rev in H. discriminate.
  - unfold no_space in *. rewrite forallb_rev. exact Hc.
Qed.

Lemma split_from_ok s : forall cur,
  no_space cur = true -> Forall word_ok (split_from cur s).
Proof.
  induction s as [|c rest IH]; intros cur Hc; cbn [split_from].
  - destruct cur as [|a cur'].
    + constructor.
    + constructor; [apply rev_word_ok; exact Hc | constructor].
  - destruct (is_space c) eqn:Ec.
    + destruct cur as [|a cur'].
      * apply IH. reflexivity.
      * constructor; [apply rev_word_ok; exact Hc | apply IH; reflexivity].
    + apply IH. unfold no_space in *. cbn [forallb]. rewrite Ec, Hc. reflexivity.
Qed.

Lemma split_ok s : Forall word_ok (split s).
Proof. apply split_from_ok. reflexivity. Qed.


(** *** Stripping a line *)

Lemma lstrip_no_space c s : is_space c = false -> lstrip (c :: s) = c :: s.
Proof. intros H. cbn [lstrip]. rewrite H. reflexivity. Qed.

Lemma strip_tight s : tight s -> strip (s ++ u " ") = s.
Proof.
  intros [(c & r & -> & Hc) (c' & r' & Hr & Hc')].
  unfold strip. cbn [app]. rewrite lstrip_no_space by assumption.
  unfold rstrip. change (c :: r ++ u " ") with ((c :: r) ++ u " ").
  rewrite rev_app_distr. change (rev (u " ")) with [32%N]. cbn [app].
  cbn [lstrip]. change (is_space 32%N) with true. cbv iota.
  rewrite Hr, lstrip_no_space by assumption.
  rewrite <- Hr. apply rev_involutive.
Qed.

Lemma word_ok_tight w : word_ok w -> tight w.
Proof.
  intros [Hne Hs]. unfold no_space in Hs. split.
  - destruct w as [|c r]; [contradiction|].
    exists c, r. split; [reflexivity|].
    cbn [forallb] in Hs. apply andb_true_iff in Hs. destruct Hs as [H _].
    apply negb_true_iff in H. exact H.
  - rewrite <- forallb_rev in Hs.
    destruct (rev w) as [|c r] eqn:E.
    + apply (f_equal (@length _)) in E. rewrite length_rev in E.
      destruct w; [contradiction | discriminate].
    + exists c, r. split; [reflexivity|].
      cbn [forallb] in Hs. apply andb_true_iff in Hs. destruct Hs as [H _].
      apply negb_true_iff in H. exact H.
Qed.

Lemma tight_app a b : tight a -> tight b -> tight (a ++ u " " ++ b).
Proof.
  intros [(c & r & -> & Hc) _] [_ (c' & r' & Hr & Hc')]. split.
  - exists c, (r ++ u " " ++ b). split; [reflexivity | assumption].
  - exists c', (r' ++ rev (u " ") ++ rev (c :: r)). split; [|assumption].
    rewrite !rev_app_distr, Hr. rewrite <- app_assoc. reflexivity.
Qed.

Lemma closed_line_cons w ws :
  ws <> [] -> closed_line (w :: ws) = w ++ u " " ++ closed_line ws.
Proof. destruct ws; [contradiction | reflexivity]. Qed.

Lemma closed_line_tight ws :
  ws <> [] -> Forall word_ok ws -> tight (closed_line ws).
Proof.
  induction ws as [|w ws IH]; intros Hne Hf; [contradiction|].
  inversion Hf as [|? ? Hw Hws]; subst.
  destruct ws as [|w' ws'].
  - apply word_ok_tight. exact Hw.
  - rewrite closed_line_cons by discriminate.
    apply tight_app; [apply word_ok_tight; exact Hw | apply IH; [discriminate | exact Hws]].
Qed.

Lemma open_line_closed ws :
  ws <> [] -> open_line ws = closed_line ws ++ u " ".
Proof.
  induction ws as [|w ws IH]; intros Hne; [contradiction|].
  destruct ws as [|w' ws'].
  - unfold open_line, closed_line. cbn [List.map concat join]. rewrite app_nil_r. reflexivity.
  - rewrite closed_line_cons by discriminate.
    unfold open_line in *. cbn [List.map concat] in *.
    rewrite IH by discriminate. rewrite <- !app_assoc. reflexivity.
Qed.

Lemma strip_open_line ws :
  ws <> [] -> Forall word_ok ws -> strip (open_line ws) = closed_line ws.
Proof.
  intros Hne Hf. rewrite open_line_closed by assumption.
  apply strip_tight. apply closed_line_tight; assumption.
Qed.


(** *** The loop on strings follows the loop on word lists *)

Lemma open_line_snoc cur w : open_line (cur ++ [w]) = open_line cur ++ w ++ u " ".
Proof.
  unfold open_line. rewrite map_app, concat_app. cbn [List.map concat].
  rewrite app_nil_r. reflexivity.
Qed.

Lemma closed_line_snoc cur w : closed_line (cur ++ [w]) = open_line cur ++ w.
Proof.
  induction cur as [|a r IH]; [reflexivity|].
  change ((a :: r) ++ [w]) with (a :: (r ++ [w])).
  rewrite closed_line_cons by (destruct r; discriminate).
  rewrite IH. unfold open_line. cbn [List.map concat].
  rewrite <- !app_assoc. reflexivity.
Qed.

Lemma nonempty_open_line cur : nonempty (open_line cur) = nonempty cur.
Proof.
  destruct cur as [|w r]; [reflexivity|].
  unfold open_line. cbn [List.map concat].
  destruct w; reflexivity.
Qed.

Lemma nonempty_true {A} (l : list A) : l <> [] -> nonempty l = true.
Proof. destruct l; [contradiction | reflexivity]. Qed.

Lemma lines_step_inv st w :
  lines_inv st -> word_ok w -> lines_inv (lines_step st w).
Proof.
  destruct st as [closed cur]. intros (Hc & Hw & He & Hf & Hl) Hok.
  unfold lines_step.
  destruct (Z.leb_spec (len (open_line cur ++ w)) 27) as [Hle|Hgt].
  - refine (conj Hc (conj _ (conj _ (conj Hf _)))).
    + apply Forall_app. split; [assumption | constructor; [assumption | constructor]].
    + intros H. apply app_eq_nil in H. destruct H; discriminate.
    + intros _. left. rewrite closed_line_snoc. exact Hle.
  - assert (Hw1 : Forall word_ok [w]) by (constructor; [assumption | constructor]).
    assert (Hl1 : [w] <> [] -> line_fits [w]).
    { intros _. destruct (Z.leb_spec (len w) 27) as [L|G].
      - left. exact L.
      - right. exists w. split; [reflexivity | lia]. }
    destruct cur as [|a r]; cbn [nonempty].
    + refine (conj Hc (conj Hw1 (conj _ (conj Hf Hl1)))). discriminate.
    + refine (conj _ (conj Hw1 (conj _ (conj _ Hl1)))).
      * apply Forall_app. split; [assumption|].
        constructor; [|constructor]. split; [discriminate | assumption].
      * discriminate.
      * apply Forall_app. split; [assumption|].
        constructor; [|constructor]. apply Hl. discriminate.
Qed.

Lemma wrap_step_abs st w :
  lines_inv st -> wrap_step (wrap_abs st) w = wrap_abs (lines_step st w).
Proof.
  destruct st as [closed cur]. intros (Hc & Hw & He & _).
  unfold wrap_step, lines_step, wrap_abs.
  cbn [wrapped_reason current_line].
  destruct (len (open_line cur ++ w) <=? 27).
  - rewrite open_line_snoc. reflexivity.
  - rewrite nonempty_open_line. destruct cur as [|a r]; cbn [nonempty].
    + unfold open_line. cbn [List.map concat]. rewrite app_nil_r. reflexivity.
    + rewrite strip_open_line by (assumption || discriminate).
      rewrite map_app, concat_app. cbn [List.map concat].
      unfold open_line, line_sep. cbn [List.map concat].
      rewrite !app_nil_r. reflexivity.
Qed.

Lemma fold_wrap_abs words : forall st,
  lines_inv st -> Forall word_ok words ->
  fold_left wrap_step words (wrap_abs st)
  = wrap_abs (fold_left lines_step words st)
  /\ lines_inv (fold_left lines_step words st).
Proof.
  induction words as [|w ws IH]; intros st Hi Hf; cbn [fold_left].
  - split; [reflexivity | assumption].
  - inversion Hf as [|? ? Hw Hws]; subst.
    rewrite wrap_step_abs by assumption.
    apply IH; [apply lines_step_inv; assumption | assumption].
Qed.

Lemma join_cons (sep : str) (a : str) (ls : list str) :
  ls <> [] -> join sep (a :: ls) = a ++ sep ++ join sep ls.
Proof. destruct ls; [contradiction | reflexivity]. Qed.

Lemma join_snoc (sep : str) (ls : list str) (x : str) :
  join sep (ls ++ [x]) = concat (List.map (fun y => y ++ sep) ls) ++ x.
Proof.
  induction ls as [|a r IH]; [reflexivity|].
  change ((a :: r) ++ [x]) with (a :: (r ++ [x])).
  rewrite join_cons by (destruct r; discriminate).
  cbn [List.map concat]. rewrite IH, <- !app_assoc. reflexivity.
Qed.

Lemma wrap_finish_abs st :
  lines_inv st ->
  wrap_finish (wrap_abs st)
  = join line_sep (List.map closed_line (all_lines st)).
Proof.
  destruct st as [closed cur]. intros (Hc & Hw & He & _).
  unfold wrap_finish, wrap_abs, all_lines.
  cbn [wrapped_reason current_line].
  rewrite nonempty_open_line. destruct cur as [|a r]; cbn [nonempty].
  - rewrite (He eq_refl). reflexivity.
  - rewrite strip_open_line by (assumption || discriminate).
    rewrite map_app. cbn [List.map]. rewrite join_snoc, map_map. reflexivity.
Qed.

Lemma concat_snoc {A} (ls : list (list A)) (l : list A) :
  concat (ls ++ [l]) = concat ls ++ l.
Proof. rewrite concat_app. cbn [concat]. rewrite app_nil_r. reflexivity. Qed.

Lemma lines_step_words st w :
  concat (all_lines (lines_step st w)) = concat (all_lines st) ++ [w].
Proof.
  destruct st as [closed cur]. unfold lines_step, all_lines.
  destruct (len (open_line cur ++ w) <=? 27).
  - rewrite nonempty_true by (intros H; apply app_eq_nil in H; destruct H; discriminate).
    rewrite concat_snoc.
    destruct cur; cbn [nonempty]; [reflexivity|].
    rewrite concat_snoc, app_assoc. reflexivity.
  - cbn [nonempty]. rewrite concat_snoc.
    destruct cur; cbn [nonempty]; reflexivity.
Qed.

Lemma fold_lines_words words : forall st,
  concat (all_lines (fold_left lines_step words st))
  = concat (all_lines st) ++ words.
Proof.
  induction words as [|w ws IH]; intros st; cbn [fold_left].
  - rewrite app_nil_r. reflexivity.
  - rewrite IH, lines_step_words, <- app_assoc. reflexivity.
Qed.

Lemma all_lines_fit st : lines_inv st -> Forall line_fits (all_lines st).
Proof.
  destruct st as [closed cur]. intros (_ & _ & _ & Hf & Hl). unfold all_lines.
  destruct cur as [|a r]; cbn [nonempty]; [assumption|].
  apply Forall_app. split; [assumption|].
  constructor; [apply Hl; discriminate | constructor].
Qed.

Lemma lines_inv_start : lines_inv ([], []).
Proof.
  refine (conj _ (conj _ (conj _ (conj _ _)))); try constructor.
  intros Hne; contradiction.
Qed.

(** The text the loop builds is its lines joined by the continuation
    prefix; the lines hold the words in their order; and a line is wider
    than 27 only when it is a single word. *)
Lemma wrap_words_lines words :
  Forall word_ok words ->
  wrap_words words = join line_sep (List.map closed_line (wrap_lines words))
  /\ concat (wrap_lines words) = words
  /\ Forall line_fits (wrap_lines words).
Proof.
  intros Hf. unfold wrap_words, wrap_lines.
  destruct (fold_wrap_abs words ([], []) lines_inv_start Hf) as [E I].
  change {| wrapped_reason := []; current_line := [] |} with (wrap_abs ([], [])).
  rewrite E. split; [apply wrap_finish_abs; exact I|].
  split; [apply (fold_lines_words words ([], [])) | apply all_lines_fit; exact I].
Qed.

End WrapFacts.

(* ------------------------------------------------------------------ *)
(** ** Truncation *)

Section TruncateFacts.

Lemma eqb_eq (a b : str) : eqb a b = true <-> a = b.
Proof. unfold eqb. destruct (list_eq_dec N.eq_dec a b); split; congruence. Qed.

Lemma eqb_neq (a b : str) : a <> b -> eqb a b = false.
Proof. unfold eqb. destruct (list_eq_dec N.eq_dec a b); congruence. Qed.

Lemma len_app (a b : str) : len (a ++ b) = len a + len b.
Proof. unfold len. rewrite length_app. lia. Qed.

Lemma truncate_long limit n s :
  Z.of_nat limit < len s -> (n <= limit)%nat ->
  truncate limit n s = slice_to n s ++ u "..."
  /\ len (truncate limit n s) = Z.of_nat n + 3.
Proof.
  intros H Hn. unfold truncate.
  destruct (Z.ltb_spec (Z.of_nat limit) (len s)); [|lia].
  split; [reflexivity|].
  rewrite len_app. unfold slice_to, len in *. rewrite length_firstn.
  change (length (u "...")) with 3%nat. lia.
Qed.

Lemma truncate_short limit n s :
  len s <= Z.of_nat limit -> truncate limit n s = s.
Proof.
  intros H. unfold truncate.
  destruct (Z.ltb_spec (Z.of_nat limit) (len s)); [lia | reflexivity].
Qed.

Lemma truncate_bound limit n s :
  (n + 3 <= limit)%nat -> len (truncate limit n s) <= Z.of_nat limit.
Proof.
  intros Hn. destruct (Z_lt_le_dec (Z.of_nat limit) (len s)) as [L|L].
  - destruct (truncate_long limit n s L ltac:(lia)) as [_ E]. lia.
  - rewrite truncate_short by assumption. assumption.
Qed.

End TruncateFacts.

(* ------------------------------------------------------------------ *)
(** ** The step formatter *)

(** C6 (amended).  The step formatter first brings the reason to at most
    70 characters (its first 67 and an ellipsis when it is longer than
    70), then wraps its words greedily: the text is the lines joined by the
    continuation prefix, the lines hold the words in their order, and a
    line is wider than 27 characters only when it consists of a single
    word that is itself wider than 27; when no word is, no line exceeds
    27. *)
Theorem reason_truncated_then_wrapped (catalog : list step_def)
    (step_key : str) (step_data : step_result) (i total : nat) :
  let reason := get_or step_data (u "reason") [] in
  let shown := truncate_reason reason in
  len shown <= 70
  /\ (70 < len reason -> shown = slice_to 67 reason ++ u "...")
  /\ (len reason <= 70 -> shown = reason)
  /\ exists lines,
       wrap_reason reason = join line_sep (List.map closed_line lines)
       /\ concat lines = split shown
       /\ Forall line_fits lines
       /\ (Forall (fun w => len w <= 27) (split shown) ->
           Forall (fun l => len (closed_line l) <= 27) lines)
       /\ match find_step catalog step_key with
          | Some step_info =>
              format_analysis_step catalog step_key step_data i total
              = nl ++ icon step_info ++ u " " ++ label step_info ++ nl
                ++ u "   "
                ++ status_emoji_of (get_or step_data (u "status") (u "info"))
                ++ u " " ++ get_or step_data (u "value") (u "N/A") ++ nl
                ++ u "   " ++ join line_sep (List.map closed_line lines)
          | None => format_analysis_step catalog step_key step_data i total = []
          end.
Proof.
  intros reason shown. unfold shown, truncate_reason.
  split; [apply (truncate_bound 70 67); lia|].
  split; [intros H; apply (truncate_long 70 67); [exact H | lia]|].
  split; [apply (truncate_short 70 67)|].
  destruct (wrap_words_lines (split (truncate 70 67 reason)) (split_ok _))
    as (E & C & F).
  exists (wrap_lines (split (truncate 70 67 reason))).
  split; [exact E|]. split; [exact C|]. split; [exact F|].
  split.
  - intros Hw. rewrite <- C in Hw.
    revert F Hw. generalize (wrap_lines (split (truncate 70 67 reason))).
    induction l as [|l ls IH]; intros F Hw; [constructor|].
    inversion F as [|? ? Hl Hls]; subst.
    cbn [concat] in Hw. apply Forall_app in Hw. destruct Hw as [Hw1 Hw2].
    constructor; [|apply IH; assumption].
    destruct Hl as [Hl | (w & -> & Hgt)]; [exact Hl|].
    inversion Hw1; subst. lia.
  - unfold format_analysis_step. fold reason.
    destruct (find_step catalog step_key); [|reflexivity].
    unfold wrap_reason, truncate_reason. fold reason. rewrite E. reflexivity.
Qed.

(** A reason of one word of 30 characters comes out as one line of 30
    characters: the bound of 27 on every wrapped line does not hold. *)
Lemma long_word_is_not_wrapped :
  wrap_reason long_word = long_word
  /\ len long_word = 30
  /\ wrap_lines (split (truncate_reason long_word)) = [[long_word]]
  /\ ~ Forall (fun l => len (closed_line l) <= 27)
         (wrap_lines (split (truncate_reason long_word))).
Proof.
  assert (E : wrap_lines (split (truncate_reason long_word)) = [[long_word]])
    by (vm_compute; reflexivity).
  split; [vm_compute; reflexivity|].
  split; [reflexivity|].
  split; [exact E|].
  rewrite E. intros H. inversion H as [|? ? H1 _]; subst.
  vm_compute in H1. apply H1. reflexivity.
Qed.

(* ------------------------------------------------------------------ *)
(** ** The verdict formatter *)

Section Verdict.
Variable num_str : float -> str.

(** C9.  The verdict panel shows for the risk level [Low] the green
    glyph, for [High] the red one and for [Medium] and every other value
    the yellow one, and shows the recommendation cut to its first 147
    characters and an ellipsis when it is longer than 150 characters,
    unchanged otherwise. *)
Theorem verdict_glyph_and_recommendation (a : analysis) :
  let risk_level := match a_riskLevel a with Some s => s | None => u "Medium" end in
  let recommendation := match a_recommendation a with Some s => s | None => [] end in
  exists glyph shown,
    format_verdict num_str a
    = nl ++ u "🎯 Overall Verdict" ++ nl
      ++ box_top ++ nl
      ++ u "│ Win Probability: " ++ percent_field num_str (a_overallProbability a)
      ++ u "%        │" ++ nl
      ++ u "│ Risk Level: " ++ glyph ++ u " " ++ ljust 18 risk_level ++ u " │" ++ nl
      ++ box_mid ++ nl
      ++ u "│ " ++ ljust 27 shown ++ u " │" ++ nl
      ++ box_bot
    /\ (risk_level = u "Low" -> glyph = u "🟢")
    /\ (risk_level = u "High" -> glyph = u "🔴")
    /\ (risk_level <> u "Low" -> risk_level <> u "High" -> glyph = u "🟡")
    /\ (150 < len recommendation ->
        shown = slice_to 147 recommendation ++ u "...")
    /\ (len recommendation <= 150 -> shown = recommendation)
    /\ len shown <= 150.
Proof.
  intros risk_level recommendation.
  exists (risk_emoji_of risk_level), (truncate_recommendation recommendation).
  split; [reflexivity|].
  split; [intros ->; reflexivity|].
  split; [intros ->; reflexivity|].
  split.
  - intros HL HH. unfold risk_emoji_of, get_or. cbn [dict_get].
    rewrite (eqb_neq (u "Low") risk_level) by congruence.
    rewrite (eqb_neq (u "High") risk_level) by congruence.
    destruct (eqb (u "Medium") risk_level); reflexivity.
  - unfold truncate_recommendation.
    split; [intros H; apply (truncate_long 150 147); [exact H | lia]|].
    split; [apply (truncate_short 150 147) | apply (truncate_bound 150 147); lia].
Qed.
End Verdict.

(* ------------------------------------------------------------------ *)
(** ** The progress bar *)

Section ProgressFacts.

Lemma progress_numbers_total c t :
  0 <= c <= t -> 0 < t -> exists p f, progress_numbers c t = Ok (p, f).
Proof.
  intros Hc Ht. unfold progress_numbers.
  destruct (int_truediv_le c t Hc Ht) as (q & Eq & Mq).
  rewrite Eq. cbn [bind].
  assert (F100 : is_finite (mul_int q 100) = true).
  { eapply mul_int_finite; [vm_compute; reflexivity | lia | vm_compute; discriminate | exact Mq]. }
  assert (F20 : is_finite (mul_int q 20) = true).
  { eapply mul_int_finite; [vm_compute; reflexivity | lia | vm_compute; discriminate | exact Mq]. }
  destruct (to_int_finite _ F100) as (p & Ep).
  destruct (to_int_finite _ F20) as (f & Ef).
  rewrite Ep. cbn [bind]. rewrite Ef. cbn [bind]. eauto.
Qed.

Lemma format_progress_bar_total c t :
  0 <= c <= t -> 0 < t -> exists bar, format_progress_bar c t = Ok bar.
Proof.
  intros Hc Ht. unfold format_progress_bar.
  destruct (progress_numbers_total c t Hc Ht) as (p & f & E).
  rewrite E. cbn [bind]. eauto.
Qed.

Lemma bar_check_sound c t : bar_check c t = true -> bar_as_specified c t.
Proof.
  unfold bar_check, bar_as_specified.
  destruct (progress_numbers c t) as [[p f]|]; [|discriminate].
  destruct (format_progress_bar c t) as [s|]; [|discriminate].
  intros H. repeat (apply andb_true_iff in H; destruct H as [H ?]).
  apply Z.eqb_eq in H. apply Z.eqb_eq in H0. apply eqb_eq in H1.
  apply Z.eqb_eq in H2. subst. auto.
Qed.

Lemma bar_check_below_50 :
  forallb (fun t => forallb (fun c => bar_check (Z.of_nat c) (Z.of_nat t))
                            (seq 0 (S t)))
          (seq 1 49) = true.
Proof. vm_compute. reflexivity. Qed.

End ProgressFacts.

(** C7 (amended).  For [0 <= current <= total] and [0 < total < 50] the
    bar has 20 cells of which [floor(20 current / total)] are filled, and
    the percentage is [floor(100 current / total)]; 3 of 8 gives 7 cells
    and 37%. *)
Theorem progress_bar_below_50 (current total : Z) :
  0 <= current <= total -> 0 < total < 50 -> bar_as_specified current total.
Proof.
  intros Hc Ht. apply bar_check_sound.
  pose proof bar_check_below_50 as H.
  rewrite forallb_forall in H.
  assert (Ht' : In (Z.to_nat total) (seq 1 49)) by (apply in_seq; lia).
  specialize (H _ Ht'). rewrite forallb_forall in H.
  assert (Hc' : In (Z.to_nat current) (seq 0 (S (Z.to_nat total))))
    by (apply in_seq; lia).
  specialize (H _ Hc'). rewrite !Z2Nat.id in H by lia. exact H.
Qed.

Lemma progress_bar_3_of_8 :
  format_progress_bar 3 8 = Ok (u "[███████░░░░░░░░░░░░░] 37%")
  /\ progress_numbers 3 8 = Ok (37, 7).
Proof. split; vm_compute; reflexivity. Qed.

(** At 29 of 50 the code prints 57%, and [floor(100 * 29 / 50)] is 58:
    the binary64 product [(29 / 50) * 100] lies just below 58. *)
Lemma progress_bar_29_of_50 :
  progress_numbers 29 50 = Ok (57, 11)
  /\ 100 * 29 / 50 = 58
  /\ ~ bar_as_specified 29 50.
Proof.
  split; [vm_compute; reflexivity|].
  split; [reflexivity|].
  intros (H & _). vm_compute in H. discriminate.
Qed.

Lemma progress_bar_overfull :
  format_progress_bar 2 1
  = Ok (u "[████████████████████████████████████████] 200%")
  /\ len (progress_bar_cells (20 * 2 / 1)) = 40.
Proof. split; vm_compute; reflexivity. Qed.

(* ------------------------------------------------------------------ *)
(** ** The message composer *)

Section ComposerFacts.

Variable num_str : float -> str.
Variable catalog : list step_def.

Lemma Ok_inj {A} (x y : A) : Ok x = Ok y -> x = y.
Proof. congruence. Qed.

Lemma steps_loop_eq a cs ts : forall steps i acc,
  steps_loop catalog a cs ts steps i acc
  = acc ++ flat_map (shown_panel catalog a cs ts) (indexed i steps).
Proof.
  induction steps as [|s rest IH]; intros i acc.
  - cbn. rewrite app_nil_r. reflexivity.
  - cbn [steps_loop]. rewrite IH.
    unfold indexed. cbn [length seq combine flat_map shown_panel].
    unfold step_data_of.
    destruct (dict_get (a_steps a) (key s)) as [d|]; [|reflexivity].
    destruct (nonempty d); cbn [andb]; [|reflexivity].
    destruct (i <? cs)%nat; [|reflexivity].
    rewrite <- app_assoc. reflexivity.
Qed.

Lemma compose_lines_shape token metadata metrics a cs ts sc :
  exists progress,
    compose_lines num_str catalog token metadata metrics a cs ts sc
    = Ok (header_lines token metadata metrics
          ++ (if analysis_truthy a
              then results_lines (shown_panels catalog a cs ts)
                   ++ progress
                   ++ predictions_lines num_str a cs ts sc
                   ++ verdict_lines num_str a sc
              else []))
    /\ (if analysis_truthy a && ((cs <? ts)%nat && negb sc)
        then exists bar,
               format_progress_bar (Z.of_nat cs) (Z.of_nat ts) = Ok bar
               /\ progress = progress_lines cs ts bar
        else progress = []).
Proof.
  unfold compose_lines. fold (header_lines token metadata metrics).
  destruct (analysis_truthy a).
  2:{ exists []. split; [rewrite app_nil_r; reflexivity | reflexivity]. }
  rewrite steps_loop_eq. cbn [app andb]. fold (shown_panels catalog a cs ts).
  destruct ((cs <? ts)%nat && negb sc) eqn:G.
  - apply andb_true_iff in G. destruct G as [G1 G2].
    apply Nat.ltb_lt in G1.
    destruct (format_progress_bar_total (Z.of_nat cs) (Z.of_nat ts)
                ltac:(lia) ltac:(lia)) as (bar & Eb).
    exists (progress_lines cs ts bar). rewrite Eb. cbn [bind].
    split; [|eauto].
    unfold results_lines, predictions_lines, verdict_lines, progress_lines,
      progress_line_text.
    destruct (nonempty (shown_panels catalog a cs ts));
      destruct ((ts <=? cs)%nat || sc);
      destruct (predictions_of a);
      destruct sc; destruct (a_overallProbability a);
      cbn [app]; repeat rewrite <- app_assoc; cbn [app]; reflexivity.
  - exists []. cbn [bind]. split; [|reflexivity].
    unfold results_lines, predictions_lines, verdict_lines.
    destruct (nonempty (shown_panels catalog a cs ts));
      destruct ((ts <=? cs)%nat || sc);
      destruct (predictions_of a);
      destruct sc; destruct (a_overallProbability a);
      cbn [app]; repeat rewrite <- app_assoc; cbn [app];
      repeat rewrite app_nil_r; reflexivity.
Qed.


Lemma shown_panel_steps a cs ts entry :
  filter is_step_line (shown_panel catalog a cs ts entry)
  = shown_panel catalog a cs ts entry.
Proof.
  destruct entry as [i s]. unfold shown_panel.
  destruct (dict_get (a_steps a) (key s)); [|reflexivity].
  destruct (nonempty _ && _); reflexivity.
Qed.

Lemma shown_panels_steps a cs ts :
  step_panels (shown_panels catalog a cs ts) = shown_panels catalog a cs ts.
Proof.
  unfold step_panels, shown_panels.
  induction (indexed 0 catalog) as [|e es IH]; [reflexivity|].
  cbn [flat_map]. rewrite filter_app, shown_panel_steps, IH. reflexivity.
Qed.

Lemma step_panels_composed token metadata metrics a cs ts sc lines :
  compose_lines num_str catalog token metadata metrics a cs ts sc = Ok lines ->
  step_panels lines = shown_panels catalog a cs ts.
Proof.
  destruct (compose_lines_shape token metadata metrics a cs ts sc)
    as (progress & E & P).
  rewrite E. intros H. apply Ok_inj in H. subst lines. unfold step_panels.
  rewrite filter_app.
  replace (filter is_step_line (header_lines token metadata metrics))
    with (@nil line) by reflexivity.
  cbn [app].
  destruct (analysis_truthy a) eqn:T.
  - rewrite !filter_app.
    assert (Hp : filter is_step_line progress = []).
    { cbn [andb] in P. destruct ((cs <? ts)%nat && negb sc).
      - destruct P as (bar & _ & ->). reflexivity.
      - subst. reflexivity. }
    assert (Hq : filter is_step_line (predictions_lines num_str a cs ts sc) = []).
    { unfold predictions_lines. destruct (_ || _); [|reflexivity].
      destruct (predictions_of a); reflexivity. }
    assert (Hv : filter is_step_line (verdict_lines num_str a sc) = []).
    { unfold verdict_lines. destruct sc; [|reflexivity].
      destruct (a_overallProbability a); reflexivity. }
    rewrite Hp, Hq, Hv, !app_nil_r.
    unfold results_lines.
    destruct (nonempty (shown_panels catalog a cs ts)) eqn:Es.
    + change (filter is_step_line
                ((BResultsTitle, nl ++ u "📋 Analysis Results:")
                 :: shown_panels catalog a cs ts))
        with (step_panels (shown_panels catalog a cs ts)).
      apply shown_panels_steps.
    + destruct (shown_panels catalog a cs ts); [reflexivity | discriminate].
  - (* a falsy analysis object has no step results *)
    unfold shown_panels.
    assert (Hs : a_steps a = []).
    { unfold analysis_truthy in T. destruct (a_steps a); [reflexivity | discriminate]. }
    induction (indexed 0 catalog) as [|[i s] es IH]; [reflexivity|].
    cbn [flat_map shown_panel]. rewrite Hs. cbn [dict_get app]. exact IH.
Qed.

(** Which entries of [indexed i l] there are. *)
Lemma in_indexed {A} (l : list A) : forall i k x,
  In (k, x) (indexed i l) <-> (i <= k)%nat /\ nth_error l (k - i) = Some x.
Proof.
  unfold indexed.
  induction l as [|a l IH]; intros i k x; cbn [length seq combine In].
  - split; [contradiction|]. intros [_ H]. destruct (k - i)%nat; discriminate.
  - rewrite IH. split.
    + intros [[= <- <-] | [Hle Hn]].
      * split; [lia|]. rewrite Nat.sub_diag. reflexivity.
      * split; [lia|]. replace (k - i)%nat with (S (k - S i)) by lia. exact Hn.
    + intros [Hle Hn]. destruct (Nat.eq_dec i k) as [->|Hne].
      * left. rewrite Nat.sub_diag in Hn. cbn in Hn. congruence.
      * right. split; [lia|].
        replace (k - i)%nat with (S (k - S i)) in Hn by lia. exact Hn.
Qed.

Lemma nonempty_iff {A} (l : list A) : nonempty l = true <-> l <> [].
Proof.
  destruct l; cbn [nonempty]; split; intros H;
    try discriminate; try reflexivity; try (exfalso; apply H; reflexivity).
Qed.

Lemma in_shown_panels a cs ts k txt :
  In (BStep k, txt) (shown_panels catalog a cs ts)
  <-> (k < cs)%nat
      /\ exists s d,
           nth_error catalog k = Some s
           /\ dict_get (a_steps a) (key s) = Some d
           /\ d <> []
           /\ txt = format_analysis_step catalog (key s) d k ts.
Proof.
  unfold shown_panels. rewrite in_flat_map. split.
  - intros ([i s] & Hin & Hp). apply in_indexed in Hin. destruct Hin as [_ Hn].
    rewrite Nat.sub_0_r in Hn. unfold shown_panel in Hp.
    destruct (dict_get (a_steps a) (key s)) as [d|] eqn:Ed; [|contradiction].
    destruct (nonempty d) eqn:Nd; cbn [andb] in Hp; [|contradiction].
    destruct (Nat.ltb_spec i cs); [|contradiction].
    destruct Hp as [[= <- <-]|[]].
    split; [assumption|]. exists s, d.
    repeat split; auto. apply nonempty_iff. exact Nd.
  - intros (Hlt & s & d & Hn & Ed & Nd & ->).
    exists (k, s). split.
    + apply in_indexed. rewrite Nat.sub_0_r. split; [lia | exact Hn].
    + unfold shown_panel. rewrite Ed.
      apply nonempty_iff in Nd. rewrite Nd. cbn [andb].
      destruct (Nat.ltb_spec k cs); [left; reflexivity | lia].
Qed.

Lemma in_step_panels k txt lines :
  In (BStep k, txt) lines <-> In (BStep k, txt) (step_panels lines).
Proof.
  unfold step_panels. rewrite filter_In. split; [|tauto].
  intros H. split; [exact H | reflexivity].
Qed.

Lemma join_app (sep : str) (l1 l2 : list str) :
  l1 <> [] -> l2 <> [] ->
  join sep (l1 ++ l2) = join sep l1 ++ sep ++ join sep l2.
Proof.
  induction l1 as [|a r IH]; intros H1 H2; [contradiction|].
  destruct r as [|b r'].
  - cbn [app]. rewrite join_cons by assumption. reflexivity.
  - change ((a :: b :: r') ++ l2) with (a :: ((b :: r') ++ l2)).
    rewrite join_cons by discriminate.
    rewrite IH by (discriminate || assumption).
    rewrite (join_cons sep a (b :: r')) by discriminate.
    rewrite <- !app_assoc. reflexivity.
Qed.

End ComposerFacts.

Section ComposerClaims.

Variable num_str : float -> str.
Variable catalog : list step_def.

(** The composer returns, and its step panels are those of the catalog
    entries that are shown. *)
Lemma compose_lines_panels
    (token : str) (metadata : dict str) (metrics : dict (option float))
    (a : analysis) (cs ts : nat) (sc : bool) :
  exists lines,
    compose_lines num_str catalog token metadata metrics a cs ts sc = Ok lines
    /\ step_panels lines = shown_panels catalog a cs ts
    /\ (forall k txt,
          In (BStep k, txt) lines
          <-> (k < cs)%nat
              /\ exists s d,
                   nth_error catalog k = Some s
                   /\ dict_get (a_steps a) (key s) = Some d
                   /\ d <> []
                   /\ txt = format_analysis_step catalog (key s) d k ts).
Proof.
  destruct (compose_lines_shape num_str catalog token metadata metrics a cs ts sc)
    as (progress & E & _).
  eexists. split; [exact E|].
  pose proof (step_panels_composed num_str catalog _ _ _ _ _ _ _ _ E) as S.
  split; [exact S|].
  intros k txt. rewrite in_step_panels, S. apply in_shown_panels.
Qed.

(** C1 (amended).  For every payload, catalog and reveal index the
    composer returns a message, and its step panels are exactly the panels
    of the catalog entries whose index is strictly below the reveal index
    and whose StepResult is present in the payload and is not an empty
    object, in catalog order ([shown_panels]); the panel of an entry at or
    beyond the reveal index is withheld whatever the payload holds. *)
Theorem composed_step_panels
    (token : str) (metadata : dict str) (metrics : dict (option float))
    (a : analysis) (cs ts : nat) (sc : bool) :
  exists lines,
    compose_lines num_str catalog token metadata metrics a cs ts sc = Ok lines
    /\ step_panels lines = shown_panels catalog a cs ts
    /\ (forall k txt,
          In (BStep k, txt) lines
          <-> (k < cs)%nat
              /\ exists s d,
                   nth_error catalog k = Some s
                   /\ dict_get (a_steps a) (key s) = Some d
                   /\ d <> []
                   /\ txt = format_analysis_step catalog (key s) d k ts).
Proof. apply compose_lines_panels. Qed.

(** C3.  Reveal monotonicity: with the other inputs of the composer held
    fixed and reveal indices [i < j], the composer returns at both, and
    every step panel of the message composed at [i] is a step panel of the
    message composed at [j]. *)
Theorem reveal_monotone
    (token : str) (metadata : dict str) (metrics : dict (option float))
    (a : analysis) (i j ts : nat) (sc : bool) :
  (i < j)%nat ->
  exists lines_i lines_j,
    compose_lines num_str catalog token metadata metrics a i ts sc = Ok lines_i
    /\ compose_lines num_str catalog token metadata metrics a j ts sc = Ok lines_j
    /\ forall k txt, In (BStep k, txt) lines_i -> In (BStep k, txt) lines_j.
Proof.
  intros Hij.
  destruct (compose_lines_panels token metadata metrics a i ts sc)
    as (li & Ei & _ & Hi).
  destruct (compose_lines_panels token metadata metrics a j ts sc)
    as (lj & Ej & _ & Hj).
  exists li, lj. split; [exact Ei|]. split; [exact Ej|].
  intros k txt H. apply Hi in H. apply Hj.
  destruct H as [Hk H]. split; [lia | exact H].
Qed.

(** C2 (amended).  When the analysis object of the payload has at least
    one key, the reveal index is strictly below the number of steps and
    completion is not forced, the composed message ends with the
    in-progress line followed by the progress bar. *)
Theorem progress_shown_last
    (token : str) (metadata : dict str) (metrics : dict (option float))
    (a : analysis) (cs ts : nat) :
  analysis_truthy a = true ->
  (cs < ts)%nat ->
  exists before bar,
    format_progress_bar (Z.of_nat cs) (Z.of_nat ts) = Ok bar
    /\ compose_lines num_str catalog token metadata metrics a cs ts false
       = Ok (before ++ [ (BProgressLine, progress_line_text cs ts);
                         (BProgressBar, bar) ])
    /\ format_analysis_message num_str catalog token metadata metrics a cs ts false
       = Ok (join nl (List.map snd before)
             ++ nl ++ progress_line_text cs ts ++ nl ++ bar).
Proof.
  intros T Hlt.
  destruct (compose_lines_shape num_str catalog token metadata metrics a cs ts false)
    as (progress & E & P).
  rewrite T in E, P. cbn [andb negb] in P. rewrite andb_true_r in P.
  destruct (Nat.ltb_spec cs ts) as [_|]; [|lia].
  destruct P as (bar & Eb & ->).
  assert (Hp : predictions_lines num_str a cs ts false = []).
  { unfold predictions_lines. destruct (Nat.leb_spec ts cs); [lia | reflexivity]. }
  rewrite Hp in E. cbn [verdict_lines] in E. rewrite !app_nil_r in E.
  rewrite app_assoc in E.
  exists (header_lines token metadata metrics
          ++ results_lines (shown_panels catalog a cs ts)), bar.
  split; [exact Eb|]. split; [exact E|].
  unfold format_analysis_message. rewrite E. cbn [bind]. f_equal.
  rewrite map_app. rewrite join_app; [reflexivity | | discriminate].
  cbn [header_lines List.map]. discriminate.
Qed.

End ComposerClaims.

(** A payload whose [bundles] StepResult is an empty object: the
    StepResult is present and its index 0 is below the reveal index 1, and
    the composed message has no step panel. *)
Lemma empty_step_result_is_withheld :
  dict_get (a_steps empty_bundles) (u "bundles") = Some []
  /\ present_panels ANALYSIS_STEPS empty_bundles 1 8
     = [(BStep 0, format_analysis_step ANALYSIS_STEPS (u "bundles") [] 0 8)]
  /\ exists lines,
       compose_lines (fun _ => []) ANALYSIS_STEPS (u "T") [] [] empty_bundles 1 8 false
       = Ok lines
       /\ step_panels lines = []
       /\ step_panels lines <> present_panels ANALYSIS_STEPS empty_bundles 1 8.
Proof.
  split; [reflexivity|]. split; [vm_compute; reflexivity|].
  destruct (compose_lines_panels (fun _ => []) ANALYSIS_STEPS (u "T") [] []
              empty_bundles 1 8 false) as (lines & E & S & _).
  exists lines. split; [exact E|].
  assert (H : step_panels lines = []) by (rewrite S; vm_compute; reflexivity).
  split; [exact H|]. rewrite H. vm_compute. discriminate.
Qed.

(** With an analysis object without keys the composer stops after the
    overview: at reveal index 0 of 8, completion not forced, the message
    has no in-progress line and no progress bar. *)
Lemma empty_analysis_shows_no_progress :
  (0 < 8)%nat
  /\ compose_lines (fun _ => []) ANALYSIS_STEPS (u "T") [] [] empty_analysis 0 8 false
     = Ok (header_lines (u "T") [] [])
  /\ ~ In BProgressBar (kinds (header_lines (u "T") [] []))
  /\ ~ In BProgressLine (kinds (header_lines (u "T") [] [])).
Proof.
  split; [lia|]. split; [reflexivity|].
  split; intros H; cbn in H; intuition discriminate.
Qed.

(* ------------------------------------------------------------------ *)
(** ** The update sequencer: traces *)

Section TraceFacts.

Variable exn_str : exn -> str.
Variable lower : str -> str.
Variable E : env.

Local Abbreviation fatal_free := (fatal_free exn_str lower E).
Local Abbreviation raised_by := (raised_by exn_str lower E).
Local Abbreviation outcome := (outcome exn_str lower E).
Local Abbreviation trace_spec := (trace_spec exn_str lower E).

Lemma count_edits_app a b : count_edits (a ++ b) = (count_edits a + count_edits b)%nat.
Proof. unfold count_edits. rewrite filter_app, length_app. reflexivity. Qed.

Lemma count_edits_one ev :
  count_edits [ev] = if is_edit ev then 1%nat else 0%nat.
Proof. unfold count_edits. cbn [filter]. destruct (is_edit ev); reflexivity. Qed.

Lemma fatal_free_app new1 : forall n new2,
  fatal_free n (new1 ++ new2)
  <-> fatal_free n new1 /\ fatal_free (n + count_edits new1) new2.
Proof.
  induction new1 as [|ev rest IH]; intros n new2.
  - cbn [app fatal_free]. unfold count_edits. cbn. rewrite Nat.add_0_r. tauto.
  - destruct ev; cbn [app fatal_free];
      try (rewrite IH; unfold count_edits; cbn [filter is_edit]; tauto).
    rewrite IH. unfold count_edits. cbn [filter is_edit length].
    replace (n + S (length (filter is_edit rest)))%nat
      with (S n + length (filter is_edit rest))%nat by lia.
    tauto.
Qed.

Lemma outcome_app {A B} n new1 new2 (a : A) (r : result B) :
  outcome n new1 (Ok a) -> outcome (n + count_edits new1) new2 r ->
  outcome n (new1 ++ new2) r.
Proof.
  intros H1 H2. destruct r as [b|e]; cbn [outcome] in *.
  - apply fatal_free_app. split; assumption.
  - destruct H2 as [H2 | (new' & k & t & -> & F & Ee & Es)].
    + left. apply fatal_free_app. split; assumption.
    + right. exists (new1 ++ new'), k, t.
      rewrite app_assoc. split; [reflexivity|].
      split; [apply fatal_free_app; split; assumption|].
      rewrite count_edits_app, Nat.add_assoc. split; assumption.
Qed.

Lemma trace_spec_ret {A} (a : A) : trace_spec (ret a).
Proof.
  intros w r w' [= <- <-] S. exists []. rewrite app_nil_r.
  repeat split; auto.
Qed.

Lemma trace_spec_raise {A} e : trace_spec (@raise A e).
Proof.
  intros w r w' [= <- <-] S. exists []. rewrite app_nil_r.
  repeat split; auto. left. exact I.
Qed.

Lemma trace_spec_lift {A} (x : result A) : trace_spec (lift x).
Proof.
  intros w r w' [= <- <-] S. exists []. rewrite app_nil_r.
  split; [reflexivity|]. split; [assumption|].
  destruct x; cbn; [exact I | left; exact I].
Qed.

Lemma trace_spec_bind {A B} (c : prog A) (k : A -> prog B) :
  trace_spec c -> (forall a, trace_spec (k a)) -> trace_spec (pbind c k).
Proof.
  intros Hc Hk w r w' Hrun S. unfold pbind in Hrun.
  destruct (c w) as [[a|e] w1] eqn:Ec.
  - destruct (Hc _ _ _ Ec S) as (new1 & T1 & S1 & O1).
    destruct (Hk a _ _ _ Hrun S1) as (new2 & T2 & S2 & O2).
    exists (new1 ++ new2). rewrite T2, T1, <- app_assoc.
    split; [reflexivity|]. split; [assumption|].
    eapply outcome_app; [exact O1|].
    replace (edits w + count_edits new1)%nat with (edits w1); [exact O2|].
    unfold in_sync in *. rewrite S1, T1, count_edits_app, <- S. reflexivity.
  - injection Hrun as <- <-.
    destruct (Hc _ _ _ Ec S) as (new1 & T1 & S1 & O1).
    exists new1. auto.
Qed.

Lemma trace_spec_emit ev : is_edit ev = false -> trace_spec (emit ev).
Proof.
  intros Hev w r w' [= <- <-] S. exists [ev]. cbn [trace edits].
  split; [reflexivity|]. split.
  - unfold in_sync in *. cbn [trace edits].
    rewrite count_edits_app, count_edits_one, Hev, S. lia.
  - cbn [outcome]. destruct ev; try exact I. discriminate.
Qed.

Lemma do_edit_run k text w :
  do_edit E k text w
  = (match edit_text E (edits w) text with Some e => Raise e | None => Ok tt end,
     {| trace := trace w ++ [EvEdit k text]; edits := S (edits w) |}).
Proof. unfold do_edit. destruct (edit_text E (edits w) text); reflexivity. Qed.

Lemma in_sync_edit w k text :
  in_sync w ->
  in_sync {| trace := trace w ++ [EvEdit k text]; edits := S (edits w) |}.
Proof.
  unfold in_sync. cbn [trace edits]. intros ->.
  rewrite count_edits_app, count_edits_one. cbn [is_edit]. lia.
Qed.

(** An edit that is not guarded escalates whenever it fails. *)
Lemma trace_spec_do_edit k text :
  (forall i c, k <> KProgress i c) -> trace_spec (do_edit E k text).
Proof.
  intros Hk w r w' Hrun S. rewrite do_edit_run in Hrun.
  injection Hrun as <- <-. exists [EvEdit k text]. cbn [trace edits].
  split; [reflexivity|]. split; [apply in_sync_edit; assumption|].
  destruct (edit_text E (edits w) text) as [e|] eqn:Ee; cbn [outcome].
  - right. exists [], k, text. cbn [app]. split; [reflexivity|].
    split; [exact I|]. unfold count_edits. cbn. rewrite Nat.add_0_r.
    split; [exact Ee|]. destruct k; try reflexivity. exfalso. eapply Hk. reflexivity.
  - cbn [fatal_free]. rewrite Ee. split; [reflexivity | exact I].
Qed.

(** A guarded edit lets the benign failures pass. *)
Lemma guarded_edit_run i c text w :
  guarded_edit exn_str lower E (KProgress i c) (Ok text) w
  = (match edit_text E (edits w) text with
     | None => Ok tt
     | Some e => if benign exn_str lower e then Ok tt else Raise e
     end,
     {| trace := trace w ++ [EvEdit (KProgress i c) text];
        edits := S (edits w) |}).
Proof.
  unfold guarded_edit, try_catch, pbind, lift. rewrite do_edit_run.
  destruct (edit_text E (edits w) text) as [e|]; [|reflexivity].
  destruct e; try reflexivity.
  unfold benign. destruct (not_modified exn_str lower (TelegramError msg)); reflexivity.
Qed.

Lemma trace_spec_guarded_edit i c text :
  trace_spec (guarded_edit exn_str lower E (KProgress i c) (Ok text)).
Proof.
  intros w r w' Hrun S. rewrite guarded_edit_run in Hrun.
  injection Hrun as <- <-. exists [EvEdit (KProgress i c) text]. cbn [trace edits].
  split; [reflexivity|]. split; [apply in_sync_edit; assumption|].
  destruct (edit_text E (edits w) text) as [e|] eqn:Ee.
  - destruct (benign exn_str lower e) eqn:Be; cbn [outcome].
    + cbn [fatal_free]. rewrite Ee. cbn [escalates]. rewrite Be.
      split; [reflexivity | exact I].
    + right. exists [], (KProgress i c), text. cbn [app]. split; [reflexivity|].
      split; [exact I|]. unfold count_edits. cbn [filter length]. rewrite Nat.add_0_r.
      split; [exact Ee|]. cbn [escalates]. rewrite Be. reflexivity.
  - cbn [outcome fatal_free]. rewrite Ee. split; [reflexivity | exact I].
Qed.


Lemma fatal_free_at new : forall n pre k t rest,
  fatal_free n new -> new = pre ++ EvEdit k t :: rest ->
  escalates exn_str lower k (edit_text E (n + count_edits pre) t) = false.
Proof.
  intros n pre k t rest F ->. apply fatal_free_app in F.
  destruct F as [_ F]. cbn [fatal_free] in F. apply F.
Qed.

Lemma list_last_cases {A} (l : list A) :
  l = [] \/ exists l' z, l = l' ++ [z].
Proof.
  induction l as [|a l IH]; [left; reflexivity|]. right.
  destruct IH as [-> | (l' & z & ->)].
  - exists [], a. reflexivity.
  - exists (a :: l'), z. reflexivity.
Qed.

Lemma split_last {A} (pre : list A) x rest X y :
  pre ++ x :: rest = X ++ [y] ->
  (rest = [] /\ pre = X /\ x = y)
  \/ exists rest', rest = rest' ++ [y] /\ X = pre ++ x :: rest'.
Proof.
  intros H. destruct (list_last_cases rest) as [-> | (rest' & z & ->)]; [left|right].
  - apply app_inj_tail in H. destruct H as [-> ->]. auto.
  - exists rest'.
    change (pre ++ x :: rest' ++ [z]) with (pre ++ (x :: rest') ++ [z]) in H.
    rewrite app_assoc in H. apply app_inj_tail in H. destruct H as [<- ->].
    split; reflexivity.
Qed.

End TraceFacts.

Section SequencerFacts.

Variable num_str : float -> str.
Variable exn_str : exn -> str.
Variable lower : str -> str.
Variable catalog : list step_def.
Variable E : env.

Local Abbreviation trace_spec := (trace_spec exn_str lower E).

Lemma format_analysis_message_total token metadata metrics a cs ts sc :
  exists text,
    format_analysis_message num_str catalog token metadata metrics a cs ts sc
    = Ok text.
Proof.
  destruct (compose_lines_shape num_str catalog token metadata metrics a cs ts sc)
    as (progress & Ec & _).
  unfold format_analysis_message. rewrite Ec. cbn [bind]. eauto.
Qed.

Lemma trace_spec_progress_edit token metadata metrics a cs sc :
  trace_spec (progress_edit num_str exn_str lower catalog E
                token metadata metrics a cs sc).
Proof.
  unfold progress_edit.
  destruct (format_analysis_message_total token metadata metrics a cs
              (length catalog) sc) as (text & ->).
  apply trace_spec_guarded_edit.
Qed.

Lemma trace_spec_sleep s : trace_spec (sleep s).
Proof. apply trace_spec_emit. reflexivity. Qed.

Lemma trace_spec_step_updates token metadata metrics a steps : forall i,
  trace_spec (step_updates num_str exn_str lower catalog E
                token metadata metrics a steps i).
Proof.
  induction steps as [|s rest IH]; intros i; cbn [step_updates].
  - apply trace_spec_ret.
  - apply trace_spec_bind; [apply trace_spec_sleep | intros _].
    apply trace_spec_bind; [|intros _; apply IH].
    destruct (step_data_of a (key s));
      [apply trace_spec_progress_edit | apply trace_spec_ret].
Qed.

Lemma trace_spec_reveal token metadata metrics a :
  trace_spec (reveal num_str exn_str lower catalog E token metadata metrics a).
Proof.
  unfold reveal.
  apply trace_spec_bind; [apply trace_spec_progress_edit | intros _].
  apply trace_spec_bind; [apply trace_spec_step_updates | intros _].
  apply trace_spec_bind; [|intros _].
  - destruct (predictions_of a); [|apply trace_spec_ret].
    apply trace_spec_bind; [apply trace_spec_sleep | intros _].
    apply trace_spec_progress_edit.
  - destruct (a_overallProbability a); [|apply trace_spec_ret].
    apply trace_spec_bind; [apply trace_spec_sleep | intros _].
    apply trace_spec_progress_edit.
Qed.

Lemma trace_spec_request_and_reveal token :
  trace_spec (request_and_reveal num_str exn_str lower catalog E token).
Proof.
  unfold request_and_reveal.
  apply trace_spec_bind; [apply trace_spec_emit; reflexivity | intros _].
  destruct (post E token).
  - apply trace_spec_raise.
  - apply trace_spec_do_edit. discriminate.
  - apply trace_spec_reveal.
Qed.

(** The report is one edit that is not a progress edit. *)
Lemma report_run e w :
  exists k text,
    (forall i c, k <> KProgress i c)
    /\ (forall m, e = TelegramError m ->
        k = KUnexpected /\ text = unexpected_error_text exn_str e)
    /\ report exn_str E e w = do_edit E k text w.
Proof.
  destruct e;
    [ exists KUnexpected | exists KUnexpected | exists KUnexpected
    | exists KUnexpected | exists KTimeout | exists KNetworkError
    | exists KUnexpected ];
    eexists; (split; [discriminate|]); (split; [|reflexivity]);
    intros m' Hm; try discriminate; split; reflexivity.
Qed.

Lemma no_edit_in_reply k text pre k' t rest :
  [EvReply k text] = pre ++ EvEdit k' t :: rest -> False.
Proof.
  destruct pre as [|x [|y pre]]; cbn; intros H; discriminate.
Qed.

(** A progress edit rejected for another reason than an unchanged content
    is followed by the report of an unexpected error, and by nothing
    more. *)
Lemma escalation_ends_the_run (text : str) r tr pre cs sc t rest m :
  run num_str exn_str lower catalog E text = (r, tr) ->
  tr = pre ++ EvEdit (KProgress cs sc) t :: rest ->
  edit_text E (count_edits pre) t = Some (TelegramError m) ->
  not_modified exn_str lower (TelegramError m) = false ->
  rest = [EvEdit KUnexpected
            (unexpected_error_text exn_str (TelegramError m))].
Proof.
  unfold run, handle_token_address. intros Hrun Htr Hfail Hnm.
  assert (Hesc : escalates exn_str lower (KProgress cs sc)
                   (edit_text E (count_edits pre) t) = true).
  { rewrite Hfail. cbn [escalates benign]. rewrite Hnm. reflexivity. }
  destruct (negb (is_valid_solana_address (strip text))).
  - (* invalid address: a reply and no edit *)
    unfold do_reply, pbind, emit in Hrun. cbn [start trace edits app] in Hrun.
    destruct (reply_text E KInvalidAddress _); cbn in Hrun;
      injection Hrun as _ <-; exfalso; eapply no_edit_in_reply; exact Htr.
  - unfold pbind at 1 in Hrun.
    unfold do_reply, pbind, emit in Hrun. cbn [start trace edits app] in Hrun.
    set (w1 := {| trace := [EvReply KInitial (initial_text (strip text))];
                  edits := 0 |}) in *.
    destruct (reply_text E KInitial _); cbn [raise ret] in Hrun.
    + injection Hrun as _ <-. exfalso. eapply no_edit_in_reply. exact Htr.
    + unfold try_catch in Hrun.
      destruct (request_and_reveal num_str exn_str lower catalog E (strip text) w1)
        as [rb w2] eqn:Eb.
      assert (S1 : in_sync w1) by reflexivity.
      destruct (trace_spec_request_and_reveal _ _ _ _ Eb S1) as (new & T & S2 & O).
      cbn [w1 trace edits] in T, O.
      destruct rb as [[]|e].
      * (* the sequence ran to its end: no edit escalated *)
        injection Hrun as _ <-. exfalso. cbn [outcome] in O.
        rewrite T in Htr.
        pose proof (fatal_free_at exn_str lower E
                      (EvReply KInitial (initial_text (strip text)) :: new)
                      0%nat pre _ t rest O Htr) as F.
        cbn [Nat.add] in F. congruence.
      * destruct (report_run e w2) as (kr & txt & Hkr & Hte & Er).
        rewrite Er, do_edit_run in Hrun. injection Hrun as _ <-.
        cbn [trace] in Htr. rewrite T in Htr.
        symmetry in Htr. apply split_last in Htr.
        destruct Htr as [(_ & _ & Hev) | (rest' & -> & HX)].
        { exfalso. injection Hev as Hk _. eapply Hkr. symmetry. exact Hk. }
        cbn [outcome] in O. destruct O as [F | (new' & k0 & t0 & -> & F & Ee & Es)].
        -- exfalso.
           pose proof (fatal_free_at exn_str lower E
                         (EvReply KInitial (initial_text (strip text)) :: new)
                         0%nat pre _ t rest' F HX) as F'.
           cbn [Nat.add] in F'. congruence.
        -- rewrite app_assoc in HX. symmetry in HX. apply split_last in HX.
           destruct HX as [(-> & -> & Hev) | (rest'' & -> & HX)].
           ++ injection Hev as <- <-.
              rewrite count_edits_app, count_edits_one in Hfail.
              cbn [is_edit Nat.add] in Hfail.
              cbn [Nat.add] in Ee. rewrite Ee in Hfail. injection Hfail as ->.
              destruct (Hte m eq_refl) as [-> ->]. reflexivity.
           ++ exfalso.
              pose proof (fatal_free_at exn_str lower E
                            (EvReply KInitial (initial_text (strip text)) :: new')
                            0%nat pre _ t rest'' F HX) as F'.
              cbn [Nat.add] in F'. congruence.
Qed.

End SequencerFacts.

(* ------------------------------------------------------------------ *)
(** ** The update sequencer: benign failures and the reveal invariant *)

Section ForgiveFacts.

Variable num_str : float -> str.
Variable exn_str : exn -> str.
Variable lower : str -> str.
Variable catalog : list step_def.
Variable E : env.

Local Abbreviation E' := (forgive exn_str lower E).

Lemma pbind_ext {A B} (c1 c2 : prog A) (k1 k2 : A -> prog B) :
  (forall w, c1 w = c2 w) -> (forall a w, k1 a w = k2 a w) ->
  forall w, pbind c1 k1 w = pbind c2 k2 w.
Proof.
  intros Hc Hk w. unfold pbind. rewrite Hc.
  destruct (c2 w) as [[a|e] w']; [apply Hk | reflexivity].
Qed.

Lemma guarded_edit_forgive k message w :
  guarded_edit exn_str lower E' k message w
  = guarded_edit exn_str lower E k message w.
Proof.
  unfold guarded_edit, try_catch, pbind, lift.
  destruct message as [text|e]; [|reflexivity].
  rewrite !do_edit_run. cbn [forgive edit_text].
  destruct (edit_text E (edits w) text) as [e|]; [|reflexivity].
  destruct e; cbn [benign]; try reflexivity.
  destruct (not_modified exn_str lower (TelegramError msg)) eqn:N;
    cbn [ret raise]; [|rewrite N]; reflexivity.
Qed.

Lemma step_updates_forgive token metadata metrics a steps : forall i w,
  step_updates num_str exn_str lower catalog E' token metadata metrics a steps i w
  = step_updates num_str exn_str lower catalog E token metadata metrics a steps i w.
Proof.
  induction steps as [|s rest IH]; intros i w; [reflexivity|].
  cbn [step_updates]. apply pbind_ext; [reflexivity | intros _ w1].
  apply pbind_ext; [|intros _ w2; apply IH].
  intros w2. destruct (step_data_of a (key s)); [|reflexivity].
  apply guarded_edit_forgive.
Qed.

Lemma reveal_forgive token metadata metrics a w :
  reveal num_str exn_str lower catalog E' token metadata metrics a w
  = reveal num_str exn_str lower catalog E token metadata metrics a w.
Proof.
  unfold reveal.
  apply pbind_ext; [intros w1; apply guarded_edit_forgive | intros _ w1].
  apply pbind_ext; [intros w2; apply step_updates_forgive | intros _ w2].
  apply pbind_ext; [intros w3 | intros _ w3].
  - destruct (predictions_of a); [|reflexivity].
    apply pbind_ext; [reflexivity | intros _ w4]. apply guarded_edit_forgive.
  - destruct (a_overallProbability a); [|reflexivity].
    apply pbind_ext; [reflexivity | intros _ w4]. apply guarded_edit_forgive.
Qed.

End ForgiveFacts.

Section InvariantFacts.

Variable num_str : float -> str.
Variable exn_str : exn -> str.
Variable lower : str -> str.
Variable catalog : list step_def.
Variable E : env.
Variable P : event -> Prop.

Lemma preserves_ret {A} (a : A) : preserves P (ret a).
Proof. intros w r w' [= <- <-] H. exact H. Qed.

Lemma preserves_raise {A} e : preserves P (@raise A e).
Proof. intros w r w' [= <- <-] H. exact H. Qed.

Lemma preserves_lift {A} (x : result A) : preserves P (lift x).
Proof. intros w r w' [= <- <-] H. exact H. Qed.

Lemma preserves_bind {A B} (c : prog A) (k : A -> prog B) :
  preserves P c -> (forall a, preserves P (k a)) -> preserves P (pbind c k).
Proof.
  intros Hc Hk w r w' Hrun H. unfold pbind in Hrun.
  destruct (c w) as [[a|e] w1] eqn:Ec.
  - eapply Hk; [exact Hrun|]. eapply Hc; eauto.
  - injection Hrun as <- <-. eapply Hc; eauto.
Qed.

Lemma preserves_try {A} (c : prog A) (h : exn -> prog A) :
  preserves P c -> (forall e, preserves P (h e)) -> preserves P (try_catch c h).
Proof.
  intros Hc Hh w r w' Hrun H. unfold try_catch in Hrun.
  destruct (c w) as [[a|e] w1] eqn:Ec.
  - injection Hrun as <- <-. eapply Hc; eauto.
  - eapply Hh; [exact Hrun|]. eapply Hc; eauto.
Qed.

Lemma preserves_emit ev : P ev -> preserves P (emit ev).
Proof.
  intros Hev w r w' [= <- <-] H. cbn [trace].
  apply Forall_app. split; [exact H | constructor; [exact Hev | constructor]].
Qed.

Lemma preserves_do_edit k text : P (EvEdit k text) -> preserves P (do_edit E k text).
Proof.
  intros Hev w r w' Hrun H. rewrite do_edit_run in Hrun.
  injection Hrun as <- <-. cbn [trace].
  apply Forall_app. split; [exact H | constructor; [exact Hev | constructor]].
Qed.

Lemma preserves_do_reply k text : P (EvReply k text) -> preserves P (do_reply E k text).
Proof.
  intros Hev. unfold do_reply.
  apply preserves_bind; [apply preserves_emit; exact Hev | intros _].
  destruct (reply_text E k text); [apply preserves_raise | apply preserves_ret].
Qed.

Lemma preserves_guarded_edit k message :
  (forall text, message = Ok text -> P (EvEdit k text)) ->
  preserves P (guarded_edit exn_str lower E k message).
Proof.
  intros Hev w r w' Hrun H.
  unfold guarded_edit, try_catch, pbind, lift in Hrun.
  destruct message as [text|e].
  - rewrite do_edit_run in Hrun.
    assert (H' : Forall P (trace w ++ [EvEdit k text])).
    { apply Forall_app. split; [exact H|].
      constructor; [apply Hev; reflexivity | constructor]. }
    destruct (edit_text E (edits w) text) as [e|].
    + destruct e; try (injection Hrun as <- <-; exact H').
      destruct (not_modified exn_str lower (TelegramError msg));
        injection Hrun as <- <-; exact H'.
    + injection Hrun as <- <-. exact H'.
  - destruct e; try (injection Hrun as <- <-; exact H).
    destruct (not_modified exn_str lower (TelegramError msg));
      injection Hrun as <- <-; exact H.
Qed.

Section Run.

Variable token : str.
Hypothesis P_other : forall ev,
  (forall cs sc text, ev <> EvEdit (KProgress cs sc) text) -> P ev.
Variable metadata : dict str.
Variable metrics : dict (option float).
Variable a : analysis.
Hypothesis P_progress : forall cs sc text,
  format_analysis_message num_str catalog token metadata metrics a
    cs (length catalog) sc = Ok text ->
  (cs <= length catalog)%nat ->
  (sc = true -> cs = length catalog) ->
  P (EvEdit (KProgress cs sc) text).

Lemma preserves_progress_edit cs sc :
  (cs <= length catalog)%nat -> (sc = true -> cs = length catalog) ->
  preserves P (progress_edit num_str exn_str lower catalog E
                 token metadata metrics a cs sc).
Proof.
  intros Hc Hs. unfold progress_edit. apply preserves_guarded_edit.
  intros text Ht. apply P_progress; assumption.
Qed.

Lemma preserves_sleep s : preserves P (sleep s).
Proof. apply preserves_emit. apply P_other. discriminate. Qed.

Lemma preserves_step_updates steps : forall i,
  (i + length steps = S (length catalog))%nat ->
  preserves P (step_updates num_str exn_str lower catalog E
                 token metadata metrics a steps i).
Proof.
  induction steps as [|s rest IH]; intros i Hi; cbn [step_updates].
  - apply preserves_ret.
  - cbn [length] in Hi.
    apply preserves_bind; [apply preserves_sleep | intros _].
    apply preserves_bind; [|intros _; apply IH; lia].
    destruct (step_data_of a (key s)); [|apply preserves_ret].
    apply preserves_progress_edit; [lia | discriminate].
Qed.

Lemma preserves_reveal :
  preserves P (reveal num_str exn_str lower catalog E token metadata metrics a).
Proof.
  unfold reveal.
  apply preserves_bind;
    [apply preserves_progress_edit; [lia | discriminate] | intros _].
  apply preserves_bind; [apply preserves_step_updates; lia | intros _].
  apply preserves_bind; [|intros _].
  - destruct (predictions_of a); [|apply preserves_ret].
    apply preserves_bind; [apply preserves_sleep | intros _].
    apply preserves_progress_edit; [lia | discriminate].
  - destruct (a_overallProbability a); [|apply preserves_ret].
    apply preserves_bind; [apply preserves_sleep | intros _].
    apply preserves_progress_edit; [lia | reflexivity].
Qed.

End Run.

End InvariantFacts.

Section SequencerInvariant.

Variable num_str : float -> str.
Variable exn_str : exn -> str.
Variable lower : str -> str.
Variable catalog : list step_def.
Variable E : env.

Lemma run_progress_edits (text : str) :
  Forall (progress_edit_ok num_str catalog E (strip text))
         (snd (run num_str exn_str lower catalog E text)).
Proof.
  unfold run.
  destruct (handle_token_address num_str exn_str lower catalog E text start)
    as [r w] eqn:Hrun. cbn [snd].
  set (P := progress_edit_ok num_str catalog E (strip text)).
  assert (Hother : forall ev,
             (forall cs sc t, ev <> EvEdit (KProgress cs sc) t) -> P ev).
  { intros ev Hev. destruct ev as [| | |k t]; try exact I.
    destruct k; try exact I. exfalso. eapply Hev. reflexivity. }
  assert (Hp : preserves P (handle_token_address num_str exn_str lower catalog E text)).
  { unfold handle_token_address.
    destruct (negb (is_valid_solana_address (strip text))).
    - apply preserves_do_reply. apply Hother. discriminate.
    - apply preserves_bind;
        [apply preserves_do_reply; apply Hother; discriminate | intros _].
      apply preserves_try.
      + unfold request_and_reveal.
        apply preserves_bind;
          [apply preserves_emit; apply Hother; discriminate | intros _].
        destruct (post E (strip text)) as [e|msg|metadata metrics a] eqn:Ep.
        * apply preserves_raise.
        * apply preserves_do_edit. apply Hother. discriminate.
        * apply preserves_reveal; [exact Hother|].
          intros cs sc t Hf Hc Hs. unfold P, progress_edit_ok.
          rewrite Ep. auto.
      + intros e. destruct e; cbn [report];
          apply preserves_do_edit; apply Hother; discriminate. }
  eapply Hp; [exact Hrun | constructor].
Qed.

End SequencerInvariant.

Section LatePanels.

Variable num_str : float -> str.
Variable catalog : list step_def.

Lemma kinds_app l1 l2 : kinds (l1 ++ l2) = kinds l1 ++ kinds l2.
Proof. apply map_app. Qed.

Lemma shown_panels_kinds a cs ts b :
  In b (kinds (shown_panels catalog a cs ts)) -> exists i, b = BStep i.
Proof.
  unfold kinds. rewrite in_map_iff. intros ([b' txt] & <- & H).
  apply in_step_panels in H || idtac.
  rewrite <- shown_panels_steps in H. unfold step_panels in H.
  apply filter_In in H. destruct H as [_ H]. unfold is_step_line in H.
  cbn [fst] in *. destruct b'; try discriminate. eauto.
Qed.

(** The predictions panel needs the reveal index at the end of the
    catalog or a forced completion; the verdict panel needs a forced
    completion. *)
Lemma late_panels token metadata metrics a cs ts sc lines :
  compose_lines num_str catalog token metadata metrics a cs ts sc = Ok lines ->
  (In BPredictions (kinds lines) -> (ts <= cs)%nat \/ sc = true)
  /\ (In BVerdict (kinds lines) -> sc = true).
Proof.
  destruct (compose_lines_shape num_str catalog token metadata metrics a cs ts sc)
    as (progress & E & P).
  rewrite E. intros H. apply Ok_inj in H. subst lines.
  assert (Hh : forall b, In b (kinds (header_lines token metadata metrics)) ->
                         b <> BPredictions /\ b <> BVerdict).
  { intros b Hb. cbn in Hb.
    destruct Hb as [<-|[<-|[<-|[<-|[]]]]]; split; discriminate. }
  assert (Hr : forall b, In b (kinds (results_lines (shown_panels catalog a cs ts))) ->
                         b <> BPredictions /\ b <> BVerdict).
  { intros b Hb. unfold results_lines in Hb.
    destruct (nonempty _); [|contradiction].
    cbn [kinds List.map fst In] in Hb. destruct Hb as [<-|Hb]; [split; discriminate|].
    apply shown_panels_kinds in Hb. destruct Hb as (i & ->). split; discriminate. }
  assert (Hg : forall b, In b (kinds progress) ->
                         b <> BPredictions /\ b <> BVerdict).
  { intros b Hb. destruct (analysis_truthy a && _).
    - destruct P as (bar & _ & ->). cbn in Hb.
      destruct Hb as [<-|[<-|[]]]; split; discriminate.
    - subst. contradiction. }
  assert (Hq : forall b, In b (kinds (predictions_lines num_str a cs ts sc)) ->
                         b = BPredictions /\ ((ts <= cs)%nat \/ sc = true)).
  { intros b Hb. unfold predictions_lines in Hb.
    destruct ((ts <=? cs)%nat || sc) eqn:G; [|contradiction].
    destruct (predictions_of a); [|contradiction].
    cbn in Hb. destruct Hb as [<-|[]]. split; [reflexivity|].
    apply orb_true_iff in G. destruct G as [G|G]; [left; apply Nat.leb_le; exact G | right; exact G]. }
  assert (Hv : forall b, In b (kinds (verdict_lines num_str a sc)) ->
                         b = BVerdict /\ sc = true).
  { intros b Hb. unfold verdict_lines in Hb.
    destruct sc; [|contradiction].
    destruct (a_overallProbability a); [|contradiction].
    cbn in Hb. destruct Hb as [<-|[]]. split; reflexivity. }
  assert (Hall : forall b, In b (kinds
            (header_lines token metadata metrics ++
             (if analysis_truthy a
              then results_lines (shown_panels catalog a cs ts) ++ progress ++
                   predictions_lines num_str a cs ts sc ++ verdict_lines num_str a sc
              else []))) ->
            (b = BPredictions -> (ts <= cs)%nat \/ sc = true)
            /\ (b = BVerdict -> sc = true)).
  { intros b Hb. rewrite kinds_app in Hb. apply in_app_iff in Hb.
    destruct Hb as [Hb|Hb]; [apply Hh in Hb; split; intros; tauto|].
    destruct (analysis_truthy a); [|contradiction].
    rewrite !kinds_app, !in_app_iff in Hb.
    destruct Hb as [Hb|[Hb|[Hb|Hb]]].
    - apply Hr in Hb. split; intros; tauto.
    - apply Hg in Hb. split; intros; tauto.
    - apply Hq in Hb. destruct Hb as [-> Hb]. split; [auto | discriminate].
    - apply Hv in Hb. destruct Hb as [-> Hb]. split; [discriminate | auto]. }
  split; intros Hb; apply Hall in Hb; destruct Hb as [H1 H2]; auto.
Qed.

End LatePanels.

Section SequencerClaims.

Variable num_str : float -> str.
Variable exn_str : exn -> str.
Variable lower : str -> str.
Variable catalog : list step_def.
Variable E : env.

(** C4.  Every progress message of a run of the handler is the message
    composed from the response at a reveal index within the catalog; while
    that index is strictly below the catalog length the message holds
    neither the predictions panel nor the verdict panel, and a message
    that holds one of them was composed at the catalog length. *)
Theorem predictions_and_verdict_wait (text : str) (cs : nat) (sc : bool)
    (msg : str) :
  In (EvEdit (KProgress cs sc) msg)
     (snd (run num_str exn_str lower catalog E text)) ->
  exists metadata metrics a lines,
    post E (strip text) = PostOk metadata metrics a
    /\ compose_lines num_str catalog (strip text) metadata metrics a
         cs (length catalog) sc = Ok lines
    /\ msg = join nl (List.map snd lines)
    /\ (cs <= length catalog)%nat
    /\ ((cs < length catalog)%nat ->
        ~ In BPredictions (kinds lines) /\ ~ In BVerdict (kinds lines))
    /\ (In BPredictions (kinds lines) \/ In BVerdict (kinds lines) ->
        cs = length catalog).
Proof.
  intros Hin.
  pose proof (run_progress_edits num_str exn_str lower catalog E text) as F.
  rewrite Forall_forall in F. specialize (F _ Hin).
  unfold progress_edit_ok in F.
  destruct (post E (strip text)) as [e|m|metadata metrics a]; try contradiction.
  destruct F as (Hf & Hc & Hs).
  unfold format_analysis_message in Hf.
  destruct (compose_lines num_str catalog (strip text) metadata metrics a cs
              (length catalog) sc) as [lines|e] eqn:Ec; [|discriminate].
  cbn [bind] in Hf. apply Ok_inj in Hf.
  destruct (late_panels num_str catalog _ _ _ _ _ _ _ _ Ec) as [Lp Lv].
  assert (Hend : In BPredictions (kinds lines) \/ In BVerdict (kinds lines) ->
                 cs = length catalog).
  { intros [H|H].
    - destruct (Lp H) as [H'|H']; [lia | auto].
    - auto. }
  exists metadata, metrics, a, lines.
  split; [reflexivity|]. split; [exact Ec|]. split; [symmetry; exact Hf|].
  split; [exact Hc|]. split; [|exact Hend].
  intros Hlt. split; intros H; [assert (cs = length catalog) by auto | assert (cs = length catalog) by auto]; lia.
Qed.

(** C8.  The sequencer behaves on a transport as it does on the transport
    in which every content-unchanged rejection of an edit is a success
    ([forgive]): such a failure is swallowed.  And when a progress edit of
    a run is rejected with another [TelegramError], the only event after
    it is the edit that reports the unexpected error: the failure is
    escalated and the sequence ends. *)
Theorem edit_failures_swallowed_or_escalated (text : str) :
  (forall token metadata metrics a w,
     reveal num_str exn_str lower catalog E token metadata metrics a w
     = reveal num_str exn_str lower catalog (forgive exn_str lower E)
         token metadata metrics a w)
  /\ (forall r tr pre cs sc t rest m,
        run num_str exn_str lower catalog E text = (r, tr) ->
        tr = pre ++ EvEdit (KProgress cs sc) t :: rest ->
        edit_text E (count_edits pre) t = Some (TelegramError m) ->
        not_modified exn_str lower (TelegramError m) = false ->
        rest = [EvEdit KUnexpected
                  (unexpected_error_text exn_str (TelegramError m))]).
Proof.
  split.
  - intros. symmetry. apply reveal_forgive.
  - intros. eapply escalation_ends_the_run; eauto.
Qed.

End SequencerClaims.

(* ------------------------------------------------------------------ *)
(** ** The scenarios of the specification *)

Example scenario_market_cap :
  format_market_cap (Some (of_Z 2500000)) = u "$2.50M"
  /\ format_market_cap (Some (of_Z 500)) = u "$500"
  /\ format_market_cap (Some (of_Z (-5000))) = u "$-5000"
  /\ format_market_cap (Some (of_Z 999999)) = u "$1000.0K"
  /\ format_market_cap (Some (S754_zero true)) = u "$0".
Proof. repeat split; vm_compute; reflexivity. Qed.

Example scenario_danger_glyph : status_emoji_of (u "danger") = u "❌".
Proof. vm_compute. reflexivity. Qed.

Example scenario_long_token :
  exists lines,
    compose_lines example_num_str ANALYSIS_STEPS
      (example_address ++ u "abcdef") example_metadata example_metrics
      example_analysis 3 8 false = Ok lines
    /\ nth_error lines 1 = Some (BAddress, u "`6V8q5kQkzokNwSxJv8W8...`")
    /\ List.map fst (step_panels lines) = [BStep 0; BStep 1; BStep 2]
    /\ nth_error lines 8
       = Some (BProgressLine, nl ++ u "⏳ Analyzing... (3/8)")
    /\ nth_error lines 9
       = Some (BProgressBar, u "[███████░░░░░░░░░░░░░] 37%").
Proof. eexists. split; [vm_compute; reflexivity|]. repeat split. Qed.

(** The run with the two failures: the rejection of the second edit as
    unchanged leaves no mark, the third edit is attempted as usual. *)
Example scenario_not_modified :
  List.map (fun ev => match ev with
                      | EvEdit k _ => Some k
                      | _ => None
                      end)
    (snd (run example_num_str example_exn_str ascii_lower ANALYSIS_STEPS
            (example_env two_failures) example_address))
  = [ None; None; Some (KProgress 0 false); None; Some (KProgress 1 false);
      None; Some (KProgress 2 false); Some KUnexpected ].
Proof. vm_compute. reflexivity. Qed.

(* ------------------------------------------------------------------ *)
(** ** Instances of the theorems *)

Lemma composed_step_panels_witness :
  exists lines,
    compose_lines example_num_str ANALYSIS_STEPS example_address
      example_metadata example_metrics example_analysis 2 8 false = Ok lines
    /\ In (BStep 1,
           format_analysis_step ANALYSIS_STEPS (u "devHistory")
             (example_step "2 rugs" "danger" "Two earlier tokens of this wallet were abandoned")
             1 8) lines.
Proof.
  destruct (composed_step_panels example_num_str ANALYSIS_STEPS example_address
              example_metadata example_metrics example_analysis 2 8 false)
    as (lines & E & _ & H).
  exists lines. split; [exact E|].
  apply H. split; [lia|].
  eexists; eexists.
  split; [reflexivity|]. split; [reflexivity|]. split; [discriminate | reflexivity].
Defined.

Lemma progress_shown_last_witness :
  analysis_truthy example_analysis = true /\ (3 < 8)%nat
  /\ exists before bar,
       format_progress_bar (Z.of_nat 3) (Z.of_nat 8) = Ok bar
       /\ compose_lines example_num_str ANALYSIS_STEPS example_address
            example_metadata example_metrics example_analysis 3 8 false
          = Ok (before ++ [ (BProgressLine, progress_line_text 3 8);
                            (BProgressBar, bar) ])
       /\ format_analysis_message example_num_str ANALYSIS_STEPS example_address
            example_metadata example_metrics example_analysis 3 8 false
          = Ok (join nl (List.map snd before)
                ++ nl ++ progress_line_text 3 8 ++ nl ++ bar).
Proof.
  assert (H1 : analysis_truthy example_analysis = true) by reflexivity.
  assert (H2 : (3 < 8)%nat) by lia.
  repeat (split; [assumption|]).
  exact (progress_shown_last example_num_str ANALYSIS_STEPS example_address
           example_metadata example_metrics example_analysis 3 8 H1 H2).
Defined.

Lemma reveal_monotone_witness :
  (1 < 3)%nat
  /\ exists lines_i lines_j,
       compose_lines example_num_str ANALYSIS_STEPS example_address
         example_metadata example_metrics example_analysis 1 8 false = Ok lines_i
       /\ compose_lines example_num_str ANALYSIS_STEPS example_address
            example_metadata example_metrics example_analysis 3 8 false = Ok lines_j
       /\ forall k txt, In (BStep k, txt) lines_i -> In (BStep k, txt) lines_j.
Proof.
  split; [lia|].
  apply (reveal_monotone example_num_str ANALYSIS_STEPS example_address
           example_metadata example_metrics example_analysis 1 3 8 false). lia.
Defined.

Lemma predictions_and_verdict_wait_witness :
  In (EvEdit (KProgress 1 false) second_message)
     (snd (run example_num_str example_exn_str ascii_lower
             ANALYSIS_STEPS (example_env no_failure) example_address))
  /\ exists metadata metrics a lines,
       post (example_env no_failure) (strip example_address)
       = PostOk metadata metrics a
       /\ compose_lines example_num_str ANALYSIS_STEPS (strip example_address)
            metadata metrics a 1 (length ANALYSIS_STEPS) false = Ok lines
       /\ second_message = join nl (List.map snd lines)
       /\ (1 <= length ANALYSIS_STEPS)%nat
       /\ ((1 < length ANALYSIS_STEPS)%nat ->
           ~ In BPredictions (kinds lines) /\ ~ In BVerdict (kinds lines))
       /\ (In BPredictions (kinds lines) \/ In BVerdict (kinds lines) ->
           1%nat = length ANALYSIS_STEPS).
Proof.
  assert (H : In (EvEdit (KProgress 1 false) second_message)
                 (snd (run example_num_str example_exn_str ascii_lower
                         ANALYSIS_STEPS (example_env no_failure)
                         example_address))).
  { apply (nth_error_In _ 4). vm_compute. reflexivity. }
  split; [exact H|].
  exact (predictions_and_verdict_wait example_num_str example_exn_str ascii_lower
           ANALYSIS_STEPS (example_env no_failure) example_address
           1 false second_message H).
Defined.


Lemma format_market_cap_negative_witness :
  is_finite (of_Z (-5000)) = true
  /\ lt_Z (of_Z (-5000)) 0 = true
  /\ exists ip,
       format_market_cap (Some (of_Z (-5000))) = u "$-" ++ ip
       /\ all_digits ip /\ ip <> []
       /\ rounds_to 0 (of_Z (-5000)) (digits_value ip).
Proof.
  assert (H1 : is_finite (of_Z (-5000)) = true) by (vm_compute; reflexivity).
  assert (H2 : lt_Z (of_Z (-5000)) 0 = true) by (vm_compute; reflexivity).
  repeat (split; [assumption|]).
  exact (format_market_cap_negative (of_Z (-5000)) H1 H2).
Defined.

Lemma reason_truncated_then_wrapped_witness :
  let reason := u "Two earlier tokens of this wallet were abandoned within a week of their launch" in
  (70 < len reason) /\ truncate_reason reason = slice_to 67 reason ++ u "...".
Proof.
  intros reason. split; [vm_compute; reflexivity|].
  destruct (reason_truncated_then_wrapped ANALYSIS_STEPS (u "devHistory")
              [(u "reason", reason)] 1 8) as (_ & H & _).
  apply H. vm_compute. reflexivity.
Defined.

Lemma verdict_glyph_and_recommendation_witness :
  exists glyph shown,
    format_verdict example_num_str example_analysis
    = nl ++ u "🎯 Overall Verdict" ++ nl
      ++ box_top ++ nl
      ++ u "│ Win Probability: "
      ++ percent_field example_num_str (a_overallProbability example_analysis)
      ++ u "%        │" ++ nl
      ++ u "│ Risk Level: " ++ glyph ++ u " " ++ ljust 18 (u "High") ++ u " │" ++ nl
      ++ box_mid ++ nl
      ++ u "│ " ++ ljust 27 shown ++ u " │" ++ nl
      ++ box_bot
    /\ glyph = u "🔴" /\ shown = u "Avoid".
Proof.
  destruct (verdict_glyph_and_recommendation example_num_str example_analysis)
    as (glyph & shown & E & _ & HH & _ & _ & Hs & _).
  exists glyph, shown. split; [exact E|].
  split; [apply HH; reflexivity | apply Hs; vm_compute; discriminate].
Defined.

Lemma progress_bar_below_50_witness :
  0 <= 3 <= 8 /\ 0 < 8 < 50 /\ bar_as_specified 3 8.
Proof.
  split; [lia|]. split; [lia|]. apply (progress_bar_below_50 3 8); lia.
Defined.

Lemma edit_failures_swallowed_or_escalated_witness :
  exists r tr,
    run example_num_str example_exn_str ascii_lower ANALYSIS_STEPS
      (example_env two_failures) example_address = (r, tr)
    /\ tr = firstn 6 tr ++ EvEdit (KProgress 2 false) third_message :: skipn 7 tr
    /\ edit_text (example_env two_failures) (count_edits (firstn 6 tr))
         third_message
       = Some (TelegramError (u "Flood control exceeded"))
    /\ not_modified example_exn_str ascii_lower
         (TelegramError (u "Flood control exceeded")) = false
    /\ skipn 7 tr
       = [EvEdit KUnexpected
            (unexpected_error_text example_exn_str
               (TelegramError (u "Flood control exceeded")))].
Proof.
  exists (fst (run example_num_str example_exn_str ascii_lower ANALYSIS_STEPS
       (example_env two_failures) example_address)), (snd (run example_num_str example_exn_str ascii_lower ANALYSIS_STEPS
       (example_env two_failures) example_address)).
  assert (H1 : (run example_num_str example_exn_str ascii_lower ANALYSIS_STEPS
       (example_env two_failures) example_address) = (fst (run example_num_str example_exn_str ascii_lower ANALYSIS_STEPS
       (example_env two_failures) example_address), snd (run example_num_str example_exn_str ascii_lower ANALYSIS_STEPS
       (example_env two_failures) example_address))) by apply surjective_pairing.
  assert (H2 : snd (run example_num_str example_exn_str ascii_lower ANALYSIS_STEPS
       (example_env two_failures) example_address)
               = firstn 6 (snd (run example_num_str example_exn_str ascii_lower ANALYSIS_STEPS
       (example_env two_failures) example_address))
                 ++ EvEdit (KProgress 2 false) third_message
                 :: skipn 7 (snd (run example_num_str example_exn_str ascii_lower ANALYSIS_STEPS
       (example_env two_failures) example_address)))
    by (vm_compute; reflexivity).
  assert (H3 : edit_text (example_env two_failures)
                 (count_edits (firstn 6 (snd (run example_num_str example_exn_str ascii_lower ANALYSIS_STEPS
       (example_env two_failures) example_address)))) third_message
               = Some (TelegramError (u "Flood control exceeded")))
    by (vm_compute; reflexivity).
  assert (H4 : not_modified example_exn_str ascii_lower
                 (TelegramError (u "Flood control exceeded")) = false)
    by (vm_compute; reflexivity).
  repeat (split; [assumption|]).
  exact (proj2 (edit_failures_swallowed_or_escalated example_num_str
                  example_exn_str ascii_lower ANALYSIS_STEPS
                  (example_env two_failures) example_address)
           (fst (run example_num_str example_exn_str ascii_lower ANALYSIS_STEPS
       (example_env two_failures) example_address)) (snd (run example_num_str example_exn_str ascii_lower ANALYSIS_STEPS
       (example_env two_failures) example_address)) (firstn 6 (snd (run example_num_str example_exn_str ascii_lower ANALYSIS_STEPS
       (example_env two_failures) example_address))) 2%nat false third_message
           (skipn 7 (snd (run example_num_str example_exn_str ascii_lower ANALYSIS_STEPS
       (example_env two_failures) example_address))) (u "Flood control exceeded") H1 H2 H3 H4).
Defined.

(* ================================================================== *)
(** * The plan of a run: the sequencer plays it *)

Section PlanFacts.

Variable num_str : float -> str.
Variable exn_str : exn -> str.
Variable lower : str -> str.
Variable catalog : list step_def.
Variable E : env.

Local Abbreviation cut := (follow exn_str lower E).
Local Abbreviation plays := (follows exn_str lower E).

Lemma world_after_nil w : world_after w [] = w.
Proof.
  destruct w as [t n]. unfold world_after. cbn [trace edits].
  rewrite app_nil_r. unfold count_edits. cbn. rewrite Nat.add_0_r. reflexivity.
Qed.

Lemma world_after_app w new1 new2 :
  world_after (world_after w new1) new2 = world_after w (new1 ++ new2).
Proof.
  unfold world_after. cbn [trace edits].
  rewrite count_edits_app, app_assoc, Nat.add_assoc. reflexivity.
Qed.

Lemma count_edits_cons ev evs :
  count_edits (ev :: evs)
  = ((if is_edit ev then 1 else 0) + count_edits evs)%nat.
Proof.
  change (ev :: evs) with ([ev] ++ evs).
  rewrite count_edits_app, count_edits_one. reflexivity.
Qed.

Lemma follow_ok plan : forall n u0,
  fst (cut n plan) = Ok u0 -> snd (cut n plan) = plan.
Proof.
  induction plan as [|ev rest IH]; intros n u0; cbn [follow].
  - reflexivity.
  - destruct ev as [k t|tok|s|k t];
      try (specialize (IH n u0); destruct (cut n rest) as [r evs];
           cbn [fst snd] in *; intros H; rewrite (IH H); reflexivity).
    destruct (edit_text E n t) as [e|];
      [destruct (benign exn_str lower e)|];
      try (specialize (IH (S n) u0); destruct (cut (S n) rest) as [r evs];
           cbn [fst snd] in *; intros H; rewrite (IH H); reflexivity).
    cbn [fst]. discriminate.
Qed.

Lemma follow_app p1 : forall n p2,
  cut n (p1 ++ p2)
  = match cut n p1 with
    | (Ok _, evs1) =>
        let '(r, evs2) := cut (n + count_edits p1) p2 in (r, evs1 ++ evs2)
    | (Raise e, evs1) => (Raise e, evs1)
    end.
Proof.
  induction p1 as [|ev rest IH]; intros n p2.
  - cbn [app follow]. rewrite Nat.add_0_r. destruct (cut n p2); reflexivity.
  - rewrite count_edits_cons.
    destruct ev as [k t|tok|s|k t]; cbn [app follow is_edit];
      try (rewrite IH, Nat.add_0_l;
           destruct (cut n rest) as [[x|e] evs1]; [|reflexivity];
           destruct (cut (n + count_edits rest) p2); reflexivity).
    replace (n + (1 + count_edits rest))%nat with (S n + count_edits rest)%nat
      by lia.
    destruct (edit_text E n t) as [e|];
      [destruct (benign exn_str lower e); [|reflexivity]|];
      rewrite IH;
      (destruct (cut (S n) rest) as [[x|e'] evs1]; [|reflexivity]);
      destruct (cut (S n + count_edits rest) p2); reflexivity.
Qed.

Lemma follows_ret : plays (ret tt) [].
Proof. intros w. cbn. rewrite world_after_nil. reflexivity. Qed.

Lemma follows_sleep s : plays (sleep s) [EvSleep s].
Proof.
  intros w. unfold sleep, emit, world_after. cbn [follow fst snd].
  rewrite count_edits_one. cbn [is_edit]. rewrite Nat.add_0_r. reflexivity.
Qed.

Lemma format_message_at token metadata metrics a cs sc :
  format_analysis_message num_str catalog token metadata metrics a cs
    (length catalog) sc
  = Ok (message_at num_str catalog token metadata metrics a cs sc).
Proof.
  unfold message_at.
  destruct (format_analysis_message_total num_str catalog token metadata
              metrics a cs (length catalog) sc) as (text & ->).
  reflexivity.
Qed.

Lemma follows_progress_edit token metadata metrics a cs sc :
  plays (progress_edit num_str exn_str lower catalog E
           token metadata metrics a cs sc)
        [progress_event num_str catalog token metadata metrics a cs sc].
Proof.
  intros w. unfold progress_edit. rewrite format_message_at, guarded_edit_run.
  unfold progress_event. cbn [follow].
  destruct (edit_text E (edits w) _) as [e|];
    [destruct (benign exn_str lower e)|];
    cbn [fst snd]; unfold world_after; rewrite count_edits_one;
    cbn [is_edit]; rewrite Nat.add_1_r; reflexivity.
Qed.

Lemma follows_bind c1 c2 p1 p2 :
  plays c1 p1 -> plays c2 p2 -> plays (c1 ;;; c2) (p1 ++ p2).
Proof.
  intros H1 H2 w. unfold pbind. rewrite H1, follow_app.
  pose proof (follow_ok p1 (edits w)) as Hok.
  destruct (cut (edits w) p1) as [[x|e] evs1]; cbn [fst snd] in *.
  - rewrite (Hok x eq_refl), H2.
    change (edits (world_after w p1)) with (edits w + count_edits p1)%nat.
    destruct (cut (edits w + count_edits p1) p2) as [r evs2].
    cbn [fst snd]. rewrite world_after_app. reflexivity.
  - reflexivity.
Qed.

Lemma follows_step_updates token metadata metrics a steps : forall i,
  plays (step_updates num_str exn_str lower catalog E
           token metadata metrics a steps i)
        (step_plan num_str catalog token metadata metrics a steps i).
Proof.
  induction steps as [|s rest IH]; intros i; cbn [step_updates step_plan].
  - apply follows_ret.
  - apply (follows_bind _ _ [_]); [apply follows_sleep|].
    apply follows_bind; [|apply IH].
    destruct (step_data_of a (key s));
      [apply follows_progress_edit | apply follows_ret].
Qed.

Lemma follows_reveal token metadata metrics a :
  plays (reveal num_str exn_str lower catalog E token metadata metrics a)
        (reveal_plan num_str catalog token metadata metrics a).
Proof.
  unfold reveal, reveal_plan.
  apply (follows_bind _ _ [_]); [apply follows_progress_edit|].
  apply follows_bind; [apply follows_step_updates|].
  apply follows_bind.
  - unfold predictions_plan. destruct (predictions_of a).
    + apply (follows_bind _ _ [_] [_]);
        [apply follows_sleep | apply follows_progress_edit].
    + apply follows_ret.
  - unfold verdict_plan. destruct (a_overallProbability a).
    + apply (follows_bind _ _ [_] [_]);
        [apply follows_sleep | apply follows_progress_edit].
    + apply follows_ret.
Qed.

Lemma report_edit_run e w :
  report exn_str E e w
  = (edit_answer E (edits w) (report_edit exn_str e),
     world_after w [report_edit exn_str e]).
Proof.
  unfold world_after.
  destruct e; cbn [report report_edit edit_answer]; rewrite do_edit_run;
    rewrite count_edits_one; cbn [is_edit]; rewrite Nat.add_1_r; reflexivity.
Qed.

Lemma request_and_reveal_attempt token w :
  edits w = 0%nat ->
  request_and_reveal num_str exn_str lower catalog E token w
  = (fst (attempt num_str exn_str lower catalog E token),
     world_after w
       (EvPost token :: snd (attempt num_str exn_str lower catalog E token))).
Proof.
  intros Hw. unfold request_and_reveal, attempt, pbind, emit.
  set (w1 := {| trace := trace w ++ [EvPost token]; edits := edits w |}).
  assert (W1 : w1 = world_after w [EvPost token]).
  { unfold w1, world_after. rewrite count_edits_one. cbn [is_edit].
    rewrite Nat.add_0_r. reflexivity. }
  assert (E1 : edits w1 = 0%nat) by exact Hw.
  destruct (post E token) as [e|message|metadata metrics a].
  - unfold raise. cbn [fst snd]. rewrite W1. reflexivity.
  - rewrite do_edit_run. unfold failed_edit, edit_answer. cbn [fst snd].
    rewrite E1. unfold w1, world_after. cbn [trace edits].
    rewrite !count_edits_cons. cbn [is_edit count_edits filter length].
    rewrite <- app_assoc, Hw. reflexivity.
  - rewrite (follows_reveal token metadata metrics a w1), E1, W1.
    rewrite world_after_app. reflexivity.
Qed.

Lemma run_planned text :
  run num_str exn_str lower catalog E text
  = planned_run num_str exn_str lower catalog E text.
Proof.
  unfold run, planned_run, handle_token_address.
  destruct (is_valid_solana_address (strip text)); cbn [negb].
  - unfold do_reply, pbind, emit, try_catch. cbn [start trace edits app].
    destruct (reply_text E KInitial (initial_text (strip text))) as [e|].
    + reflexivity.
    + unfold ret. rewrite request_and_reveal_attempt by reflexivity.
      destruct (attempt num_str exn_str lower catalog E (strip text))
        as [[x|e] evs]; cbn [fst snd].
      * destruct x. reflexivity.
      * rewrite report_edit_run. unfold world_after. cbn [trace edits app].
        rewrite count_edits_cons. cbn [is_edit]. rewrite Nat.add_0_l.
        reflexivity.
  - unfold do_reply, reply_answer, pbind, emit. cbn [start trace edits app].
    destruct (reply_text E KInvalidAddress invalid_address_text);
      reflexivity.
Qed.

End PlanFacts.

(* ------------------------------------------------------------------ *)
(** ** Delays, edits and reveal indices of a run *)

Section RunFacts.

Variable num_str : float -> str.
Variable exn_str : exn -> str.
Variable lower : str -> str.
Variable catalog : list step_def.
Variable E : env.

Local Abbreviation cut := (follow exn_str lower E).
Local Abbreviation plan := (reveal_plan num_str catalog).

Lemma follow_passing : passing exn_str lower E ->
  forall p n, cut n p = (Ok tt, p).
Proof.
  intros HP p. induction p as [|ev rest IH]; intros n; cbn [follow].
  - reflexivity.
  - destruct ev as [k t|tok|s|k t]; try (rewrite IH; reflexivity).
    specialize (HP n t). destruct (edit_text E n t) as [e|].
    + rewrite HP, IH. reflexivity.
    + rewrite IH. reflexivity.
Qed.

Lemma follow_prefix p : forall n,
  exists rest, p = snd (cut n p) ++ rest.
Proof.
  induction p as [|ev rest IH]; intros n; cbn [follow].
  - exists []. reflexivity.
  - destruct ev as [k t|tok|s|k t];
      try (destruct (IH n) as (r & Hr); destruct (cut n rest) as [x evs];
           cbn [snd] in *; exists r; cbn [app]; congruence).
    destruct (edit_text E n t) as [e|];
      [destruct (benign exn_str lower e)|];
      try (destruct (IH (S n)) as (r & Hr);
           destruct (cut (S n) rest) as [x evs];
           cbn [snd] in *; exists r; cbn [app]; congruence).
    exists rest. reflexivity.
Qed.

(** ** Delays *)

Lemma total_delay_cons ev evs :
  total_delay (ev :: evs) = seconds_of ev + total_delay evs.
Proof. reflexivity. Qed.

Lemma total_delay_app a b :
  total_delay (a ++ b) = total_delay a + total_delay b.
Proof.
  induction a as [|x a IH]; cbn [app]; [reflexivity|].
  rewrite !total_delay_cons, IH. lia.
Qed.

Lemma step_plan_delay token metadata metrics a steps : forall i,
  total_delay (step_plan num_str catalog token metadata metrics a steps i)
  = STEP_DELAY * Z.of_nat (length steps).
Proof.
  induction steps as [|s rest IH]; intros i; cbn [step_plan length].
  - reflexivity.
  - rewrite total_delay_cons, total_delay_app, IH, Nat2Z.inj_succ.
    destruct (step_data_of a (key s)); unfold progress_event;
      cbn [seconds_of total_delay fold_right]; lia.
Qed.

Lemma reveal_plan_delay token metadata metrics a :
  total_delay (plan token metadata metrics a)
  = STEP_DELAY * Z.of_nat (length catalog)
    + (if has_predictions a then STEP_DELAY else 0)
    + (if has_verdict a then PREDICTION_DELAY else 0).
Proof.
  unfold reveal_plan. rewrite total_delay_cons, !total_delay_app.
  rewrite step_plan_delay.
  unfold predictions_plan, verdict_plan, has_predictions, has_verdict.
  destruct (predictions_of a); destruct (a_overallProbability a);
    cbn; unfold STEP_DELAY, PREDICTION_DELAY; lia.
Qed.

Lemma total_delay_nonneg evs : waits evs -> 0 <= total_delay evs.
Proof.
  induction 1 as [|ev evs H _ IH]; [reflexivity|].
  rewrite total_delay_cons. lia.
Qed.

Lemma waits_step_plan token metadata metrics a steps : forall i,
  waits (step_plan num_str catalog token metadata metrics a steps i).
Proof.
  induction steps as [|s rest IH]; intros i; cbn [step_plan].
  - constructor.
  - constructor; [cbn; unfold STEP_DELAY; lia|].
    apply Forall_app. split; [|apply IH].
    destruct (step_data_of a (key s)); repeat constructor; cbn; lia.
Qed.

Lemma waits_plan token metadata metrics a :
  waits (plan token metadata metrics a).
Proof.
  unfold reveal_plan. constructor; [cbn; lia|].
  apply Forall_app. split; [apply waits_step_plan|].
  apply Forall_app. unfold predictions_plan, verdict_plan.
  split; [destruct (predictions_of a)|destruct (a_overallProbability a)];
    repeat constructor; cbn; unfold STEP_DELAY, PREDICTION_DELAY; lia.
Qed.

Lemma prefix_delay p shown rest :
  waits p -> p = shown ++ rest -> 0 <= total_delay shown <= total_delay p.
Proof.
  intros W ->. apply Forall_app in W. destruct W as [W1 W2].
  apply total_delay_nonneg in W1, W2. rewrite total_delay_app. lia.
Qed.

Lemma report_edit_delay e : seconds_of (report_edit exn_str e) = 0.
Proof. destruct e; reflexivity. Qed.

Lemma attempt_delay token :
  0 <= total_delay (snd (attempt num_str exn_str lower catalog E token))
    <= STEP_DELAY * Z.of_nat (length catalog) + STEP_DELAY + PREDICTION_DELAY.
Proof.
  unfold attempt.
  assert (B : 0 <= STEP_DELAY * Z.of_nat (length catalog)
                   + STEP_DELAY + PREDICTION_DELAY)
    by (unfold STEP_DELAY, PREDICTION_DELAY; lia).
  destruct (post E token) as [e|message|metadata metrics a]; cbn [snd].
  - cbn [total_delay fold_right]. lia.
  - unfold failed_edit. cbn [total_delay fold_right seconds_of]. lia.
  - destruct (follow_prefix (plan token metadata metrics a) 0) as (rest & Hr).
    pose proof (prefix_delay _ _ _ (waits_plan token metadata metrics a) Hr)
      as HD.
    rewrite reveal_plan_delay in HD.
    destruct (has_predictions a); destruct (has_verdict a);
      unfold STEP_DELAY, PREDICTION_DELAY in *; lia.
Qed.

Lemma run_delay_bound text :
  0 <= total_delay (snd (run num_str exn_str lower catalog E text))
    <= STEP_DELAY * Z.of_nat (length catalog) + STEP_DELAY + PREDICTION_DELAY.
Proof.
  rewrite run_planned. unfold planned_run.
  assert (B : 0 <= STEP_DELAY * Z.of_nat (length catalog)
                   + STEP_DELAY + PREDICTION_DELAY)
    by (unfold STEP_DELAY, PREDICTION_DELAY; lia).
  destruct (is_valid_solana_address (strip text));
    [|cbn [snd total_delay fold_right seconds_of]; lia].
  destruct (reply_text E KInitial (initial_text (strip text)));
    [cbn [snd total_delay fold_right seconds_of]; lia|].
  pose proof (attempt_delay (strip text)) as HA.
  destruct (attempt num_str exn_str lower catalog E (strip text))
    as [[x|e] evs]; cbn [snd] in *.
  - rewrite !total_delay_cons. cbn [seconds_of]. lia.
  - rewrite !total_delay_cons, total_delay_app, total_delay_cons.
    rewrite report_edit_delay. cbn [seconds_of total_delay fold_right]. lia.
Qed.


(** ** Edits *)

Lemma step_plan_edits token metadata metrics a steps : forall i,
  count_edits (step_plan num_str catalog token metadata metrics a steps i)
  = steps_with_result a steps.
Proof.
  unfold steps_with_result.
  induction steps as [|s rest IH]; intros i; cbn [step_plan filter].
  - reflexivity.
  - rewrite count_edits_cons, count_edits_app, IH. cbn [is_edit].
    assert (H : has_result a s
                = match step_data_of a (key s) with
                  | Some _ => true
                  | None => false
                  end) by reflexivity.
    rewrite H.
    destruct (step_data_of a (key s)); [rewrite count_edits_one|];
      reflexivity.
Qed.

Lemma reveal_plan_edits token metadata metrics a :
  count_edits (plan token metadata metrics a)
  = (1 + steps_with_result a catalog
     + (if has_predictions a then 1 else 0)
     + (if has_verdict a then 1 else 0))%nat.
Proof.
  unfold reveal_plan. rewrite count_edits_cons, !count_edits_app.
  rewrite step_plan_edits.
  unfold predictions_plan, verdict_plan, has_predictions, has_verdict.
  destruct (predictions_of a); destruct (a_overallProbability a);
    cbn; lia.
Qed.

(** ** Reveal indices *)

Lemma reveal_indices_app a b :
  reveal_indices (a ++ b) = reveal_indices a ++ reveal_indices b.
Proof. apply flat_map_app. Qed.

Lemma StronglySorted_prefix {A} (R : A -> A -> Prop) l1 l2 :
  StronglySorted R (l1 ++ l2) -> StronglySorted R l1.
Proof.
  induction l1 as [|x l1 IH]; cbn [app]; intros H; [constructor|].
  inversion H as [|? ? HS HF]; subst. constructor; [auto|].
  apply Forall_app in HF. tauto.
Qed.

Lemma StronglySorted_snoc l (n : nat) :
  StronglySorted le l -> Forall (fun k => (k <= n)%nat) l ->
  StronglySorted le (l ++ [n]).
Proof.
  induction 1 as [|x l HS IH HF]; intros Hn; cbn [app].
  - repeat constructor.
  - inversion Hn; subst. constructor; [auto|].
    apply Forall_app. split; [assumption|]. repeat constructor. assumption.
Qed.

Lemma step_plan_indices token metadata metrics a steps : forall i,
  StronglySorted le
    (reveal_indices (step_plan num_str catalog token metadata metrics a steps i))
  /\ Forall (fun k => (i <= k < i + length steps)%nat)
       (reveal_indices (step_plan num_str catalog token metadata metrics a steps i)).
Proof.
  induction steps as [|s rest IH]; intros i; cbn [step_plan].
  - split; constructor.
  - destruct (IH (S i)) as [HS HF].
    change (EvSleep STEP_DELAY :: ?l) with ([EvSleep STEP_DELAY] ++ l).
    rewrite !reveal_indices_app.
    change (reveal_indices [EvSleep STEP_DELAY]) with (@nil nat).
    cbn [app length].
    assert (HF' : Forall (fun k => (i <= k < i + S (length rest))%nat)
                    (reveal_indices (step_plan num_str catalog token metadata
                                       metrics a rest (S i)))).
    { eapply Forall_impl; [|exact HF]. cbn. intros; lia. }
    destruct (step_data_of a (key s)).
    + unfold progress_event. cbn [reveal_indices flat_map reveal_index_of app].
      fold (reveal_indices (step_plan num_str catalog token metadata
                              metrics a rest (S i))).
      split.
      * constructor; [exact HS|]. eapply Forall_impl; [|exact HF].
        cbn. intros; lia.
      * constructor; [lia|exact HF'].
    + cbn [reveal_indices flat_map app].
      fold (reveal_indices (step_plan num_str catalog token metadata
                              metrics a rest (S i))).
      split; assumption.
Qed.

Lemma reveal_plan_indices token metadata metrics a :
  StronglySorted le (reveal_indices (plan token metadata metrics a)).
Proof.
  unfold reveal_plan.
  change (progress_event num_str catalog token metadata metrics a 0 false :: ?l)
    with ([progress_event num_str catalog token metadata metrics a 0 false] ++ l).
  rewrite !app_assoc, !reveal_indices_app.
  destruct (step_plan_indices token metadata metrics a catalog 1) as [HS HF].
  set (mid := reveal_indices (step_plan num_str catalog token metadata
                                metrics a catalog 1)) in *.
  change (reveal_indices
            [progress_event num_str catalog token metadata metrics a 0 false])
    with [0%nat].
  set (front := [0%nat] ++ mid).
  assert (H1 : StronglySorted le front).
  { unfold front. cbn [app]. constructor; [exact HS|].
    eapply Forall_impl; [|exact HF]. cbn. intros; lia. }
  assert (F1 : Forall (fun k => (k <= length catalog)%nat) front).
  { unfold front. cbn [app]. constructor; [lia|].
    eapply Forall_impl; [|exact HF]. cbn. intros; lia. }
  set (front2 := front
                 ++ reveal_indices
                      (predictions_plan num_str catalog token metadata
                         metrics a)).
  assert (H2 : StronglySorted le front2
               /\ Forall (fun k => (k <= length catalog)%nat) front2).
  { unfold front2, predictions_plan. destruct (predictions_of a).
    - change (reveal_indices
                [EvSleep STEP_DELAY;
                 progress_event num_str catalog token metadata metrics a
                   (length catalog) false])
        with [length catalog].
      split; [apply StronglySorted_snoc; assumption|].
      apply Forall_app. split; [assumption|]. repeat constructor.
    - change (reveal_indices []) with (@nil nat). rewrite app_nil_r.
      split; assumption. }
  destruct H2 as [H2 F2].
  unfold verdict_plan. destruct (a_overallProbability a).
  - change (reveal_indices
              [EvSleep PREDICTION_DELAY;
               progress_event num_str catalog token metadata metrics a
                 (length catalog) true])
      with [length catalog].
    apply StronglySorted_snoc; assumption.
  - change (reveal_indices []) with (@nil nat). rewrite app_nil_r.
    assumption.
Qed.

Lemma report_edit_index e : reveal_index_of (report_edit exn_str e) = [].
Proof. destruct e; reflexivity. Qed.

Lemma attempt_indices token :
  StronglySorted le
    (reveal_indices (snd (attempt num_str exn_str lower catalog E token))).
Proof.
  unfold attempt.
  destruct (post E token) as [e|message|metadata metrics a]; cbn [snd].
  - constructor.
  - constructor.
  - destruct (follow_prefix (plan token metadata metrics a) 0) as (rest & Hr).
    pose proof (reveal_plan_indices token metadata metrics a) as HS.
    rewrite Hr, reveal_indices_app in HS.
    eapply StronglySorted_prefix. exact HS.
Qed.

Lemma run_indices text :
  StronglySorted le
    (reveal_indices (snd (run num_str exn_str lower catalog E text))).
Proof.
  rewrite run_planned. unfold planned_run.
  destruct (is_valid_solana_address (strip text)); [|constructor].
  destruct (reply_text E KInitial (initial_text (strip text))); [constructor|].
  pose proof (attempt_indices (strip text)) as HA.
  destruct (attempt num_str exn_str lower catalog E (strip text))
    as [[x|e] evs]; cbn [snd] in *.
  - exact HA.
  - cbn [reveal_indices flat_map reveal_index_of app].
    fold (reveal_indices (evs ++ [report_edit exn_str e])).
    rewrite reveal_indices_app. cbn [reveal_indices flat_map].
    rewrite report_edit_index, !app_nil_r. exact HA.
Qed.

End RunFacts.

(* ------------------------------------------------------------------ *)
(** ** Requests, failures of the API and addresses *)

Section HandlerFacts.

Variable num_str : float -> str.
Variable exn_str : exn -> str.
Variable lower : str -> str.
Variable catalog : list step_def.
Variable E : env.

Local Abbreviation plan := (reveal_plan num_str catalog).
Local Abbreviation run' := (run num_str exn_str lower catalog E).

Lemma passing_run_trace text metadata metrics a :
  passing exn_str lower E ->
  is_valid_solana_address (strip text) = true ->
  reply_text E KInitial (initial_text (strip text)) = None ->
  post E (strip text) = PostOk metadata metrics a ->
  run' text
  = (Ok tt,
     EvReply KInitial (initial_text (strip text))
     :: EvPost (strip text)
     :: plan (strip text) metadata metrics a).
Proof.
  intros HP HV HR HA. rewrite run_planned. unfold planned_run, attempt.
  rewrite HV, HR, HA, (follow_passing exn_str lower E HP). reflexivity.
Qed.

Lemma step_plan_app token metadata metrics a s1 : forall s2 i,
  step_plan num_str catalog token metadata metrics a (s1 ++ s2) i
  = step_plan num_str catalog token metadata metrics a s1 i
    ++ step_plan num_str catalog token metadata metrics a s2
         (i + length s1).
Proof.
  induction s1 as [|s rest IH]; intros s2 i; cbn [app step_plan length].
  - rewrite Nat.add_0_r. reflexivity.
  - rewrite IH, <- !app_assoc, Nat.add_succ_r. reflexivity.
Qed.

(** ** Requests and replies *)

Lemma filter_none {A} (f : A -> bool) l :
  Forall (fun x => f x = false) l -> filter f l = [].
Proof.
  induction 1 as [|x l H _ IH]; cbn [filter]; [reflexivity|].
  rewrite H. exact IH.
Qed.

Lemma silent_step_plan token metadata metrics a steps : forall i,
  Forall silent (step_plan num_str catalog token metadata metrics a steps i).
Proof.
  induction steps as [|s rest IH]; intros i; cbn [step_plan].
  - constructor.
  - constructor; [split; reflexivity|].
    apply Forall_app. split; [|apply IH].
    destruct (step_data_of a (key s)); repeat constructor.
Qed.

Lemma silent_plan token metadata metrics a :
  Forall silent (plan token metadata metrics a).
Proof.
  unfold reveal_plan. constructor; [split; reflexivity|].
  apply Forall_app. split; [apply silent_step_plan|].
  apply Forall_app. unfold predictions_plan, verdict_plan.
  split; [destruct (predictions_of a)|destruct (a_overallProbability a)];
    repeat constructor.
Qed.

Lemma silent_report e : silent (report_edit exn_str e).
Proof. destruct e; split; reflexivity. Qed.

Lemma silent_attempt token :
  Forall silent (snd (attempt num_str exn_str lower catalog E token)).
Proof.
  unfold attempt.
  destruct (post E token) as [e|message|metadata metrics a]; cbn [snd].
  - constructor.
  - repeat constructor.
  - destruct (follow_prefix exn_str lower E (plan token metadata metrics a) 0)
      as (rest & Hr).
    pose proof (silent_plan token metadata metrics a) as HS.
    rewrite Hr in HS. apply Forall_app in HS. tauto.
Qed.

Lemma silent_filters evs :
  Forall silent evs -> filter is_post evs = [] /\ filter is_reply evs = [].
Proof.
  intros H. split; apply filter_none; eapply Forall_impl; try exact H;
    intros ev [H1 H2]; assumption.
Qed.

Lemma run_requests text :
  let token := strip text in
  exists first rest,
    snd (run' text) = first :: rest
    /\ first = (if is_valid_solana_address token
                then EvReply KInitial (initial_text token)
                else EvReply KInvalidAddress invalid_address_text)
    /\ filter is_reply rest = []
    /\ filter is_post rest
       = if is_valid_solana_address token && reply_passes E token
         then [EvPost token] else [].
Proof.
  cbn zeta. rewrite run_planned. unfold planned_run, reply_passes.
  destruct (is_valid_solana_address (strip text)); cbn [andb snd].
  - destruct (reply_text E KInitial (initial_text (strip text))).
    + eexists _, []. repeat split; reflexivity.
    + pose proof (silent_attempt (strip text)) as HS.
      destruct (attempt num_str exn_str lower catalog E (strip text))
        as [[x|e] evs]; cbn [snd] in *.
      * destruct (silent_filters _ HS) as [HP HR].
        eexists _, _. split; [reflexivity|]. split; [reflexivity|].
        cbn [filter is_reply is_post]. rewrite HP, HR. split; reflexivity.
      * assert (HS' : Forall silent (evs ++ [report_edit exn_str e])).
        { apply Forall_app. split; [exact HS|].
          repeat constructor; apply silent_report. }
        destruct (silent_filters _ HS') as [HP HR].
        eexists _, _. split; [reflexivity|]. split; [reflexivity|].
        cbn [filter is_reply is_post]. rewrite HP, HR. split; reflexivity.
  - eexists _, []. repeat split; reflexivity.
Qed.

(** ** Failures of the request *)

Lemma run_api_raises text e :
  is_valid_solana_address (strip text) = true ->
  reply_text E KInitial (initial_text (strip text)) = None ->
  post E (strip text) = PostRaises e ->
  run' text
  = (edit_answer E 0 (report_edit exn_str e),
     [ EvReply KInitial (initial_text (strip text));
       EvPost (strip text);
       report_edit exn_str e ]).
Proof.
  intros HV HR HA. rewrite run_planned. unfold planned_run, attempt.
  rewrite HV, HR, HA. reflexivity.
Qed.

Lemma run_api_not_ok text message :
  is_valid_solana_address (strip text) = true ->
  reply_text E KInitial (initial_text (strip text)) = None ->
  post E (strip text) = PostNotOk message ->
  run' text
  = match edit_answer E 0 (failed_edit message) with
    | Ok _ =>
        (Ok tt,
         [ EvReply KInitial (initial_text (strip text));
           EvPost (strip text);
           failed_edit message ])
    | Raise e =>
        (edit_answer E 1 (report_edit exn_str e),
         [ EvReply KInitial (initial_text (strip text));
           EvPost (strip text);
           failed_edit message;
           report_edit exn_str e ])
    end.
Proof.
  intros HV HR HA. rewrite run_planned. unfold planned_run, attempt.
  rewrite HV, HR, HA.
  destruct (edit_answer E 0 (failed_edit message)) as [x|e]; reflexivity.
Qed.

End HandlerFacts.

Section AddressFacts.

Lemma is_base58_small :
  forallb (fun n => let c := N.of_nat n in
                    Bool.eqb (is_base58 c)
                      (is_ascii_alnum c
                       && negb (existsb (N.eqb c) ambiguous)))
          (seq 0 123) = true.
Proof. vm_compute. reflexivity. Qed.

Lemma is_base58_alnum c :
  is_base58 c = is_ascii_alnum c && negb (existsb (N.eqb c) ambiguous).
Proof.
  destruct (N.ltb c 123) eqn:L.
  - apply N.ltb_lt in L.
    pose proof is_base58_small as H. rewrite forallb_forall in H.
    specialize (H (N.to_nat c)). rewrite N2Nat.id in H. cbn zeta in H.
    apply eqb_prop. apply H. apply in_seq. lia.
  - apply N.ltb_ge in L.
    assert (B : is_base58 c = false).
    { unfold is_base58.
      repeat match goal with
             | |- context [(?a <=? ?b)%N] =>
                 let H := fresh in
                 destruct (N.leb_spec a b) as [H|H]
             end; try reflexivity; lia. }
    assert (A : is_ascii_alnum c = false).
    { unfold is_ascii_alnum.
      repeat match goal with
             | |- context [(?a <=? ?b)%N] =>
                 let H := fresh in
                 destruct (N.leb_spec a b) as [H|H]
             end; try reflexivity; lia. }
    rewrite A, B. reflexivity.
Qed.

Lemma valid_address_iff a :
  is_valid_solana_address a = true
  <-> 32 <= len a <= 44
      /\ Forall (fun c => is_ascii_alnum c = true /\ ~ In c ambiguous) a.
Proof.
  unfold is_valid_solana_address.
  assert (F : forallb is_base58 a = true
              <-> Forall (fun c => is_ascii_alnum c = true /\ ~ In c ambiguous) a).
  { rewrite forallb_forall, Forall_forall.
    split; intros H c Hc; specialize (H c Hc);
      rewrite is_base58_alnum in *.
    - apply andb_true_iff in H. destruct H as [H1 H2]. split; [exact H1|].
      intros Hin. apply negb_true_iff in H2.
      assert (X : existsb (N.eqb c) ambiguous = true).
      { apply existsb_exists. exists c. split; [exact Hin|apply N.eqb_refl]. }
      congruence.
    - destruct H as [H1 H2]. rewrite H1. cbn [andb]. apply negb_true_iff.
      destruct (existsb (N.eqb c) ambiguous) eqn:X; [|reflexivity].
      apply existsb_exists in X. destruct X as (x & Hx & Heq).
      apply N.eqb_eq in Heq. subst x. contradiction. }
  destruct (Z.ltb_spec (len a) 32) as [L1|L1];
    destruct (Z.ltb_spec 44 (len a)) as [L2|L2];
    rewrite ?orb_true_r, ?orb_false_r; cbn [orb];
    try (split; [discriminate | intros [? _]; lia]).
  destruct a as [|c a']; [cbn in L1; lia|]. cbn [nonempty negb].
  rewrite F. split; [intros H; split; [lia|exact H] | intros [_ H]; exact H].
Qed.

(** ** Stripping *)

Lemma lstrip_spaces p s : forallb is_space p = true -> lstrip (p ++ s) = lstrip s.
Proof.
  induction p as [|c p IH]; cbn [forallb app lstrip]; [reflexivity|].
  intros H. apply andb_true_iff in H. destruct H as [H1 H2].
  rewrite H1. apply IH, H2.
Qed.

Lemma rstrip_spaces s p : forallb is_space p = true -> rstrip (s ++ p) = rstrip s.
Proof.
  intros H. unfold rstrip. rewrite rev_app_distr, lstrip_spaces; [reflexivity|].
  rewrite forallb_rev. exact H.
Qed.

Lemma lstrip_cases s :
  (forallb is_space s = true /\ lstrip s = [])
  \/ (exists c r, lstrip s = c :: r /\ is_space c = false
                  /\ forall p, lstrip (s ++ p) = lstrip s ++ p).
Proof.
  induction s as [|c s IH]; cbn [forallb lstrip app].
  - left. split; reflexivity.
  - destruct (is_space c) eqn:S; cbn [andb].
    + destruct IH as [IH|(c' & r & H1 & H2 & H3)]; [left; exact IH|].
      right. exists c', r. repeat split; assumption.
    + right. exists c, s. split; [reflexivity|]. split; [exact S|].
      intros p. reflexivity.
Qed.

Lemma strip_padded p1 s p2 :
  forallb is_space p1 = true -> forallb is_space p2 = true ->
  strip (p1 ++ s ++ p2) = strip s.
Proof.
  intros H1 H2. unfold strip. rewrite lstrip_spaces by exact H1.
  destruct (lstrip_cases s) as [[HS HL]|(c & r & HL & HC & HP)].
  - rewrite HL, lstrip_spaces by exact HS.
    assert (X : lstrip p2 = []).
    { rewrite <- (app_nil_r p2), lstrip_spaces by exact H2. reflexivity. }
    rewrite X. reflexivity.
  - rewrite HP. apply rstrip_spaces, H2.
Qed.

End AddressFacts.

(* ------------------------------------------------------------------ *)
(** ** The layout of a message *)

Section LayoutFacts.

Variable num_str : float -> str.
Variable catalog : list step_def.

Lemma kinds_shown_entries a cs ts (es : list (nat * step_def)) :
  kinds (flat_map (shown_panel catalog a cs ts) es)
  = List.map BStep (List.map fst (filter (shown_entry a cs) es)).
Proof.
  induction es as [|[i s] es IH]; cbn [flat_map filter]; [reflexivity|].
  rewrite kinds_app, IH.
  assert (H : shown_entry a cs (i, s)
              = match dict_get (a_steps a) (key s) with
                | Some d => nonempty d && (i <? cs)%nat
                | None => false
                end).
  { unfold shown_entry, has_result, step_data_of. cbn [fst snd].
    destruct (dict_get (a_steps a) (key s)) as [d|]; [|reflexivity].
    destruct (nonempty d); reflexivity. }
  rewrite H. unfold shown_panel.
  destruct (dict_get (a_steps a) (key s)) as [d|]; [|reflexivity].
  destruct (nonempty d && (i <? cs)%nat); reflexivity.
Qed.

Lemma kinds_shown_panels a cs ts :
  kinds (shown_panels catalog a cs ts)
  = List.map BStep (shown_indices catalog a cs).
Proof. apply kinds_shown_entries. Qed.

Lemma compose_lines_layout token metadata metrics a cs ts sc :
  exists lines,
    compose_lines num_str catalog token metadata metrics a cs ts sc = Ok lines
    /\ format_analysis_message num_str catalog token metadata metrics a cs ts sc
       = Ok (join nl (List.map snd lines))
    /\ kinds lines = layout catalog a cs ts sc.
Proof.
  destruct (compose_lines_shape num_str catalog token metadata metrics a cs ts sc)
    as (progress & Ec & P).
  eexists. split; [exact Ec|]. split.
  { unfold format_analysis_message. rewrite Ec. reflexivity. }
  unfold layout, shows_progress, shows_predictions, shows_verdict.
  rewrite kinds_app. f_equal.
  destruct (analysis_truthy a); cbn [andb] in *; [|reflexivity].
  rewrite !kinds_app. f_equal; [|f_equal; [|f_equal]].
  - unfold results_lines.
    pose proof (kinds_shown_panels a cs ts) as K.
    destruct (shown_panels catalog a cs ts) as [|p ps];
      destruct (shown_indices catalog a cs) as [|i0 others];
      cbn [nonempty kinds List.map] in *; try discriminate; try reflexivity.
    rewrite K. reflexivity.
  - destruct ((cs <? ts)%nat && negb sc).
    + destruct P as (bar & _ & ->). reflexivity.
    + subst progress. reflexivity.
  - unfold predictions_lines, has_predictions.
    destruct ((ts <=? cs)%nat || sc); cbn [andb]; [|reflexivity].
    destruct (predictions_of a); reflexivity.
  - unfold verdict_lines, has_verdict.
    destruct sc; cbn [andb]; [|reflexivity].
    destruct (a_overallProbability a); reflexivity.
Qed.

Lemma in_layout b a cs ts sc :
  In b (layout catalog a cs ts sc)
  <-> In b [BTitle; BAddress; BBlank; BOverview]
      \/ (analysis_truthy a = true
          /\ shown_indices catalog a cs <> []
          /\ (b = BResultsTitle
              \/ exists i, b = BStep i /\ In i (shown_indices catalog a cs)))
      \/ (shows_progress a cs ts sc = true
          /\ (b = BProgressLine \/ b = BProgressBar))
      \/ (shows_predictions a cs ts sc = true /\ b = BPredictions)
      \/ (shows_verdict a sc = true /\ b = BVerdict).
Proof.
  unfold layout. rewrite !in_app_iff.
  apply or_iff_compat_l.
  assert (R : In b (if analysis_truthy a
                    then match shown_indices catalog a cs with
                         | [] => []
                         | _ :: _ =>
                             BResultsTitle
                             :: List.map BStep (shown_indices catalog a cs)
                         end
                    else [])
              <-> analysis_truthy a = true
                  /\ shown_indices catalog a cs <> []
                  /\ (b = BResultsTitle
                      \/ exists i, b = BStep i
                                   /\ In i (shown_indices catalog a cs))).
  { destruct (analysis_truthy a).
    2:{ split; [contradiction | intros [H _]; discriminate]. }
    destruct (shown_indices catalog a cs) as [|i0 others] eqn:S.
    { split; [contradiction | intros (_ & H & _); congruence]. }
    cbn [In]. rewrite in_map_iff. split.
    - intros [<-|(x & <- & Hx)]; (split; [reflexivity|]);
        (split; [discriminate|]); [left; reflexivity|].
      right. exists x. split; [reflexivity | exact Hx].
    - intros (_ & _ & [->|(x & -> & Hx)]); [left; reflexivity|].
      right. exists x. split; [reflexivity | exact Hx]. }
  assert (Q : match shown_indices catalog a cs with
              | [] => []
              | _ :: _ =>
                  BResultsTitle :: List.map BStep (shown_indices catalog a cs)
              end
              = match shown_indices catalog a cs with
                | [] => []
                | shown => BResultsTitle :: List.map BStep shown
                end).
  { destruct (shown_indices catalog a cs); reflexivity. }
  rewrite Q in R. rewrite R. apply or_iff_compat_l.
  assert (P1 : In b (if shows_progress a cs ts sc
                     then [BProgressLine; BProgressBar] else [])
               <-> shows_progress a cs ts sc = true
                   /\ (b = BProgressLine \/ b = BProgressBar)).
  { destruct (shows_progress a cs ts sc); cbn [In].
    - split; [intros [<-|[<-|[]]]; auto | intros (_ & [->| ->]); auto].
    - split; [contradiction | intros [H _]; discriminate]. }
  assert (P2 : In b (if shows_predictions a cs ts sc
                     then [BPredictions] else [])
               <-> shows_predictions a cs ts sc = true /\ b = BPredictions).
  { destruct (shows_predictions a cs ts sc); cbn [In].
    - split; [intros [<-|[]]; auto | intros (_ & ->); auto].
    - split; [contradiction | intros [H _]; discriminate]. }
  assert (P3 : In b (if shows_verdict a sc then [BVerdict] else [])
               <-> shows_verdict a sc = true /\ b = BVerdict).
  { destruct (shows_verdict a sc); cbn [In].
    - split; [intros [<-|[]]; auto | intros (_ & ->); auto].
    - split; [contradiction | intros [H _]; discriminate]. }
  rewrite P1, P2, P3. reflexivity.
Qed.

Lemma layout_presence a cs ts sc :
  (In BProgressBar (layout catalog a cs ts sc)
   <-> analysis_truthy a = true /\ (cs < ts)%nat /\ sc = false)
  /\ (In BPredictions (layout catalog a cs ts sc)
      <-> analysis_truthy a = true /\ ((ts <= cs)%nat \/ sc = true)
          /\ has_predictions a = true)
  /\ (In BVerdict (layout catalog a cs ts sc)
      <-> analysis_truthy a = true /\ sc = true /\ has_verdict a = true)
  /\ (In BResultsTitle (layout catalog a cs ts sc)
      <-> analysis_truthy a = true /\ shown_indices catalog a cs <> []).
Proof.
  rewrite !in_layout.
  unfold shows_progress, shows_predictions, shows_verdict.
  rewrite !andb_true_iff, orb_true_iff, negb_true_iff, Nat.ltb_lt, Nat.leb_le.
  cbn [In].
  refine (conj _ (conj _ (conj _ _))); split; intros H;
    repeat match goal with
           | H : _ \/ _ |- _ => destruct H
           | H : _ /\ _ |- _ => destruct H
           | H : exists _, _ |- _ => destruct H
           | H : False |- _ => contradiction
           end; try discriminate; try tauto.
Qed.

End LayoutFacts.

(* ------------------------------------------------------------------ *)
(** ** Wrapping, catalog lookup, padding and the bar *)

Section WrapMore.

Lemma len_nonneg (s : str) : 0 <= len s.
Proof. unfold len. lia. Qed.

Lemma len_cons c (s : str) : len (c :: s) = 1 + len s.
Proof. unfold len. cbn [length]. lia. Qed.

Lemma len_open_line ws w :
  ws <> [] -> len (open_line ws ++ w) = len (closed_line ws) + 1 + len w.
Proof.
  intros H. rewrite (open_line_closed ws H), !len_app.
  change (len (u " ")) with 1. lia.
Qed.

Lemma forced_grow closed : forall cur w,
  cur <> [] -> forced (closed ++ [cur]) -> forced (closed ++ [cur ++ [w]]).
Proof.
  induction closed as [|l closed IH]; intros cur w Hc H; cbn [app] in *.
  - exact I.
  - destruct closed as [|l' closed']; cbn [app] in *.
    + destruct cur as [|c cur']; [congruence|]. cbn [app forced] in *.
      split; [tauto | exact I].
    + cbn [forced] in H. destruct H as [H1 H2].
      cbn [forced]. split; [exact H1|].
      apply (IH cur w Hc H2).
Qed.

Lemma forced_break closed : forall cur w,
  cur <> [] -> forced (closed ++ [cur]) ->
  27 < len (closed_line cur) + 1 + len w ->
  forced ((closed ++ [cur]) ++ [[w]]).
Proof.
  induction closed as [|l closed IH]; intros cur w Hc H Hw; cbn [app] in *.
  - cbn [forced]. split; [exact Hw | exact I].
  - destruct closed as [|l' closed']; cbn [app] in *.
    + cbn [forced] in *. destruct H as [H1 _].
      split; [exact H1|]. split; [exact Hw | exact I].
    + cbn [forced] in H. destruct H as [H1 H2].
      cbn [forced]. split; [exact H1|].
      apply (IH cur w Hc H2 Hw).
Qed.

Lemma forced_fold words : forall closed cur,
  (cur = [] -> closed = []) ->
  forced (all_lines (closed, cur)) ->
  forced (all_lines (fold_left lines_step words (closed, cur))).
Proof.
  induction words as [|w words IH]; intros closed cur Hc H; cbn [fold_left].
  - exact H.
  - unfold lines_step at 2.
    destruct (len (open_line cur ++ w) <=? 27) eqn:T.
    + apply IH.
      * intros X. destruct cur; discriminate.
      * destruct cur as [|c cur'].
        -- rewrite (Hc eq_refl). exact I.
        -- cbn [all_lines nonempty app] in *.
           apply (forced_grow closed (c :: cur') w); [discriminate | exact H].
    + apply Z.leb_gt in T. destruct cur as [|c cur'].
      * rewrite (Hc eq_refl). cbn [nonempty]. apply IH; [discriminate|].
        exact I.
      * cbn [nonempty]. apply IH; [discriminate|].
        cbn [all_lines nonempty] in *.
        apply forced_break; [discriminate | exact H|].
        rewrite <- len_open_line by discriminate. exact T.
Qed.

Lemma wrap_lines_forced words : forced (wrap_lines words).
Proof. apply forced_fold; [reflexivity | exact I]. Qed.

Lemma forced_tail l ls : forced (l :: ls) -> forced ls.
Proof. destruct ls; [intros _; exact I | intros [_ H]; exact H]. Qed.

Lemma forced_spec before : forall ls l1 l2 after,
  forced ls -> ls = before ++ l1 :: l2 :: after ->
  exists w rest, l2 = w :: rest /\ 27 < len (closed_line l1) + 1 + len w.
Proof.
  induction before as [|b before IH]; intros ls l1 l2 after H ->;
    cbn [app] in H.
  - destruct H as [H _]. destruct l2 as [|w rest]; [contradiction|]. eauto.
  - apply forced_tail in H. eapply (IH _ l1 l2 after H). reflexivity.
Qed.

(** ** What wrapping keeps *)

Lemma visible_app a b : visible (a ++ b) = visible a ++ visible b.
Proof. apply filter_app. Qed.

Lemma visible_spaces p : forallb is_space p = true -> visible p = [].
Proof.
  induction p as [|c p IH]; cbn [forallb visible filter]; [reflexivity|].
  intros H. apply andb_true_iff in H. destruct H as [H1 H2].
  rewrite H1. cbn [negb]. apply IH, H2.
Qed.

Lemma visible_word w : no_space w = true -> visible w = w.
Proof.
  unfold no_space.
  induction w as [|c w IH]; cbn [forallb visible filter]; [reflexivity|].
  intros H. apply andb_true_iff in H. destruct H as [H1 H2].
  rewrite H1. f_equal. apply IH, H2.
Qed.

Lemma split_from_visible s : forall cur,
  concat (split_from cur s) = rev cur ++ visible s.
Proof.
  induction s as [|c s IH]; intros cur; cbn [split_from visible filter].
  - destruct cur; cbn [concat rev app]; rewrite ?app_nil_r; reflexivity.
  - fold (visible s). destruct (is_space c); cbn [negb].
    + destruct cur as [|x cur'].
      * rewrite IH. reflexivity.
      * cbn [concat]. rewrite IH. reflexivity.
    + rewrite IH. cbn [rev]. rewrite <- app_assoc. reflexivity.
Qed.

Lemma split_visible s : concat (split s) = visible s.
Proof. apply split_from_visible. Qed.

Lemma visible_join sep (l : list str) :
  forallb is_space sep = true ->
  visible (join sep l) = concat (List.map visible l).
Proof.
  intros H. induction l as [|x l IH]; [reflexivity|].
  destruct l as [|y l'].
  - cbn [join List.map concat]. rewrite app_nil_r. reflexivity.
  - rewrite join_cons by discriminate.
    rewrite !visible_app, (visible_spaces sep H), IH. reflexivity.
Qed.

Lemma visible_closed_line ws :
  Forall word_ok ws -> visible (closed_line ws) = concat ws.
Proof.
  intros H. unfold closed_line. rewrite visible_join by reflexivity.
  f_equal. induction H as [|w ws [_ Hw] _ IH]; [reflexivity|].
  cbn [List.map]. rewrite (visible_word w Hw), IH. reflexivity.
Qed.

Lemma visible_lines lines :
  Forall (Forall word_ok) lines ->
  visible (join line_sep (List.map closed_line lines)) = concat (concat lines).
Proof.
  intros H. rewrite visible_join by reflexivity.
  induction H as [|l lines Hl _ IH]; [reflexivity|].
  cbn [List.map concat]. rewrite (visible_closed_line l Hl), IH, concat_app.
  reflexivity.
Qed.

Lemma wrap_words_visible words :
  Forall word_ok words -> visible (wrap_words words) = concat words.
Proof.
  intros H. destruct (wrap_words_lines words H) as (E & C & _).
  rewrite E, visible_lines, C; [reflexivity|].
  apply Forall_concat. rewrite C. exact H.
Qed.

(** ** Text that fits on one line *)

Lemma closed_line_prefix pre suf :
  len (closed_line pre) <= len (closed_line (pre ++ suf)).
Proof.
  revert pre. induction suf as [|w suf IH]; intros pre.
  - rewrite app_nil_r. lia.
  - replace (pre ++ w :: suf) with ((pre ++ [w]) ++ suf)
      by (rewrite <- app_assoc; reflexivity).
    specialize (IH (pre ++ [w])). rewrite closed_line_snoc in IH at 1.
    destruct pre as [|p pre'].
    + change (len (closed_line [])) with 0. apply len_nonneg.
    + rewrite (open_line_closed (p :: pre')) in IH by discriminate.
      rewrite !len_app in IH. pose proof (len_nonneg w).
      pose proof (len_nonneg (u " ")). lia.
Qed.

Lemma one_line_fold suf : forall pre,
  len (closed_line (pre ++ suf)) <= 27 ->
  fold_left lines_step suf ([], pre) = ([], pre ++ suf).
Proof.
  induction suf as [|w suf IH]; intros pre H; cbn [fold_left].
  - rewrite app_nil_r. reflexivity.
  - unfold lines_step at 2.
    replace (pre ++ w :: suf) with ((pre ++ [w]) ++ suf) in *
      by (rewrite <- app_assoc; reflexivity).
    pose proof (closed_line_prefix (pre ++ [w]) suf) as P.
    rewrite closed_line_snoc in P.
    destruct (Z.leb_spec (len (open_line pre ++ w)) 27); [|lia].
    apply IH. exact H.
Qed.

Lemma one_line words :
  Forall word_ok words ->
  len (closed_line words) <= 27 -> wrap_words words = closed_line words.
Proof.
  intros W H. destruct (wrap_words_lines words W) as (E & _ & _).
  rewrite E. unfold wrap_lines.
  rewrite (one_line_fold words []) by exact H. cbn [app all_lines].
  destruct words; reflexivity.
Qed.

End WrapMore.

Section StepFacts.

Variable catalog : list step_def.

Lemma find_step_none k :
  find_step catalog k = None <-> ~ In k (List.map key catalog).
Proof.
  unfold find_step. split.
  - intros H Hin. apply in_map_iff in Hin. destruct Hin as (s & <- & Hs).
    pose proof (find_none _ _ H s Hs) as X. cbn in X.
    rewrite (proj2 (eqb_eq (key s) (key s)) eq_refl) in X. discriminate.
  - intros H. destruct (find _ catalog) as [s|] eqn:F; [|reflexivity].
    apply find_some in F. destruct F as [Hs He]. apply eqb_eq in He.
    exfalso. apply H. rewrite <- He. apply in_map. exact Hs.
Qed.

Lemma find_step_own : NoDup (List.map key catalog) ->
  forall s, In s catalog -> find_step catalog (key s) = Some s.
Proof.
  unfold find_step. induction catalog as [|x l IH]; intros ND s Hs.
  - contradiction.
  - cbn [find]. cbn [List.map] in ND. inversion ND as [|? ? Hx ND']; subst.
    destruct Hs as [->|Hs].
    + rewrite (proj2 (eqb_eq (key s) (key s)) eq_refl). reflexivity.
    + rewrite eqb_neq; [apply IH; assumption|].
      intros X. apply Hx. rewrite X. apply in_map. exact Hs.
Qed.

Lemma nl_app_nonempty (s : str) : nl ++ s <> [].
Proof. discriminate. Qed.

End StepFacts.

Section OverviewFacts.

Lemma firstn_repeat {A} (x : A) n k :
  (k <= n)%nat -> firstn k (repeat x n) = repeat x k.
Proof.
  intros H. replace n with (k + (n - k))%nat by lia.
  rewrite repeat_app, firstn_app, repeat_length, Nat.sub_diag.
  cbn [firstn]. rewrite app_nil_r. apply firstn_all2.
  rewrite repeat_length. lia.
Qed.

Lemma ljust_clip n (s : str) :
  ljust n (clip n s) = firstn n (s ++ repeat 32%N n)
  /\ length (ljust n (clip n s)) = n.
Proof.
  unfold ljust, clip, slice_to, len.
  destruct (Z.ltb_spec (Z.of_nat n) (Z.of_nat (length s))) as [L|L].
  - rewrite length_firstn, Nat.min_l by lia.
    rewrite Nat.sub_diag. cbn [repeat]. rewrite app_nil_r.
    rewrite firstn_app. replace (n - length s)%nat with 0%nat by lia.
    cbn [firstn]. rewrite app_nil_r. split; [reflexivity|].
    rewrite length_firstn. lia.
  - rewrite firstn_app, firstn_all2 by lia.
    rewrite firstn_repeat by lia. split; [reflexivity|].
    rewrite length_app, repeat_length. lia.
Qed.

End OverviewFacts.

Section BarFacts.


Lemma bar_at_zero t :
  t <> 0 ->
  format_progress_bar 0 t
  = Ok (u "[" ++ mul_str (u "░") 20 ++ u "] 0%").
Proof.
  intros H. unfold format_progress_bar, progress_numbers, int_truediv.
  destruct (Z.eqb_spec t 0) as [|_]; [contradiction|].
  destruct t as [|p|p]; [contradiction| |]; reflexivity.
Qed.

End BarFacts.

Section RaiseFacts.

Variable num_str : float -> str.
Variable exn_str : exn -> str.
Variable lower : str -> str.
Variable catalog : list step_def.
Variable E : env.

Lemma report_edit_kind e :
  exists k t, report_edit exn_str e = EvEdit k t
              /\ forall i c, k <> KProgress i c.
Proof. destruct e; eexists _, _; split; try reflexivity; discriminate. Qed.

Lemma run_raises text e :
  fst (run num_str exn_str lower catalog E text) = Raise e ->
  exists before last,
    snd (run num_str exn_str lower catalog E text) = before ++ [last]
    /\ match last with
       | EvReply k t => before = [] /\ reply_text E k t = Some e
       | EvEdit k t =>
           edit_text E (count_edits before) t = Some e
           /\ forall i c, k <> KProgress i c
       | _ => False
       end.
Proof.
  rewrite run_planned. unfold planned_run, reply_answer.
  destruct (is_valid_solana_address (strip text)).
  - destruct (reply_text E KInitial (initial_text (strip text))) as [e0|] eqn:R.
    + cbn [fst snd]. intros [= ->]. exists [], (EvReply KInitial (initial_text (strip text))).
      split; [reflexivity|]. split; [reflexivity | exact R].
    + destruct (attempt num_str exn_str lower catalog E (strip text))
        as [[x|e1] evs]; cbn [fst snd]; [discriminate|].
      destruct (report_edit_kind e1) as (k & t & Hk & Hp). rewrite Hk.
      cbn [edit_answer]. intros H.
      exists (EvReply KInitial (initial_text (strip text))
              :: EvPost (strip text) :: evs), (EvEdit k t).
      split; [reflexivity|]. rewrite !count_edits_cons. cbn [is_edit].
      rewrite !Nat.add_0_l. split; [|exact Hp].
      destruct (edit_text E (count_edits evs) t); congruence.
  - cbn [fst snd].
    destruct (reply_text E KInvalidAddress invalid_address_text) as [e0|] eqn:R;
      [|discriminate].
    intros [= ->]. exists [], (EvReply KInvalidAddress invalid_address_text).
    split; [reflexivity|]. split; [reflexivity | exact R].
Qed.

End RaiseFacts.

(* ================================================================== *)
(** * Further properties of the handler *)

Section HandlerProperties.

Variable num_str : float -> str.
Variable exn_str : exn -> str.
Variable lower : str -> str.
Variable catalog : list step_def.
Variable E : env.

(** X1.  When the text is a valid address, the initial reply is delivered,
    the API answers with a payload and the transport rejects no edit except
    as unchanged, the run returns and its events are exactly: the initial
    reply, the request, then the plan of the payload (first edit, for every
    catalog step a delay followed by an edit when the step has a
    StepResult, then delay and edit for the predictions, then delay and
    edit for the verdict, the last two when the payload has them). *)
Theorem run_follows_plan (text : str) (metadata : dict str)
    (metrics : dict (option float)) (a : analysis) :
  passing exn_str lower E ->
  is_valid_solana_address (strip text) = true ->
  reply_text E KInitial (initial_text (strip text)) = None ->
  post E (strip text) = PostOk metadata metrics a ->
  run num_str exn_str lower catalog E text
  = (Ok tt,
     EvReply KInitial (initial_text (strip text))
     :: EvPost (strip text)
     :: reveal_plan num_str catalog (strip text) metadata metrics a).
Proof. apply passing_run_trace. Qed.

(** X2.  The cost of such a run: it waits [STEP_DELAY] for every step of
    the catalog, whether the step has a StepResult or not, once more for
    the predictions and [PREDICTION_DELAY] for the verdict; and it edits the
    message once at the start, once for every step that has a StepResult,
    once for the predictions and once for the verdict. *)
Theorem run_cost (text : str) (metadata : dict str)
    (metrics : dict (option float)) (a : analysis) :
  passing exn_str lower E ->
  is_valid_solana_address (strip text) = true ->
  reply_text E KInitial (initial_text (strip text)) = None ->
  post E (strip text) = PostOk metadata metrics a ->
  total_delay (snd (run num_str exn_str lower catalog E text))
  = STEP_DELAY * Z.of_nat (length catalog)
    + (if has_predictions a then STEP_DELAY else 0)
    + (if has_verdict a then PREDICTION_DELAY else 0)
  /\ count_edits (snd (run num_str exn_str lower catalog E text))
     = (1 + steps_with_result a catalog
        + (if has_predictions a then 1 else 0)
        + (if has_verdict a then 1 else 0))%nat.
Proof.
  intros HP HV HR HA. rewrite (passing_run_trace _ _ _ _ _ _ _ _ _ HP HV HR HA).
  cbn [snd]. rewrite !total_delay_cons, reveal_plan_delay.
  rewrite !count_edits_cons, reveal_plan_edits. cbn [seconds_of is_edit].
  split; lia.
Qed.

(** X3.  Whatever the text, the API and the transport do, a run never
    waits longer than [STEP_DELAY] per catalog step plus [STEP_DELAY] plus
    [PREDICTION_DELAY] (29 seconds with the eight steps of the bot). *)
Theorem run_delay_bounded (text : str) :
  0 <= total_delay (snd (run num_str exn_str lower catalog E text))
    <= STEP_DELAY * Z.of_nat (length catalog) + STEP_DELAY + PREDICTION_DELAY.
Proof. apply run_delay_bound. Qed.

(** X4.  In every run the reveal indices of the progress edits, in the
    order of the edits, never decrease. *)
Theorem reveal_index_never_decreases (text : str) :
  StronglySorted le
    (reveal_indices (snd (run num_str exn_str lower catalog E text))).
Proof. apply run_indices. Qed.

(** X5.  When the last step of the catalog has a StepResult and the payload
    has predictions, a run that nothing interrupts sends the same edit twice
    in a row, a delay apart: the message composed at the catalog length
    without completion, once for the last step and once for the
    predictions. *)
Theorem last_step_edit_repeated (text : str) (metadata : dict str)
    (metrics : dict (option float)) (a : analysis)
    (earlier : list step_def) (s : step_def) :
  passing exn_str lower E ->
  is_valid_solana_address (strip text) = true ->
  reply_text E KInitial (initial_text (strip text)) = None ->
  post E (strip text) = PostOk metadata metrics a ->
  catalog = earlier ++ [s] ->
  has_result a s = true ->
  has_predictions a = true ->
  let repeated :=
    progress_event num_str catalog (strip text) metadata metrics a
      (length catalog) false in
  exists before after,
    snd (run num_str exn_str lower catalog E text)
    = before ++ [repeated; EvSleep STEP_DELAY; repeated] ++ after.
Proof.
  intros HP HV HR HA HC HS HQ repeated.
  rewrite (passing_run_trace _ _ _ _ _ _ _ _ _ HP HV HR HA). cbn [snd].
  unfold reveal_plan.
  assert (S1 : step_plan num_str catalog (strip text) metadata metrics a
                 catalog 1
               = step_plan num_str catalog (strip text) metadata metrics a
                   earlier 1
                 ++ [EvSleep STEP_DELAY; repeated]).
  { rewrite HC at 2. rewrite step_plan_app. f_equal. cbn [step_plan].
    unfold has_result in HS. destruct (step_data_of a (key s)); [|discriminate].
    unfold repeated. rewrite HC at 3. rewrite length_app. cbn [length app].
    rewrite Nat.add_comm. reflexivity. }
  assert (S2 : predictions_plan num_str catalog (strip text) metadata metrics a
               = [EvSleep STEP_DELAY; repeated]).
  { unfold predictions_plan. unfold has_predictions in HQ.
    destruct (predictions_of a); [reflexivity | discriminate]. }
  rewrite S1, S2.
  exists (EvReply KInitial (initial_text (strip text))
          :: EvPost (strip text)
          :: progress_event num_str catalog (strip text) metadata metrics a 0 false
          :: step_plan num_str catalog (strip text) metadata metrics a earlier 1
          ++ [EvSleep STEP_DELAY]),
         (verdict_plan num_str catalog (strip text) metadata metrics a).
  cbn [app]. rewrite <- !app_assoc. reflexivity.
Qed.

(** X6.  Every run begins with exactly one reply: the initial message when
    the stripped text is a valid address, the rejection otherwise.  The API
    is requested at most once, with the stripped text, and only when the
    address is valid and the initial reply was delivered. *)
Theorem one_reply_one_request (text : str) :
  let token := strip text in
  exists first rest,
    snd (run num_str exn_str lower catalog E text) = first :: rest
    /\ first = (if is_valid_solana_address token
                then EvReply KInitial (initial_text token)
                else EvReply KInvalidAddress invalid_address_text)
    /\ filter is_reply rest = []
    /\ filter is_post rest
       = if is_valid_solana_address token && reply_passes E token
         then [EvPost token] else [].
Proof. apply run_requests. Qed.

(** X7.  When the request to the API raises, the run consists of the
    initial reply, the request and one edit that reports the failure, with
    no delay: the timeout message for a timeout, the network error message
    for any other exception of the HTTP library, the unexpected error
    message otherwise.  The run returns unless that edit is rejected. *)
Theorem api_exception_reported (text : str) (e : exn) :
  is_valid_solana_address (strip text) = true ->
  reply_text E KInitial (initial_text (strip text)) = None ->
  post E (strip text) = PostRaises e ->
  exists k message,
    run num_str exn_str lower catalog E text
    = (match edit_text E 0 message with Some e' => Raise e' | None => Ok tt end,
       [ EvReply KInitial (initial_text (strip text));
         EvPost (strip text);
         EvEdit k message ])
    /\ (e = RequestsTimeout -> k = KTimeout /\ message = timeout_text)
    /\ (forall m, e = RequestException m ->
        k = KNetworkError /\ message = network_error_text exn_str e)
    /\ (e <> RequestsTimeout -> (forall m, e <> RequestException m) ->
        k = KUnexpected /\ message = unexpected_error_text exn_str e).
Proof.
  intros HV HR HA. rewrite (run_api_raises _ _ _ _ _ _ _ HV HR HA).
  destruct e; eexists _, _; (split; [reflexivity|]);
    (split; [|split]); intros; try discriminate; try congruence;
    try (split; reflexivity).
Qed.

(** X8.  When the API answers with an error status, the run edits the
    message once, to the analysis failed text with the message of the
    response or "Analysis failed", and returns.  When that edit is
    rejected, one more edit follows, which reports the rejection (as an
    unexpected error when it is a TelegramError). *)
Theorem api_refusal_reported (text : str) (message : option str) :
  is_valid_solana_address (strip text) = true ->
  reply_text E KInitial (initial_text (strip text)) = None ->
  post E (strip text) = PostNotOk message ->
  let failed :=
    analysis_failed_text
      (match message with Some m => m | None => u "Analysis failed" end) in
  match edit_text E 0 failed with
  | None =>
      run num_str exn_str lower catalog E text
      = (Ok tt,
         [ EvReply KInitial (initial_text (strip text));
           EvPost (strip text);
           EvEdit KAnalysisFailed failed ])
  | Some e =>
      exists k report_text,
        run num_str exn_str lower catalog E text
        = (match edit_text E 1 report_text with
           | Some e' => Raise e'
           | None => Ok tt
           end,
           [ EvReply KInitial (initial_text (strip text));
             EvPost (strip text);
             EvEdit KAnalysisFailed failed;
             EvEdit k report_text ])
        /\ (forall m, e = TelegramError m ->
            k = KUnexpected /\ report_text = unexpected_error_text exn_str e)
  end.
Proof.
  intros HV HR HA failed. rewrite (run_api_not_ok _ _ _ _ _ _ _ HV HR HA).
  unfold failed_edit. cbn [edit_answer]. fold failed.
  destruct (edit_text E 0 failed) as [e|]; [|reflexivity].
  destruct e; eexists _, _; (split; [reflexivity|]); intros; try discriminate.
  split; reflexivity.
Qed.

(** X9.  The stripped text of a message is accepted as an address exactly
    when it has 32 to 44 characters, all of them ASCII letters or digits
    other than 0, O, I and l.  (Stated for stripped texts, as the handler
    calls the validator; such a text has no final newline.) *)
Theorem valid_address_characterised (text : str) :
  let token := strip text in
  (is_valid_solana_address token = true
   <-> 32 <= len token <= 44
       /\ Forall (fun c => is_ascii_alnum c = true /\ ~ In c ambiguous) token).
Proof. cbn zeta. apply valid_address_iff. Qed.

(** X10.  White space around the text of a message does not change the run
    of the handler. *)
Theorem padding_ignored (before text after : str) :
  forallb is_space before = true ->
  forallb is_space after = true ->
  run num_str exn_str lower catalog E (before ++ text ++ after)
  = run num_str exn_str lower catalog E text.
Proof.
  intros H1 H2. unfold run, handle_token_address.
  rewrite (strip_padded before text after H1 H2). reflexivity.
Qed.

(** X11.  An exception leaves the handler only from a call of the chat
    transport that is the last event of the run: the one reply, or an edit
    that reports a failure.  A rejected progress edit, a failure of the
    request and a failure of the API never leave it directly. *)
Theorem escaping_exception (text : str) (e : exn) :
  fst (run num_str exn_str lower catalog E text) = Raise e ->
  exists before last,
    snd (run num_str exn_str lower catalog E text) = before ++ [last]
    /\ match last with
       | EvReply k t => before = [] /\ reply_text E k t = Some e
       | EvEdit k t =>
           edit_text E (count_edits before) t = Some e
           /\ forall i c, k <> KProgress i c
       | _ => False
       end.
Proof. apply run_raises. Qed.

End HandlerProperties.

(* ================================================================== *)
(** * Further properties of the composer and the formatters *)

Section ComposerProperties.

Variable num_str : float -> str.
Variable catalog : list step_def.

(** X12.  The composer returns for every input, and the lines of its
    message come in a fixed order: title, address, blank line, overview;
    then, when the analysis object is not empty, the results title with
    the panels of the shown steps in catalog order (when there is one), the
    progress line and bar, the predictions, the verdict, each of them
    present or absent as a whole. *)
Theorem message_layout
    (token : str) (metadata : dict str) (metrics : dict (option float))
    (a : analysis) (cs ts : nat) (sc : bool) :
  exists lines,
    compose_lines num_str catalog token metadata metrics a cs ts sc = Ok lines
    /\ format_analysis_message num_str catalog token metadata metrics a cs ts sc
       = Ok (join nl (List.map snd lines))
    /\ kinds lines = layout catalog a cs ts sc.
Proof. apply compose_lines_layout. Qed.

(** X13.  Which blocks a message has.  The progress bar is there exactly
    when the analysis object is not empty, the reveal index is below the
    total and completion is not forced; the predictions exactly when the
    object is not empty, has predictions, and the index has reached the
    total or completion is forced; the verdict exactly when the object is
    not empty, completion is forced and it has an overall probability; the
    results title exactly when a panel is shown.  So a message never has
    the progress bar together with predictions or a verdict. *)
Theorem block_presence
    (token : str) (metadata : dict str) (metrics : dict (option float))
    (a : analysis) (cs ts : nat) (sc : bool) :
  exists lines,
    compose_lines num_str catalog token metadata metrics a cs ts sc = Ok lines
    /\ (In BProgressBar (kinds lines)
        <-> analysis_truthy a = true /\ (cs < ts)%nat /\ sc = false)
    /\ (In BPredictions (kinds lines)
        <-> analysis_truthy a = true /\ ((ts <= cs)%nat \/ sc = true)
            /\ has_predictions a = true)
    /\ (In BVerdict (kinds lines)
        <-> analysis_truthy a = true /\ sc = true /\ has_verdict a = true)
    /\ (In BResultsTitle (kinds lines)
        <-> analysis_truthy a = true /\ shown_indices catalog a cs <> [])
    /\ (In BProgressBar (kinds lines) ->
        ~ In BPredictions (kinds lines) /\ ~ In BVerdict (kinds lines)).
Proof.
  destruct (compose_lines_layout num_str catalog token metadata metrics
              a cs ts sc) as (lines & Ec & _ & K).
  exists lines. split; [exact Ec|]. rewrite K.
  destruct (layout_presence catalog a cs ts sc) as (P1 & P2 & P3 & P4).
  refine (conj P1 (conj P2 (conj P3 (conj P4 _)))).
  rewrite P1, P2, P3. intros (_ & H1 & H2). subst sc.
  split; intros (_ & H & _); [destruct H as [H|H]; [lia|discriminate]
                             | discriminate].
Qed.

(** X14.  With an empty analysis object the message consists of the four
    header lines, at every reveal index and total, completion forced or
    not. *)
Theorem empty_analysis_message
    (token : str) (metadata : dict str) (metrics : dict (option float))
    (a : analysis) (cs ts : nat) (sc : bool) :
  analysis_truthy a = false ->
  compose_lines num_str catalog token metadata metrics a cs ts sc
  = Ok (header_lines token metadata metrics)
  /\ format_analysis_message num_str catalog token metadata metrics a cs ts sc
     = Ok (u "🔍 Analyzing Token" ++ nl
           ++ (u "`" ++ (if 20 <? len token
                         then slice_to 20 token ++ u "..."
                         else token) ++ u "`") ++ nl
           ++ [] ++ nl
           ++ format_token_overview metadata metrics).
Proof.
  intros H.
  assert (Ec : compose_lines num_str catalog token metadata metrics a cs ts sc
               = Ok (header_lines token metadata metrics)).
  { unfold compose_lines. rewrite H. reflexivity. }
  split; [exact Ec|].
  unfold format_analysis_message. rewrite Ec. reflexivity.
Qed.

(** X15.  The address line of a message composed for a valid address shows
    its first 20 characters followed by an ellipsis: a valid address has at
    least 32 characters. *)
Theorem valid_address_is_abbreviated
    (token : str) (metadata : dict str) (metrics : dict (option float))
    (a : analysis) (cs ts : nat) (sc : bool) :
  is_valid_solana_address token = true ->
  exists title rest,
    compose_lines num_str catalog token metadata metrics a cs ts sc
    = Ok (title :: (BAddress, u "`" ++ slice_to 20 token ++ u "...`") :: rest)
    /\ len (u "`" ++ slice_to 20 token ++ u "...`") = 25.
Proof.
  intros HV. apply valid_address_iff in HV. destruct HV as [[L _] _].
  destruct (compose_lines_shape num_str catalog token metadata metrics
              a cs ts sc) as (progress & Ec & _).
  rewrite Ec. unfold header_lines.
  destruct (Z.ltb_spec 20 (len token)) as [_|X]; [|lia].
  eexists _, _. split.
  - cbn [app]. rewrite <- app_assoc. reflexivity.
  - rewrite !len_app. unfold slice_to, len at 2.
    rewrite length_firstn, Nat.min_l by (unfold len in L; lia).
    reflexivity.
Qed.


End ComposerProperties.

(** X17.  At [current = 0] the bar is empty and shows 0%, for every total
    but 0. *)
Theorem first_bar_is_empty (total : Z) :
  total <> 0 ->
  format_progress_bar 0 total = Ok (u "[░░░░░░░░░░░░░░░░░░░░] 0%").
Proof. apply bar_at_zero. Qed.

(** X18.  The wrapping of a reason is greedy: the text is the lines joined
    by a newline and three spaces, and a line is only closed when the next
    word would not fit, that is when the line, a space and the first word
    of the next line take more than 27 characters. *)
Theorem wrap_is_greedy (reason : str) :
  let lines := wrap_lines (split (truncate_reason reason)) in
  wrap_reason reason = join line_sep (List.map closed_line lines)
  /\ forall before l1 l2 after,
       lines = before ++ l1 :: l2 :: after ->
       exists w rest,
         l2 = w :: rest /\ 27 < len (closed_line l1) + 1 + len w.
Proof.
  cbn zeta. split.
  - apply wrap_words_lines, split_ok.
  - intros before l1 l2 after H.
    apply (forced_spec before _ l1 l2 after (wrap_lines_forced _) H).
Qed.

(** X19.  Wrapping changes white space only: the characters of the wrapped
    text that are not white space are those of the truncated reason, in
    the same order. *)
Theorem wrap_keeps_text (reason : str) :
  visible (wrap_reason reason) = visible (truncate_reason reason).
Proof.
  unfold wrap_reason. rewrite wrap_words_visible by apply split_ok.
  apply split_visible.
Qed.

(** X20.  A reason whose words, joined by single spaces, take at most 27
    characters is shown on one line, as these words joined by single
    spaces; an empty or blank reason gives the empty text. *)
Theorem short_reason_on_one_line (reason : str) :
  let words := split (truncate_reason reason) in
  len (join (u " ") words) <= 27 ->
  wrap_reason reason = join (u " ") words.
Proof. cbn zeta. intros H. apply one_line; [apply split_ok | exact H]. Qed.

Section StepProperties.

Variable catalog : list step_def.

(** X21.  The step formatter returns the empty string exactly for the keys
    that are not in the catalog. *)
Theorem unknown_step_is_blank
    (step_key : str) (step_data : step_result) (i total : nat) :
  format_analysis_step catalog step_key step_data i total = []
  <-> ~ In step_key (List.map key catalog).
Proof.
  rewrite <- find_step_none. unfold format_analysis_step.
  destruct (find_step catalog step_key) as [s|].
  - split; discriminate.
  - split; reflexivity.
Qed.

(** X22.  When the keys of the catalog are distinct, the panel of a catalog
    step carries the icon and the label of that very step. *)
Theorem panel_names_its_step
    (s : step_def) (step_data : step_result) (i total : nat) :
  NoDup (List.map key catalog) ->
  In s catalog ->
  format_analysis_step catalog (key s) step_data i total
  = nl ++ icon s ++ u " " ++ label s ++ nl
    ++ u "   " ++ status_emoji_of (get_or step_data (u "status") (u "info"))
    ++ u " " ++ get_or step_data (u "value") (u "N/A") ++ nl
    ++ u "   " ++ wrap_reason (get_or step_data (u "reason") []).
Proof.
  intros ND Hs. unfold format_analysis_step.
  rewrite (find_step_own catalog ND s Hs). reflexivity.
Qed.

End StepProperties.

(** X23.  In the overview the name is cut or padded to exactly 25
    characters and the symbol to exactly 23. *)
Theorem overview_name_and_symbol
    (metadata : dict str) (metrics : dict (option float)) :
  let name := get_or metadata (u "name") (u "Unknown") in
  let symbol := get_or metadata (u "symbol") (u "N/A") in
  exists name_field symbol_field rest,
    format_token_overview metadata metrics
    = u "📊 Token Overview" ++ nl
      ++ box_top ++ nl
      ++ u "│ Name: " ++ name_field ++ u " │" ++ nl
      ++ u "│ Symbol: " ++ symbol_field ++ u " │" ++ nl
      ++ rest
    /\ name_field = firstn 25 (name ++ repeat 32%N 25)
    /\ length name_field = 25%nat
    /\ symbol_field = firstn 23 (symbol ++ repeat 32%N 23)
    /\ length symbol_field = 23%nat.
Proof.
  cbn zeta. unfold format_token_overview.
  destruct (ljust_clip 25 (get_or metadata (u "name") (u "Unknown")))
    as [N1 N2].
  destruct (ljust_clip 23 (get_or metadata (u "symbol") (u "N/A")))
    as [S1 S2].
  eexists _, _, _. split; [reflexivity|].
  split; [exact N1|]. split; [exact N2|]. split; [exact S1 | exact S2].
Qed.

Section GrowthFacts.

Variable catalog : list step_def.

Lemma indexed_cons {A} start (x : A) l :
  indexed start (x :: l) = (start, x) :: indexed (S start) l.
Proof. reflexivity. Qed.

Lemma shown_after a i ts (l : list step_def) : forall start,
  (i < start)%nat ->
  flat_map (shown_panel catalog a (S i) ts) (indexed start l) = []
  /\ flat_map (shown_panel catalog a i ts) (indexed start l) = [].
Proof.
  induction l as [|s l IH]; intros start H; [split; reflexivity|].
  rewrite indexed_cons. cbn [flat_map].
  destruct (IH (S start) ltac:(lia)) as [-> ->].
  unfold shown_panel.
  destruct (dict_get (a_steps a) (key s)) as [d|]; [|split; reflexivity].
  destruct (Nat.ltb_spec start (S i)); [lia|].
  destruct (Nat.ltb_spec start i); [lia|].
  rewrite andb_false_r. split; reflexivity.
Qed.

Lemma shown_grows a i ts (l : list step_def) : forall start,
  (start <= i)%nat ->
  flat_map (shown_panel catalog a (S i) ts) (indexed start l)
  = flat_map (shown_panel catalog a i ts) (indexed start l)
    ++ match nth_error l (i - start) with
       | Some s =>
           match step_data_of a (key s) with
           | Some d => [(BStep i, format_analysis_step catalog (key s) d i ts)]
           | None => []
           end
       | None => []
       end.
Proof.
  induction l as [|s l IH]; intros start H.
  - destruct (i - start)%nat; reflexivity.
  - rewrite indexed_cons. cbn [flat_map].
    destruct (Nat.eq_dec start i) as [->|N].
    + destruct (shown_after a i ts l (S i) ltac:(lia)) as [-> ->].
      rewrite Nat.sub_diag. cbn [nth_error]. rewrite !app_nil_r.
      unfold shown_panel, step_data_of.
      destruct (dict_get (a_steps a) (key s)) as [d|]; [|reflexivity].
      rewrite Nat.ltb_irrefl, andb_false_r.
      destruct (Nat.ltb_spec i (S i)); [|lia].
      rewrite andb_true_r. destruct (nonempty d); reflexivity.
    + rewrite (IH (S start)) by lia.
      replace (i - start)%nat with (S (i - S start)) by lia.
      cbn [nth_error]. rewrite app_assoc. f_equal. f_equal.
      unfold shown_panel.
      destruct (dict_get (a_steps a) (key s)) as [d|]; [|reflexivity].
      destruct (Nat.ltb_spec start (S i)); [|lia].
      destruct (Nat.ltb_spec start i); [|lia]. reflexivity.
Qed.

Lemma shown_panels_grow a i ts :
  shown_panels catalog a (S i) ts
  = shown_panels catalog a i ts
    ++ match nth_error catalog i with
       | Some s =>
           match step_data_of a (key s) with
           | Some d => [(BStep i, format_analysis_step catalog (key s) d i ts)]
           | None => []
           end
       | None => []
       end.
Proof.
  unfold shown_panels. rewrite (shown_grows a i ts catalog 0) by lia.
  rewrite Nat.sub_0_r. reflexivity.
Qed.

End GrowthFacts.

(* ================================================================== *)
Section GrowthProperties.

Variable num_str : float -> str.
Variable catalog : list step_def.

(** X24.  From one reveal index to the next the step panels of the message
    grow by exactly the panel of the step in between when that step has a
    StepResult, and stay the same when it has none: the handler sends the
    edit of a step exactly when the message has gained that step's
    panel. *)
Theorem step_edit_adds_its_panel
    (token : str) (metadata : dict str) (metrics : dict (option float))
    (a : analysis) (i ts : nat) (sc : bool) :
  exists lines next,
    compose_lines num_str catalog token metadata metrics a i ts sc = Ok lines
    /\ compose_lines num_str catalog token metadata metrics a (S i) ts sc
       = Ok next
    /\ step_panels next
       = step_panels lines
         ++ match nth_error catalog i with
            | Some s =>
                match step_data_of a (key s) with
                | Some d =>
                    [(BStep i, format_analysis_step catalog (key s) d i ts)]
                | None => []
                end
            | None => []
            end.
Proof.
  destruct (compose_lines_panels num_str catalog token metadata metrics
              a i ts sc) as (lines & E1 & P1 & _).
  destruct (compose_lines_panels num_str catalog token metadata metrics
              a (S i) ts sc) as (next & E2 & P2 & _).
  exists lines, next. split; [exact E1|]. split; [exact E2|].
  rewrite P1, P2. apply shown_panels_grow.
Qed.

(** X25.  The first message of a sequence, composed at reveal index 0 for a
    payload whose analysis object is not empty and a catalog that is not
    empty, ends with the progress line and an empty bar at 0%. *)
Theorem first_message_shows_empty_bar
    (token : str) (metadata : dict str) (metrics : dict (option float))
    (a : analysis) :
  analysis_truthy a = true ->
  catalog <> [] ->
  exists before,
    format_analysis_message num_str catalog token metadata metrics a
      0 (length catalog) false
    = Ok (join nl (List.map snd before)
          ++ nl ++ progress_line_text 0 (length catalog)
          ++ nl ++ u "[░░░░░░░░░░░░░░░░░░░░] 0%")
    /\ kinds before = [BTitle; BAddress; BBlank; BOverview].
Proof.
  intros HT HC.
  assert (L : (0 < length catalog)%nat)
    by (destruct catalog; [congruence | cbn; lia]).
  destruct (compose_lines_shape num_str catalog token metadata metrics a
              0 (length catalog) false) as (progress & Ec & P).
  rewrite HT in *. cbn [andb negb] in P.
  destruct (Nat.ltb_spec 0 (length catalog)) as [_|X]; [|lia].
  cbn [andb] in P. destruct P as (bar & Eb & ->).
  rewrite bar_at_zero in Eb by lia. apply Ok_inj in Eb. subst bar.
  assert (S0 : shown_panels catalog a 0 (length catalog) = []).
  { unfold shown_panels.
    assert (G : forall (l : list step_def) start,
              flat_map (shown_panel catalog a 0 (length catalog))
                (indexed start l) = []).
    { induction l as [|s l IH]; intros start; [reflexivity|].
      rewrite indexed_cons. cbn [flat_map]. rewrite IH.
      unfold shown_panel.
      destruct (dict_get (a_steps a) (key s)); [|reflexivity].
      cbn [Nat.ltb Nat.leb]. rewrite andb_false_r. reflexivity. }
    apply G. }
  assert (Q : predictions_lines num_str a 0 (length catalog) false = []).
  { unfold predictions_lines.
    destruct (Nat.leb_spec (length catalog) 0); [lia|]. reflexivity. }
  rewrite S0, Q in Ec. cbn [results_lines nonempty verdict_lines app] in Ec.
  rewrite app_nil_r in Ec.
  exists (header_lines token metadata metrics).
  split; [|reflexivity].
  unfold format_analysis_message. rewrite Ec. cbn [bind]. f_equal.
  unfold progress_lines. rewrite map_app.
  rewrite join_app by discriminate.
  reflexivity.
Qed.

End GrowthProperties.

Lemma analysis_steps_distinct : NoDup (List.map key ANALYSIS_STEPS).
Proof.
  vm_compute.
  repeat (constructor; [cbn [In]; intuition discriminate|]). constructor.
Qed.

(* ------------------------------------------------------------------ *)
(** ** Rounding never passes a representable bound *)

Section RoundingBound.

Lemma shr_1_clean k : 0 <= k -> shr_1 (clean (2 * k)) = clean k.
Proof. destruct k as [|p|p]; intros H; try lia; reflexivity. Qed.

Lemma iter_shr_1_clean p : forall k,
  0 <= k -> iter_pos shr_1 p (clean (k * 2 ^ Z.pos p)) = clean k.
Proof.
  induction p as [p IH|p IH|]; intros k H; cbn [iter_pos].
  - assert (P : 0 < 2 ^ Z.pos p) by (apply Z.pow_pos_nonneg; lia).
    replace (k * 2 ^ Z.pos p~1) with (2 * (k * 2 ^ Z.pos p * 2 ^ Z.pos p)).
    2:{ change (Z.pos p~1) with (2 * Z.pos p + 1).
        rewrite Z.pow_add_r, Z.pow_mul_r by lia.
        change (2 ^ 2) with 4. change (2 ^ 1) with 2.
        replace (4 ^ Z.pos p) with (2 ^ Z.pos p * 2 ^ Z.pos p)
          by (rewrite <- Z.pow_mul_l; reflexivity).
        lia. }
    rewrite shr_1_clean by nia. rewrite IH by nia. apply IH. exact H.
  - assert (P : 0 < 2 ^ Z.pos p) by (apply Z.pow_pos_nonneg; lia).
    replace (k * 2 ^ Z.pos p~0) with (k * 2 ^ Z.pos p * 2 ^ Z.pos p).
    2:{ change (Z.pos p~0) with (2 * Z.pos p).
        rewrite Z.pow_mul_r by lia. change (2 ^ 2) with 4.
        replace (4 ^ Z.pos p) with (2 ^ Z.pos p * 2 ^ Z.pos p)
          by (rewrite <- Z.pow_mul_l; reflexivity).
        lia. }
    rewrite IH by nia. apply IH. exact H.
  - change (2 ^ 1) with 2. rewrite Z.mul_comm. apply shr_1_clean. exact H.
Qed.

Lemma loc_of_record_of_loc m l :
  loc_of_shr_record (shr_record_of_loc m l) = l.
Proof. destruct l as [|[]]; reflexivity. Qed.

(** Rounding after a shift does not pass a bound that the shift keeps
    whole. *)
Lemma shr_round_le m l B p :
  0 <= m -> 0 <= B ->
  (m < B * 2 ^ Z.pos p \/ (m = B * 2 ^ Z.pos p /\ l = loc_Exact)) ->
  let r := iter_pos shr_1 p (shr_record_of_loc m l) in
  round_nearest_even (shr_m r) (loc_of_shr_record r) <= B.
Proof.
  intros Hm HB H r.
  assert (P : 0 < 2 ^ Z.pos p) by (apply Z.pow_pos_nonneg; lia).
  destruct H as [H|[H ->]].
  - pose proof (round_nearest_even_bounds (shr_m r) (loc_of_shr_record r)) as RB.
    assert (M : shr_m r = m / 2 ^ Z.pos p).
    { unfold r. rewrite iter_shr_1_m by (rewrite shr_record_of_loc_m; exact Hm).
      rewrite shr_record_of_loc_m. reflexivity. }
    assert (m / 2 ^ Z.pos p < B) by (apply Z.div_lt_upper_bound; lia).
    lia.
  - unfold r. subst m. change (shr_record_of_loc (B * 2 ^ Z.pos p) loc_Exact)
      with (clean (B * 2 ^ Z.pos p)).
    rewrite iter_shr_1_clean by exact HB. cbn. lia.
Qed.

Lemma shr_fexp_cases m e l r e' :
  0 <= m -> shr_fexp prec emax m e l = (r, e') ->
  (e' = e /\ r = shr_record_of_loc m l
   /\ fexp prec emax (Zdigits2 m + e) - e <= 0)
  \/ exists p, fexp prec emax (Zdigits2 m + e) - e = Z.pos p
               /\ e' = e + Z.pos p
               /\ r = iter_pos shr_1 p (shr_record_of_loc m l).
Proof.
  intros Hm. unfold shr_fexp, shr.
  destruct (fexp prec emax (Zdigits2 m + e) - e) as [|p|p] eqn:En;
    intros [= <- <-].
  - left. repeat split; lia.
  - right. exists p. repeat split.
  - left. repeat split; lia.
Qed.

Lemma binary_round_aux_le sx mx ex lx B k :
  0 <= mx -> 0 <= B -> 0 <= k ->
  (mx < B * 2 ^ k \/ (mx = B * 2 ^ k /\ lx = loc_Exact)) ->
  fexp prec emax (Zdigits2 mx + ex) - ex <= k ->
  match binary_round_aux prec emax sx mx ex lx with
  | S754_finite _ m e => ex <= e /\ Z.pos m * 2 ^ (e - ex) <= B * 2 ^ k
  | _ => True
  end.
Proof.
  intros Hm HB Hk H Hn. unfold binary_round_aux.
  destruct (shr_fexp prec emax mx ex lx) as [r1 e1] eqn:E1.
  set (m1 := round_nearest_even (shr_m r1) (loc_of_shr_record r1)).
  assert (P1 : 0 <= m1).
  { pose proof (round_nearest_even_bounds (shr_m r1) (loc_of_shr_record r1)).
    destruct (shr_fexp_bounds _ _ _ Hm _ _ E1) as (Q & _). fold m1 in H0. lia. }
  assert (B1 : ex <= e1 /\ m1 * 2 ^ (e1 - ex) <= B * 2 ^ k).
  { destruct (shr_fexp_cases _ _ _ _ _ Hm E1)
      as [(-> & -> & _)|(p & Ep & -> & ->)].
    - unfold m1. rewrite shr_record_of_loc_m, loc_of_record_of_loc.
      rewrite Z.sub_diag. change (2 ^ 0) with 1.
      split; [lia|]. destruct H as [H|[H ->]].
      + pose proof (round_nearest_even_bounds mx lx). lia.
      + cbn. lia.
    - split; [lia|].
      replace (ex + Z.pos p - ex) with (Z.pos p) by lia.
      assert (Pp : 0 < 2 ^ Z.pos p) by (apply Z.pow_pos_nonneg; lia).
      assert (S : B * 2 ^ k = (B * 2 ^ (k - Z.pos p)) * 2 ^ Z.pos p).
      { rewrite <- Z.mul_assoc, <- Z.pow_add_r by lia. f_equal. f_equal. lia. }
      assert (HB' : 0 <= B * 2 ^ (k - Z.pos p)).
      { apply Z.mul_nonneg_nonneg; [exact HB|]. apply Z.pow_nonneg. lia. }
      rewrite S in H.
      pose proof (shr_round_le mx lx (B * 2 ^ (k - Z.pos p)) p Hm HB' H) as R.
      cbv zeta in R. fold m1 in R. rewrite S. nia. }
  destruct B1 as [B1 B2].
  destruct (shr_fexp prec emax m1 e1 loc_Exact) as [r2 e2] eqn:E2.
  assert (C : e1 <= e2 /\ shr_m r2 * 2 ^ (e2 - e1) <= m1).
  { destruct (shr_fexp_cases _ _ _ _ _ P1 E2)
      as [(-> & -> & _)|(p & Ep & -> & ->)].
    - rewrite shr_record_of_loc_m, Z.sub_diag. change (2 ^ 0) with 1. lia.
    - split; [lia|].
      rewrite iter_shr_1_m by (rewrite shr_record_of_loc_m; exact P1).
      rewrite shr_record_of_loc_m.
      replace (e1 + Z.pos p - e1) with (Z.pos p) by lia.
      assert (Pp : 0 < 2 ^ Z.pos p) by (apply Z.pow_pos_nonneg; lia).
      pose proof (Z.mul_div_le m1 (2 ^ Z.pos p) Pp). lia. }
  destruct C as [C1 C2].
  destruct (shr_m r2) as [|m|m] eqn:Em; [exact I| |exact I].
  destruct (e2 <=? emax - prec); [|exact I].
  split; [lia|].
  replace (e2 - ex) with ((e2 - e1) + (e1 - ex)) by lia.
  rewrite Z.pow_add_r by lia.
  assert (0 <= 2 ^ (e1 - ex)) by (apply Z.pow_nonneg; lia).
  clearbody m1. nia.
Qed.

End RoundingBound.

Section BarBounds.

Lemma new_location_zero n : new_location n 0 = loc_Exact.
Proof. unfold new_location. destruct (Z.even n); reflexivity. Qed.

Lemma SFdiv_core_le pa pb q e' l :
  Z.pos pa <= Z.pos pb ->
  SFdiv_core_binary prec emax (Z.pos pa) 0 (Z.pos pb) 0 = (q, e', l) ->
  e' <= 0 /\ (q < 2 ^ (- e') \/ (q = 2 ^ (- e') /\ l = loc_Exact)).
Proof.
  intros Hab. unfold SFdiv_core_binary.
  set (d1 := Zdigits2 (Z.pos pa)). set (d2 := Zdigits2 (Z.pos pb)).
  set (ez := Z.min (fexp prec emax (d1 + 0 - (d2 + 0))) (0 - 0)).
  set (s := 0 - 0 - ez).
  assert (Hs : 0 <= s) by (unfold s, ez; lia).
  set (m' := match s with
             | Z.pos _ => Z.shiftl (Z.pos pa) s
             | 0 => Z.pos pa
             | Z.neg _ => 0
             end).
  assert (Hm' : m' = Z.pos pa * 2 ^ s).
  { unfold m'. destruct s as [|ps|ps] eqn:Es; try lia.
    rewrite Z.shiftl_mul_pow2 by lia. reflexivity. }
  clearbody m'.
  pose proof (Z_div_mod m' (Z.pos pb) ltac:(lia)) as DM.
  destruct (Z.div_eucl m' (Z.pos pb)) as [q0 r0].
  intros [= <- <- <-]. destruct DM as [Eq Hr].
  assert (P : 0 < 2 ^ s) by (apply Z.pow_pos_nonneg; lia).
  replace (- ez) with s by (unfold s; lia).
  split; [unfold s in Hs; lia|].
  destruct (Z.eq_dec (Z.pos pa) (Z.pos pb)) as [E|N].
  - right. assert (Q : q0 = 2 ^ s) by nia. split; [exact Q|].
    assert (R : r0 = 0) by nia. rewrite R. apply new_location_zero.
  - left. nia.
Qed.

Lemma int_truediv_le_one a b :
  0 <= a <= b -> 0 < b ->
  exists q, int_truediv a b = Ok q /\ le_one q.
Proof.
  intros Ha Hb.
  destruct (int_truediv_le a b Ha Hb) as (q & Eq & _).
  exists q. split; [exact Eq|].
  unfold int_truediv in Eq.
  destruct (Z.eqb_spec b 0) as [|_]; [lia|].
  destruct b as [|pb|pb]; try lia.
  destruct a as [|pa|pa]; try lia.
  - cbn in Eq. apply Ok_inj in Eq. subst q. exact I.
  - cbn [Z2SF] in Eq.
    assert (Q : q = SFdiv prec emax (S754_finite false pa 0)
                      (S754_finite false pb 0)).
    { destruct (SFdiv prec emax (S754_finite false pa 0)
                  (S754_finite false pb 0));
        try discriminate; apply Ok_inj in Eq; congruence. }
    clear Eq. subst q. unfold SFdiv.
    destruct (SFdiv_core_binary prec emax (Z.pos pa) 0 (Z.pos pb) 0)
      as [[mz ez] lz] eqn:Ec.
    assert (Hab : Z.pos pa <= Z.pos pb) by lia.
    destruct (SFdiv_core_le pa pb mz ez lz Hab Ec) as (He & Hq).
    destruct (SFdiv_core_bounds _ _ _ _ _ _ _ Ec) as (Hz & _ & Hd).
    cbv zeta in Hd.
    assert (Hab' : 0 <= Z.pos pa <= Z.pos pb) by lia.
    pose proof (Zdigits2_mono (Z.pos pa) (Z.pos pb) Hab') as Mo.
    pose proof (binary_round_aux_sign (xorb false false) mz ez lz) as Sg.
    assert (H01 : 0 <= 1) by lia.
    assert (Hez : 0 <= - ez) by lia.
    pose proof (binary_round_aux_le (xorb false false) mz ez lz 1 (- ez)
                  Hz H01 Hez) as L.
    rewrite Z.mul_1_l in L. specialize (L Hq).
    rewrite fexp_eq in L.
    assert (Hsh : Z.max (Zdigits2 mz + ez - 53) (-1074) - ez <= - ez) by lia.
    specialize (L Hsh).
    pose proof (SFdiv_mag false pa 0 false pb 0) as M. cbv zeta in M.
    unfold SFdiv in M. rewrite Ec in M.
    assert (HD : Zdigits2 (Z.pos pa) + 0 - (Zdigits2 (Z.pos pb) + 0) <= 1022)
      by lia.
    specialize (M HD). clear HD.
    destruct (binary_round_aux prec emax (xorb false false) mz ez lz)
      as [s0|s0| |s0 m e]; cbn [le_one sign_of mag_le] in *;
      try exact I; try contradiction.
    destruct L as [L1 L2]. split; [exact Sg|].
      assert (P : 0 < 2 ^ (e - ez)) by (apply Z.pow_pos_nonneg; lia).
      assert (e <= 0).
      { destruct (Z_le_gt_dec e 0) as [|G]; [assumption|exfalso].
        assert (2 ^ (- ez) < 2 ^ (e - ez)) by (apply Z.pow_lt_mono_r; lia).
        nia. }
      split; [assumption|].
      replace (- ez) with ((- e) + (e - ez)) in L2 by lia.
      rewrite Z.pow_add_r in L2 by lia.
      assert (0 < 2 ^ (- e)) by (apply Z.pow_pos_nonneg; lia). nia.
Qed.

End BarBounds.

Section BarBounds2.

Lemma le_one_mag q : le_one q -> mag_le 2 q.
Proof.
  destruct q as [s|s| |s m e]; cbn [le_one mag_le]; try tauto.
  intros (_ & He & Hm). split; [lia|].
  assert (Zdigits2 (Z.pos m) <= - e + 1); [|lia].
  apply Zdigits2_le; try lia.
  rewrite Z.pow_add_r by lia. change (2 ^ 1) with 2.
  assert (0 < 2 ^ (- e)) by (apply Z.pow_pos_nonneg; lia). lia.
Qed.

Lemma mul_int_le q n mn en :
  of_Z n = S754_finite false mn en ->
  -1074 <= en <= 0 ->
  Z.pos mn = n * 2 ^ (- en) ->
  Z.pos mn < 2 ^ 53 ->
  le_one q ->
  exists z, to_int (mul_int q n) = Ok z /\ 0 <= z <= n.
Proof.
  intros En He Hn H53 Hq.
  assert (Pn : 0 < 2 ^ (- en)) by (apply Z.pow_pos_nonneg; lia).
  assert (N0 : 0 < n) by nia.
  assert (D53 : Zdigits2 (Z.pos mn) <= 53)
    by (apply Zdigits2_le; lia).
  pose proof (mul_int_finite q n mn en En ltac:(lia) ltac:(lia)
                (le_one_mag q Hq)) as F.
  unfold mul_int, fmul in *. rewrite En in *.
  destruct q as [s|s| |s mq eq]; cbn [le_one] in Hq; try contradiction.
  - cbn. exists 0. split; [reflexivity|lia].
  - destruct Hq as (-> & Heq & Hmq). unfold SFmul in *.
    assert (Pq : 0 < 2 ^ (- eq)) by (apply Z.pow_pos_nonneg; lia).
    assert (Hm : 0 <= Z.pos (mq * mn)) by lia.
    assert (HB : 0 <= Z.pos mn) by lia.
    assert (Hk : 0 <= - eq) by lia.
    assert (Hle : Z.pos (mq * mn) <= Z.pos mn * 2 ^ (- eq))
      by (rewrite Pos2Z.inj_mul; nia).
    assert (Hc : Z.pos (mq * mn) < Z.pos mn * 2 ^ (- eq)
                 \/ (Z.pos (mq * mn) = Z.pos mn * 2 ^ (- eq)
                     /\ loc_Exact = loc_Exact))
      by (destruct (Z.eq_dec (Z.pos (mq * mn)) (Z.pos mn * 2 ^ (- eq)));
          [right; split; [assumption | reflexivity] | left; lia]).
    assert (Hd : Zdigits2 (Z.pos (mq * mn)) <= 53 - eq).
    { apply Zdigits2_le; try lia.
      replace (53 - eq) with (53 + - eq) by lia.
      rewrite Z.pow_add_r by lia. rewrite Pos2Z.inj_mul. nia. }
    assert (Hsh : fexp prec emax (Zdigits2 (Z.pos (mq * mn)) + (eq + en))
                  - (eq + en) <= - eq)
      by (rewrite fexp_eq; lia).
    pose proof (binary_round_aux_le (xorb false false) (Z.pos (mq * mn))
                  (eq + en) loc_Exact (Z.pos mn) (- eq) Hm HB Hk Hc Hsh) as L.
    pose proof (binary_round_aux_sign (xorb false false) (Z.pos (mq * mn))
                  (eq + en) loc_Exact) as Sg.
    destruct (binary_round_aux prec emax (xorb false false)
                (Z.pos (mq * mn)) (eq + en) loc_Exact)
      as [s0|s0| |s0 m e]; cbn [is_finite sign_of to_int] in *;
      try discriminate.
    + exists 0. split; [reflexivity|lia].
    + subst s0. destruct L as [L1 L2].
      eexists. split; [reflexivity|].
      set (E := - (eq + en)).
      assert (PE : 0 < 2 ^ E) by (apply Z.pow_pos_nonneg; unfold E; lia).
      assert (L3 : Z.pos m * 2 ^ (e + E) <= n * 2 ^ E).
      { replace (e + E) with (e - (eq + en)) by (unfold E; lia).
        replace (n * 2 ^ E) with (Z.pos mn * 2 ^ (- eq)); [exact L2|].
        rewrite Hn. unfold E.
        replace (- (eq + en)) with (- en + - eq) by lia.
        rewrite Z.pow_add_r by lia. lia. }
      destruct (Z.leb_spec 0 e) as [G|G].
      * rewrite Z.pow_add_r in L3 by (unfold E; lia).
        assert (0 < 2 ^ e) by (apply Z.pow_pos_nonneg; lia).
        split; [apply Z.mul_nonneg_nonneg; lia|].
        apply <- (Z.mul_le_mono_pos_r (Z.pos m * 2 ^ e) n (2 ^ E) PE).
        rewrite <- Z.mul_assoc. exact L3.
      * assert (Pe : 0 < 2 ^ (- e)) by (apply Z.pow_pos_nonneg; lia).
        assert (P2 : 0 < 2 ^ (e + E)) by (apply Z.pow_pos_nonneg; unfold E; lia).
        assert (S : 2 ^ E = 2 ^ (e + E) * 2 ^ (- e)).
        { rewrite <- Z.pow_add_r by (unfold E; lia). f_equal. lia. }
        rewrite S in L3.
        assert (L4 : Z.pos m <= n * 2 ^ (- e)).
        { apply <- (Z.mul_le_mono_pos_r (Z.pos m) (n * 2 ^ (- e))
                      (2 ^ (e + E)) P2).
          replace (n * 2 ^ (- e) * 2 ^ (e + E))
            with (n * (2 ^ (e + E) * 2 ^ (- e))) by lia.
          exact L3. }
        split; [apply Z.div_pos; lia|].
        apply Z.div_le_upper_bound; lia.
Qed.

Lemma len_repeat_str (c : char) n : len (repeat_str [c] n) = Z.of_nat n.
Proof.
  unfold len. induction n as [|n IH]; [reflexivity|].
  cbn [repeat_str app length]. lia.
Qed.

Lemma len_cells f : 0 <= f <= 20 -> len (progress_bar_cells f) = 20.
Proof.
  intros H. unfold progress_bar_cells, mul_str. rewrite len_app.
  change (u "█") with [9608%N]. change (u "░") with [9617%N].
  rewrite !len_repeat_str. lia.
Qed.

Lemma progress_numbers_bounds c t :
  0 <= c <= t -> 0 < t ->
  exists p f,
    progress_numbers c t = Ok (p, f) /\ 0 <= p <= 100 /\ 0 <= f <= 20.
Proof.
  intros Hc Ht. unfold progress_numbers.
  destruct (int_truediv_le_one c t Hc Ht) as (q & Eq & Hq).
  rewrite Eq. cbn [bind].
  destruct (mul_int_le q 100 7036874417766400 (-46)) as (p & Ep & Hp);
    [reflexivity | lia | reflexivity | reflexivity | exact Hq |].
  destruct (mul_int_le q 20 5629499534213120 (-48)) as (f & Ef & Hf);
    [reflexivity | lia | reflexivity | reflexivity | exact Hq |].
  rewrite Ep, Ef. cbn [bind]. exists p, f. repeat split; lia.
Qed.

End BarBounds2.

(** X26.  For every [0 <= current <= total] with [total > 0] the progress
    bar returns, its percentage is between 0 and 100, and the bar has
    exactly 20 cells, between 0 and 20 of them filled. *)
Theorem progress_bar_within_bounds (current total : Z) :
  0 <= current <= total ->
  0 < total ->
  exists percentage filled,
    progress_numbers current total = Ok (percentage, filled)
    /\ 0 <= percentage <= 100
    /\ 0 <= filled <= 20
    /\ format_progress_bar current total
       = Ok (u "[" ++ mul_str (u "█") filled ++ mul_str (u "░") (20 - filled)
             ++ u "] " ++ str_of_Z percentage ++ u "%")
    /\ len (mul_str (u "█") filled ++ mul_str (u "░") (20 - filled)) = 20.
Proof.
  intros Hc Ht.
  destruct (progress_numbers_bounds current total Hc Ht)
    as (p & f & E & Hp & Hf).
  exists p, f. split; [exact E|]. split; [exact Hp|]. split; [exact Hf|].
  split.
  - unfold format_progress_bar. rewrite E. cbn [bind].
    unfold progress_bar_cells. rewrite <- !app_assoc. reflexivity.
  - apply (len_cells f Hf).
Qed.

Section FullBar.

Lemma SFdiv_core_same p :
  SFdiv_core_binary prec emax (Z.pos p) 0 (Z.pos p) 0
  = (2 ^ 53, -53, loc_Exact).
Proof.
  unfold SFdiv_core_binary.
  replace (Zdigits2 (Z.pos p) + 0 - (Zdigits2 (Z.pos p) + 0)) with 0 by lia.
  change (Z.min (fexp prec emax 0) (0 - 0)) with (-53).
  change (0 - 0 - -53) with 53.
  cbv beta iota zeta.
  rewrite Z.shiftl_mul_pow2 by lia.
  pose proof (Z_div_mod (Z.pos p * 2 ^ 53) (Z.pos p) ltac:(lia)) as DM.
  destruct (Z.div_eucl (Z.pos p * 2 ^ 53) (Z.pos p)) as [q r].
  destruct DM as [Eq Hr].
  assert (Q : q = 2 ^ 53) by nia. assert (R : r = 0) by nia.
  subst q r. rewrite new_location_zero. reflexivity.
Qed.

Lemma int_truediv_same t :
  0 < t -> int_truediv t t = Ok (S754_finite false 4503599627370496 (-52)).
Proof.
  intros H. destruct t as [|p|p]; try lia.
  unfold int_truediv. change (Z.pos p =? 0) with false. cbn [Z2SF].
  unfold SFdiv. rewrite SFdiv_core_same. reflexivity.
Qed.

Lemma bar_at_total t :
  0 < t ->
  format_progress_bar t t = Ok (u "[" ++ mul_str (u "█") 20 ++ u "] 100%").
Proof.
  intros H. unfold format_progress_bar, progress_numbers.
  rewrite (int_truediv_same t H). reflexivity.
Qed.

End FullBar.

(** X27.  For [current = total > 0] the bar is full and shows 100%. *)
Theorem full_bar (total : Z) :
  0 < total ->
  format_progress_bar total total = Ok (u "[████████████████████] 100%").
Proof. apply bar_at_total. Qed.

(* ------------------------------------------------------------------ *)
(** ** Lines of a message, edits of a run, amounts that are not finite *)

Section NonEmptyLines.

Variable num_str : float -> str.
Variable catalog : list step_def.

Lemma format_progress_bar_nonempty c t bar :
  format_progress_bar c t = Ok bar -> bar <> [].
Proof.
  unfold format_progress_bar.
  destruct (progress_numbers c t) as [[p f]|e]; cbn [bind]; [|discriminate].
  intros H. apply Ok_inj in H. subst bar. discriminate.
Qed.

Lemma format_predictions_nonempty p :
  p <> [] -> format_predictions num_str p <> [].
Proof.
  intros H. unfold format_predictions.
  destruct p; [congruence|]. cbn [nonempty negb]. discriminate.
Qed.

Lemma predictions_of_nonempty a p : predictions_of a = Some p -> p <> [].
Proof.
  unfold predictions_of. destruct (a_marketCapPredictions a) as [q|];
    [|discriminate].
  destruct q; cbn [nonempty]; [discriminate|]. intros [= <-]. discriminate.
Qed.

Lemma format_analysis_step_empty k d i t :
  format_analysis_step catalog k d i t = [] -> find_step catalog k = None.
Proof.
  unfold format_analysis_step.
  destruct (find_step catalog k); [discriminate | reflexivity].
Qed.

Lemma shown_panels_nonempty a cs ts b txt :
  In (b, txt) (shown_panels catalog a cs ts) -> txt <> [].
Proof.
  intros H.
  assert (K : In b (kinds (shown_panels catalog a cs ts))).
  { unfold kinds. apply in_map_iff. exists (b, txt). split; [reflexivity|exact H]. }
  apply shown_panels_kinds in K. destruct K as (k & ->).
  apply in_shown_panels in H.
  destruct H as (_ & s & d & Hn & _ & _ & ->).
  intros X. apply format_analysis_step_empty in X.
  apply find_step_none in X. apply X.
  apply in_map. eapply nth_error_In. exact Hn.
Qed.

Lemma compose_lines_nonempty token metadata metrics a cs ts sc :
  exists lines,
    compose_lines num_str catalog token metadata metrics a cs ts sc = Ok lines
    /\ forall b txt, In (b, txt) lines -> txt = [] -> b = BBlank.
Proof.
  destruct (compose_lines_shape num_str catalog token metadata metrics
              a cs ts sc) as (progress & Ec & P).
  eexists. split; [exact Ec|].
  intros b txt H E. subst txt. apply in_app_iff in H. destruct H as [H|H].
  - unfold header_lines, format_token_overview in H. cbn [In] in H.
    destruct H as [H|[H|[H|[H|[]]]]]; try (inversion H; fail);
      inversion H; reflexivity.
  - exfalso. destruct (analysis_truthy a); [|contradiction].
    cbn [andb] in P. rewrite !in_app_iff in H.
    destruct H as [H|[H|[H|H]]].
    + unfold results_lines in H.
      destruct (nonempty (shown_panels catalog a cs ts)); [|contradiction].
      destruct H as [H|H]; [inversion H|].
      apply shown_panels_nonempty in H. congruence.
    + destruct ((cs <? ts)%nat && negb sc).
      * destruct P as (bar & Eb & ->). unfold progress_lines in H.
        destruct H as [H|[H|[]]]; [inversion H|].
        apply format_progress_bar_nonempty in Eb. congruence.
      * subst progress. contradiction.
    + unfold predictions_lines in H.
      destruct ((ts <=? cs)%nat || sc); [|contradiction].
      destruct (predictions_of a) as [p|] eqn:Ep; [|contradiction].
      destruct H as [H|[]].
      apply predictions_of_nonempty in Ep.
      apply (format_predictions_nonempty p Ep). congruence.
    + unfold verdict_lines in H. destruct sc; [|contradiction].
      destruct (a_overallProbability a); [|contradiction].
      destruct H as [H|[]]. inversion H.
Qed.

End NonEmptyLines.

Section NonEmptyProperty.

Variable num_str : float -> str.
Variable catalog : list step_def.

(** X28.  The only empty line of a composed message is the blank line of
    its header: title, address, overview, results title, every step panel,
    progress line, progress bar, predictions and verdict are never the
    empty string. *)
Theorem only_the_blank_line_is_empty
    (token : str) (metadata : dict str) (metrics : dict (option float))
    (a : analysis) (cs ts : nat) (sc : bool) :
  exists lines,
    compose_lines num_str catalog token metadata metrics a cs ts sc = Ok lines
    /\ forall b txt, In (b, txt) lines -> txt = [] -> b = BBlank.
Proof. apply compose_lines_nonempty. Qed.

End NonEmptyProperty.

Section EditBound.

Variable num_str : float -> str.
Variable exn_str : exn -> str.
Variable lower : str -> str.
Variable catalog : list step_def.
Variable E : env.

Lemma report_edit_is_edit e : is_edit (report_edit exn_str e) = true.
Proof. destruct e; reflexivity. Qed.

Lemma attempt_edits token :
  (count_edits (snd (attempt num_str exn_str lower catalog E token))
   <= length catalog + 3)%nat.
Proof.
  unfold attempt.
  destruct (post E token) as [e|message|metadata metrics a]; cbn [snd].
  - cbn. lia.
  - unfold failed_edit. rewrite count_edits_one. cbn [is_edit]. lia.
  - destruct (follow_prefix exn_str lower E
                (reveal_plan num_str catalog token metadata metrics a) 0)
      as (rest & Hr).
    pose proof (reveal_plan_edits num_str catalog token metadata metrics a)
      as HE.
    rewrite Hr, count_edits_app in HE.
    pose proof (filter_length_le (has_result a) catalog) as HL.
    unfold steps_with_result in HE.
    destruct (has_predictions a); destruct (has_verdict a); lia.
Qed.

Lemma run_edits_bound text :
  (count_edits (snd (run num_str exn_str lower catalog E text))
   <= length catalog + 4)%nat.
Proof.
  rewrite run_planned. unfold planned_run.
  destruct (is_valid_solana_address (strip text)); [|cbn; lia].
  destruct (reply_text E KInitial (initial_text (strip text))); [cbn; lia|].
  pose proof (attempt_edits (strip text)) as HA.
  destruct (attempt num_str exn_str lower catalog E (strip text))
    as [[x|e] evs]; cbn [snd] in *.
  - rewrite !count_edits_cons. cbn [is_edit]. lia.
  - rewrite !count_edits_cons, count_edits_app, count_edits_one.
    rewrite report_edit_is_edit. cbn [is_edit]. lia.
Qed.

(** X29.  Whatever the text, the API and the transport do, a run calls
    [edit_text] at most once per catalog step and four times more (twelve
    times with the eight steps of the bot). *)
Theorem run_edits_bounded (text : str) :
  (count_edits (snd (run num_str exn_str lower catalog E text))
   <= length catalog + 4)%nat.
Proof. apply run_edits_bound. Qed.

End EditBound.

(** X30.  Amounts that are not finite: NaN is shown as "$nan", positive
    infinity as "$infM" (it passes the test for a million) and negative
    infinity as "$-inf". *)
Theorem format_market_cap_not_finite (v : float) :
  is_finite v = false ->
  format_market_cap (Some v)
  = match v with
    | S754_nan => u "$nan"
    | S754_infinity false => u "$infM"
    | _ => u "$-inf"
    end.
Proof.
  destruct v as [s|[|]| |s m e]; cbn [is_finite]; try discriminate;
    intros _; reflexivity.
Qed.

(* ================================================================== *)
(** * Instances of the further properties *)

Lemma run_follows_plan_witness :
  run example_num_str example_exn_str ascii_lower ANALYSIS_STEPS
    (example_env no_failure) example_address
  = (Ok tt,
     EvReply KInitial (initial_text (strip example_address))
     :: EvPost (strip example_address)
     :: reveal_plan example_num_str ANALYSIS_STEPS (strip example_address)
          example_metadata example_metrics example_analysis).
Proof.
  apply (run_follows_plan example_num_str example_exn_str ascii_lower
           ANALYSIS_STEPS (example_env no_failure) example_address
           example_metadata example_metrics example_analysis).
  - intros n text. exact I.
  - vm_compute. reflexivity.
  - reflexivity.
  - reflexivity.
Defined.

Lemma run_cost_witness :
  total_delay (snd (run example_num_str example_exn_str ascii_lower
                      ANALYSIS_STEPS (example_env no_failure) example_address))
  = STEP_DELAY * Z.of_nat (length ANALYSIS_STEPS)
    + (if has_predictions example_analysis then STEP_DELAY else 0)
    + (if has_verdict example_analysis then PREDICTION_DELAY else 0)
  /\ count_edits (snd (run example_num_str example_exn_str ascii_lower
                         ANALYSIS_STEPS (example_env no_failure)
                         example_address))
     = (1 + steps_with_result example_analysis ANALYSIS_STEPS
        + (if has_predictions example_analysis then 1 else 0)
        + (if has_verdict example_analysis then 1 else 0))%nat.
Proof.
  apply (run_cost example_num_str example_exn_str ascii_lower
           ANALYSIS_STEPS (example_env no_failure) example_address
           example_metadata example_metrics example_analysis).
  - intros n text. exact I.
  - vm_compute. reflexivity.
  - reflexivity.
  - reflexivity.
Defined.

Lemma last_step_edit_repeated_witness :
  exists before after,
    snd (run example_num_str example_exn_str ascii_lower ANALYSIS_STEPS
           (api_env (PostOk example_metadata example_metrics late_analysis))
           example_address)
    = before
      ++ [ progress_event example_num_str ANALYSIS_STEPS
             (strip example_address) example_metadata example_metrics
             late_analysis (length ANALYSIS_STEPS) false;
           EvSleep STEP_DELAY;
           progress_event example_num_str ANALYSIS_STEPS
             (strip example_address) example_metadata example_metrics
             late_analysis (length ANALYSIS_STEPS) false ]
      ++ after.
Proof.
  apply (last_step_edit_repeated example_num_str example_exn_str ascii_lower
           ANALYSIS_STEPS
           (api_env (PostOk example_metadata example_metrics late_analysis))
           example_address example_metadata example_metrics late_analysis
           (firstn 7 ANALYSIS_STEPS)
           {| key := u "socials"; label := u "Social Media Presence";
              icon := u "🌐" |}).
  - intros n text. exact I.
  - vm_compute. reflexivity.
  - reflexivity.
  - reflexivity.
  - reflexivity.
  - vm_compute. reflexivity.
  - reflexivity.
Defined.

Lemma api_exception_reported_witness :
  exists k message,
    run example_num_str example_exn_str ascii_lower ANALYSIS_STEPS
      (api_env (PostRaises RequestsTimeout)) example_address
    = (match edit_text (api_env (PostRaises RequestsTimeout)) 0 message with
       | Some e' => Raise e'
       | None => Ok tt
       end,
       [ EvReply KInitial (initial_text (strip example_address));
         EvPost (strip example_address);
         EvEdit k message ])
    /\ (RequestsTimeout = RequestsTimeout ->
        k = KTimeout /\ message = timeout_text)
    /\ (forall m, RequestsTimeout = RequestException m ->
        k = KNetworkError
        /\ message = network_error_text example_exn_str RequestsTimeout)
    /\ (RequestsTimeout <> RequestsTimeout ->
        (forall m, RequestsTimeout <> RequestException m) ->
        k = KUnexpected
        /\ message = unexpected_error_text example_exn_str RequestsTimeout).
Proof.
  apply (api_exception_reported example_num_str example_exn_str ascii_lower
           ANALYSIS_STEPS (api_env (PostRaises RequestsTimeout))
           example_address RequestsTimeout).
  - vm_compute. reflexivity.
  - reflexivity.
  - reflexivity.
Defined.

Lemma api_refusal_reported_witness :
  run example_num_str example_exn_str ascii_lower ANALYSIS_STEPS
    (api_env (PostNotOk None)) example_address
  = (Ok tt,
     [ EvReply KInitial (initial_text (strip example_address));
       EvPost (strip example_address);
       EvEdit KAnalysisFailed (analysis_failed_text (u "Analysis failed")) ]).
Proof.
  apply (api_refusal_reported example_num_str example_exn_str ascii_lower
           ANALYSIS_STEPS (api_env (PostNotOk None)) example_address None).
  - vm_compute. reflexivity.
  - reflexivity.
  - reflexivity.
Defined.

Lemma padding_ignored_witness :
  run example_num_str example_exn_str ascii_lower ANALYSIS_STEPS
    (example_env no_failure) (u "  " ++ example_address ++ nl)
  = run example_num_str example_exn_str ascii_lower ANALYSIS_STEPS
      (example_env no_failure) example_address.
Proof.
  apply (padding_ignored example_num_str example_exn_str ascii_lower
           ANALYSIS_STEPS (example_env no_failure)
           (u "  ") example_address nl).
  - reflexivity.
  - reflexivity.
Defined.

Lemma escaping_exception_witness :
  exists before last,
    snd (run example_num_str example_exn_str ascii_lower ANALYSIS_STEPS
           blocked_env example_address) = before ++ [last]
    /\ match last with
       | EvReply k t =>
           before = []
           /\ reply_text blocked_env k t
              = Some (TelegramError (u "Forbidden: bot was blocked by the user"))
       | EvEdit k t =>
           edit_text blocked_env (count_edits before) t
           = Some (TelegramError (u "Forbidden: bot was blocked by the user"))
           /\ forall i c, k <> KProgress i c
       | _ => False
       end.
Proof.
  apply (escaping_exception example_num_str example_exn_str ascii_lower
           ANALYSIS_STEPS blocked_env example_address
           (TelegramError (u "Forbidden: bot was blocked by the user"))).
  vm_compute. reflexivity.
Defined.

Lemma empty_analysis_message_witness :
  compose_lines example_num_str ANALYSIS_STEPS example_address
    example_metadata example_metrics empty_analysis 0 8 false
  = Ok (header_lines example_address example_metadata example_metrics)
  /\ format_analysis_message example_num_str ANALYSIS_STEPS example_address
       example_metadata example_metrics empty_analysis 0 8 false
     = Ok (u "🔍 Analyzing Token" ++ nl
           ++ (u "`" ++ (if 20 <? len example_address
                         then slice_to 20 example_address ++ u "..."
                         else example_address) ++ u "`") ++ nl
           ++ [] ++ nl
           ++ format_token_overview example_metadata example_metrics).
Proof.
  apply (empty_analysis_message example_num_str ANALYSIS_STEPS example_address
           example_metadata example_metrics empty_analysis 0 8 false).
  reflexivity.
Defined.

Lemma valid_address_is_abbreviated_witness :
  exists title rest,
    compose_lines example_num_str ANALYSIS_STEPS example_address
      example_metadata example_metrics example_analysis 3 8 false
    = Ok (title
          :: (BAddress, u "`" ++ slice_to 20 example_address ++ u "...`")
          :: rest)
    /\ len (u "`" ++ slice_to 20 example_address ++ u "...`") = 25.
Proof.
  apply (valid_address_is_abbreviated example_num_str ANALYSIS_STEPS
           example_address example_metadata example_metrics example_analysis
           3 8 false).
  vm_compute. reflexivity.
Defined.

Lemma first_bar_is_empty_witness :
  format_progress_bar 0 8 = Ok (u "[░░░░░░░░░░░░░░░░░░░░] 0%").
Proof. apply (first_bar_is_empty 8). lia. Defined.

Lemma short_reason_on_one_line_witness :
  wrap_reason (u "No  bundled buys seen")
  = join (u " ") (split (truncate_reason (u "No  bundled buys seen"))).
Proof.
  apply (short_reason_on_one_line (u "No  bundled buys seen")).
  vm_compute. discriminate.
Defined.

Lemma panel_names_its_step_witness :
  format_analysis_step ANALYSIS_STEPS (u "chart")
    (example_step "Uptrend" "safe" "Higher lows") 3 8
  = nl ++ u "📈" ++ u " " ++ u "Chart Pattern Analysis" ++ nl
    ++ u "   "
    ++ status_emoji_of
         (get_or (example_step "Uptrend" "safe" "Higher lows")
            (u "status") (u "info"))
    ++ u " "
    ++ get_or (example_step "Uptrend" "safe" "Higher lows")
         (u "value") (u "N/A") ++ nl
    ++ u "   "
    ++ wrap_reason
         (get_or (example_step "Uptrend" "safe" "Higher lows") (u "reason") []).
Proof.
  apply (panel_names_its_step ANALYSIS_STEPS
           {| key := u "chart"; label := u "Chart Pattern Analysis";
              icon := u "📈" |}
           (example_step "Uptrend" "safe" "Higher lows") 3 8).
  - exact analysis_steps_distinct.
  - do 3 right. left. reflexivity.
Defined.

Lemma first_message_shows_empty_bar_witness :
  exists before,
    format_analysis_message example_num_str ANALYSIS_STEPS example_address
      example_metadata example_metrics example_analysis
      0 (length ANALYSIS_STEPS) false
    = Ok (join nl (List.map snd before)
          ++ nl ++ progress_line_text 0 (length ANALYSIS_STEPS)
          ++ nl ++ u "[░░░░░░░░░░░░░░░░░░░░] 0%")
    /\ kinds before = [BTitle; BAddress; BBlank; BOverview].
Proof.
  apply (first_message_shows_empty_bar example_num_str ANALYSIS_STEPS
           example_address example_metadata example_metrics example_analysis).
  - reflexivity.
  - discriminate.
Defined.

Lemma progress_bar_within_bounds_witness :
  exists percentage filled,
    progress_numbers 29 50 = Ok (percentage, filled)
    /\ 0 <= percentage <= 100
    /\ 0 <= filled <= 20
    /\ format_progress_bar 29 50
       = Ok (u "[" ++ mul_str (u "█") filled ++ mul_str (u "░") (20 - filled)
             ++ u "] " ++ str_of_Z percentage ++ u "%")
    /\ len (mul_str (u "█") filled ++ mul_str (u "░") (20 - filled)) = 20.
Proof. apply (progress_bar_within_bounds 29 50); lia. Defined.

Lemma full_bar_witness :
  format_progress_bar 8 8 = Ok (u "[████████████████████] 100%").
Proof. apply (full_bar 8). lia. Defined.

Lemma format_market_cap_not_finite_witness :
  format_market_cap (Some (S754_infinity false)) = u "$infM".
Proof.
  apply (format_market_cap_not_finite (S754_infinity false)). reflexivity.
Defined.
